(** * mobile-dev-mcp: entitlement gating and the UI-tree engine

    A shallow embedding of the TypeScript sources [src/types.ts],
    [src/license.ts], [src/utils.ts] and of the UI-inspection cases of
    [handleTool] in [src/index.ts], followed by the properties the
    specification states about them.

    Conventions.
    - A JavaScript string is a [string]; each [ascii] stands for one UTF-16
      code unit in the range 0..255 (Latin-1).
    - [x?: string] is an [option string]; the guard [x && ...] of the sources
      is the truthiness test [truthy]: present and non-empty.
    - Code that can throw returns a [completion]. *)

From Stdlib Require Import ZArith List String Ascii Bool Lia.
Import ListNotations.

Open Scope string_scope.
Open Scope Z_scope.

(** ** JavaScript primitives the sources rely on *)

Module JS.

(** The result of running code that may throw. *)
Inductive completion (A : Type) : Type :=
| Returns (a : A)
| Throws (msg : string).
Arguments Returns {A} a.
Arguments Throws {A} msg.

(** [s.length] *)
Definition len (s : string) : Z := Z.of_nat (String.length s).

(** [s.startsWith(p)], also returning what follows the prefix. *)
Fixpoint strip_prefix (p s : string) : option string :=
  match p, s with
  | EmptyString, _ => Some s
  | String a p', String b s' =>
      if Ascii.eqb a b then strip_prefix p' s' else None
  | String _ _, EmptyString => None
  end.

Definition startsWith (s p : string) : bool :=
  match strip_prefix p s with Some _ => true | None => false end.

(** [s.includes(sub)]: [sub] occurs in [s] at some position. *)
Fixpoint includes (s sub : string) : bool :=
  startsWith s sub ||
  match s with
  | EmptyString => false
  | String _ t => includes t sub
  end.

(** [String.prototype.toLowerCase] on Latin-1 code units: A-Z and the
    accented capitals U+00C0..U+00DE (U+00D7, the multiplication sign, is
    not a letter) move up by 32; every other unit is unchanged. *)
Definition lower_unit (c : ascii) : ascii :=
  let n := N_of_ascii c in
  if ((65 <=? n) && (n <=? 90) ||
      (192 <=? n) && (n <=? 222) && negb (n =? 215))%N
  then ascii_of_N (n + 32)
  else c.

Fixpoint toLowerCase (s : string) : string :=
  match s with
  | EmptyString => EmptyString
  | String c t => String (lower_unit c) (toLowerCase t)
  end.

(** Truthiness of an optional string: [undefined] and the empty string
    are falsy. *)
Definition truthy (o : option string) : bool :=
  match o with
  | Some (String _ _) => true
  | _ => false
  end.

(** [o && test(o)] for an optional string [o]. *)
Definition and_then (o : option string) (test : string -> bool) : bool :=
  match o with
  | Some s => if truthy o then test s else false
  | None => false
  end.

(** [list.includes(x)] for a list of strings. *)
Definition list_includes (l : list string) (x : string) : bool :=
  existsb (String.eqb x) l.

End JS.

(** ** src/types.ts *)

Module Types.

Inductive MobileDevTier : Type := free | advanced.

Record TierLimits : Type := { maxLogLines : Z; maxDevices : Z }.

Definition TIER_LIMITS (tier : MobileDevTier) : TierLimits :=
  match tier with
  | free => {| maxLogLines := 50; maxDevices := 1 |}
  | advanced => {| maxLogLines := 200; maxDevices := 3 |}
  end.

Definition FREE_TOOLS : list string :=
  [ "screenshot_emulator"; "list_devices"; "get_device_info";
    "get_app_info"; "get_adb_logs"; "get_metro_logs";
    "check_metro_status"; "get_license_status" ].

Definition ADVANCED_TOOLS : list string :=
  FREE_TOOLS ++
  [ "screenshot_ios_simulator"; "list_ios_simulators";
    "get_ios_simulator_info"; "get_ios_simulator_logs";
    "get_ui_tree"; "find_element"; "wait_for_element";
    "get_element_property"; "assert_element";
    "suggest_action"; "analyze_screen"; "get_screen_text";
    "set_license_key" ].

End Types.

(** ** src/license.ts: tool access control *)

Module Access.
Import Types.

Definition tier_eqb (a b : MobileDevTier) : bool :=
  match a, b with
  | free, free | advanced, advanced => true
  | _, _ => false
  end.

Definition canAccessTool (toolName : string) (tier : MobileDevTier) : bool :=
  if JS.list_includes FREE_TOOLS toolName then true
  else if tier_eqb tier advanced then
    if JS.list_includes ADVANCED_TOOLS toolName then true else false
  else false.

End Access.

(** ** JavaScript numbers that are non-negative integers

    [Number], [+], [/ 2] and [Math.floor] are only ever applied to values
    that start as runs of decimal digits, so a number is a non-negative
    integer held in a binary64 double, or [Infinity]. *)

Module Num.

Inductive number : Type :=
| Finite (z : Z)
| Infinity.

(** Round a non-negative integer to the nearest binary64 value, ties to
    the even significand; integers up to 2^53 are exact. *)
Definition round_double (n : Z) : number :=
  if n <=? 2 ^ 53 then Finite n
  else
    let e := Z.log2 n - 52 in
    let ulp := 2 ^ e in
    let q := n / ulp in
    let r := n mod ulp in
    let half := ulp / 2 in
    let q' := if r <? half then q
              else if half <? r then q + 1
              else if Z.even q then q else q + 1 in
    let v := q' * ulp in
    if 2 ^ 1024 <=? v then Infinity else Finite v.

Definition digit_value (c : ascii) : Z := Z.of_N (N_of_ascii c) - 48.

Fixpoint decimal_value (acc : Z) (ds : string) : Z :=
  match ds with
  | EmptyString => acc
  | String c t => decimal_value (10 * acc + digit_value c) t
  end.

(** [Number(ds)] for a run of decimal digits [ds]. *)
Definition Number (ds : string) : number := round_double (decimal_value 0 ds).

(** [a + b] *)
Definition add (a b : number) : number :=
  match a, b with
  | Finite x, Finite y => round_double (x + y)
  | _, _ => Infinity
  end.

(** [Math.floor(a / 2)]: halving a double is exact. *)
Definition floor_half (a : number) : number :=
  match a with
  | Finite x => Finite (x / 2)
  | Infinity => Infinity
  end.

(** Truthiness: [0] is the only falsy value here. *)
Definition truthy (o : option number) : bool :=
  match o with
  | Some (Finite z) => negb (z =? 0)
  | Some Infinity => true
  | None => false
  end.

End Num.

(** ** src/utils.ts: UI tree parsing and element lookup *)

Module Utils.
Import JS.

Record UiElement : Type := {
  text : string;
  resourceId : string;
  className : string;
  contentDescription : string;
  bounds : string;
  clickable : bool;
  enabled : bool;
  focused : bool;
  selected : bool;
  checked : bool;
  scrollable : bool;
  centerX : option Num.number;
  centerY : option Num.number
}.

Definition MAX_XML_SIZE : Z := 10 * 1024 * 1024.
Definition MAX_ELEMENTS : Z := 50000.

(** *** The regular expressions, written out as matchers *)

Definition quote : ascii := "034"%char.

Definition is_digit (c : ascii) : bool :=
  let n := N_of_ascii c in ((48 <=? n) && (n <=? 57))%N.

(** Longest prefix whose units satisfy [p], and the rest. *)
Fixpoint take_while (p : ascii -> bool) (s : string) : string * string :=
  match s with
  | EmptyString => (EmptyString, EmptyString)
  | String c t =>
      if p c then let (run, rest) := take_while p t in (String c run, rest)
      else (EmptyString, s)
  end.

Definition expect (c : ascii) (s : string) : option string :=
  match s with
  | String d t => if Ascii.eqb c d then Some t else None
  | EmptyString => None
  end.

(** [(\d+)]: the run is greedy, and a shorter run would be followed by a
    digit, which no pattern below accepts next; so the longest run is the
    only candidate. *)
Definition digits1 (s : string) : option (string * string) :=
  match take_while is_digit s with
  | (EmptyString, _) => None
  | (run, rest) => Some (run, rest)
  end.

Notation "x <- e ;; k" :=
  (match e with Some x => k | None => None end)
    (at level 61, e at next level, right associativity).
Notation "' p <- e ;; k" :=
  (match e with Some p => k | None => None end)
    (at level 61, p pattern, e at next level, right associativity).

(** [/\[(\d+),(\d+)\]\[(\d+),(\d+)\]/] anchored at the start of [s]. *)
Definition bounds_at (s : string) : option (string * string * string * string) :=
  r0 <- expect "[" s ;;
  '(x1, r1) <- digits1 r0 ;;
  r2 <- expect "," r1 ;;
  '(y1, r3) <- digits1 r2 ;;
  r4 <- expect "]" r3 ;;
  r5 <- expect "[" r4 ;;
  '(x2, r6) <- digits1 r5 ;;
  r7 <- expect "," r6 ;;
  '(y2, r8) <- digits1 r7 ;;
  _ <- expect "]" r8 ;;
  Some (x1, y1, x2, y2).

(** [bounds.match(/\[(\d+),(\d+)\]\[(\d+),(\d+)\]/)]: the leftmost
    position at which the pattern matches. *)
Fixpoint boundsRegex_match (s : string) : option (string * string * string * string) :=
  match bounds_at s with
  | Some m => Some m
  | None =>
      match s with
      | EmptyString => None
      | String _ t => boundsRegex_match t
      end
  end.

(** The attribute pattern (the name, an equals sign, then a capture of
    non-quote units between two quotes) anchored at the start of [s]. *)
Definition attr_at (attr s : string) : option string :=
  r0 <- strip_prefix attr s ;;
  r1 <- expect "=" r0 ;;
  r2 <- expect quote r1 ;;
  let (value, r3) := take_while (fun c => negb (Ascii.eqb c quote)) r2 in
  _ <- expect quote r3 ;;
  Some value.

(** [node.match(attrRegexes[attr])] *)
Fixpoint attrRegex_match (attr s : string) : option string :=
  match attr_at attr s with
  | Some v => Some v
  | None =>
      match s with
      | EmptyString => None
      | String _ t => attrRegex_match attr t
      end
  end.

(** [/<node[^>]+>/] anchored at the start of [s]: the matched text and
    the input after it. *)
Definition node_at (s : string) : option (string * string) :=
  r0 <- strip_prefix "<node" s ;;
  match take_while (fun c => negb (Ascii.eqb c ">")) r0 with
  | (EmptyString, _) => None
  | (run, r1) =>
      r2 <- expect ">" r1 ;;
      Some ("<node" ++ run ++ ">", r2)
  end.

(** [nodeRegex.exec(xmlDump)] from the current [lastIndex]: the leftmost
    match in the remaining input, and the input after the match. *)
Fixpoint nodeRegex_exec (input : string) : option (string * string) :=
  match node_at input with
  | Some m => Some m
  | None =>
      match input with
      | EmptyString => None
      | String _ t => nodeRegex_exec t
      end
  end.

(** *** parseUiTree *)

Definition getText (node attr : string) : string :=
  match attrRegex_match attr node with
  | Some v => v
  | None => EmptyString
  end.

Definition getBool (node attr : string) : bool :=
  String.eqb (getText node attr) "true".

(** The body of the loop: build the element of one matched node. *)
Definition element_of_node (node : string) : UiElement :=
  let b := getText node "bounds" in
  let center :=
    match boundsRegex_match b with
    | Some (x1, y1, x2, y2) =>
        (Some (Num.floor_half (Num.add (Num.Number x1) (Num.Number x2))),
         Some (Num.floor_half (Num.add (Num.Number y1) (Num.Number y2))))
    | None => (None, None)
    end in
  {| text := getText node "text";
     resourceId := getText node "resource-id";
     className := getText node "class";
     contentDescription := getText node "content-desc";
     bounds := b;
     clickable := getBool node "clickable";
     enabled := getBool node "enabled";
     focused := getBool node "focused";
     selected := getBool node "selected";
     checked := getBool node "checked";
     scrollable := getBool node "scrollable";
     centerX := fst center;
     centerY := snd center |}.

(** The [while] loop. [fuel] bounds the number of iterations; [None] means
    the bound was too small. *)
Fixpoint parse_loop (fuel : nat) (input : string) (elements : list UiElement)
  : option (list UiElement) :=
  match fuel with
  | O => None
  | S fuel' =>
      match nodeRegex_exec input with
      | None => Some elements
      | Some (node, rest) =>
          if MAX_ELEMENTS <=? Z.of_nat (List.length elements) then Some elements
          else parse_loop fuel' rest (elements ++ [element_of_node node])
      end
  end.

Definition size_error : string :=
  "XML dump exceeds maximum size (10485760 bytes)".

Definition parseUiTree (xmlDump : string) : completion (list UiElement) :=
  if MAX_XML_SIZE <? len xmlDump then Throws size_error
  else
    match parse_loop (S (String.length xmlDump)) xmlDump [] with
    | Some elements => Returns elements
    | None => Throws "loop bound exhausted"
    end.

(** *** findElementInTree *)

Module criteria.
Record t : Type := {
  text : option string;
  resourceId : option string;
  contentDescription : option string;
  className : option string
}.
End criteria.

Fixpoint findElementInTree (elements : list UiElement) (c : criteria.t)
  : option UiElement :=
  match elements with
  | [] => None
  | el :: rest =>
      if and_then (criteria.text c)
           (fun t => includes (toLowerCase (text el)) (toLowerCase t))
      then Some el
      else if and_then (criteria.resourceId c)
                (fun r => includes (resourceId el) r)
      then Some el
      else if and_then (criteria.contentDescription c)
                (fun d => includes (toLowerCase (contentDescription el)) (toLowerCase d))
      then Some el
      else if and_then (criteria.className c)
                (fun k => includes (className el) k)
      then Some el
      else findElementInTree rest c
  end.

End Utils.

(** ** src/license.ts: the signed license cache and entitlement resolution

    The world of this module is the license cache file and its directory.
    File operations succeed whenever their target exists; [unlinkSync] and
    reading throw when it does not. The HMAC, the JSON serializer and the
    machine identifier are supplied by the host. *)

Module License.
Import JS Types.

Definition CACHE_TTL_MS : Z := 60 * 60 * 1000.

(** The tier of a license at run time. Its declared type is MobileDevTier,
    but checkLicense copies [cached.tier] from what [JSON.parse] made of the
    cache file, and nothing checks it: it may be any string, or no string
    at all. A value that is no string (a number, null, an array, an
    object, or none) is described by the property key it converts to,
    which is all that [TIER_LIMITS[tier]] observes of it. *)
Inductive tier_value : Type :=
| TierText (s : string)
| TierOther (key : string).

(** The two declared tiers are the strings free and advanced. *)
Definition declared (t : MobileDevTier) : tier_value :=
  TierText (match t with free => "free" | advanced => "advanced" end).
Coercion declared : MobileDevTier >-> tier_value.

Module LicenseInfo.
Record t : Type := {
  tier : tier_value;
  valid : bool;
  licenseKey : option string;
  expiresAt : option string
}.
End LicenseInfo.

(** The LicenseInfo that validateWithLemonSqueezy builds: its tier is what
    mapProductToTier answered, so one of the declared two. *)
Module ValidatedInfo.
Record t : Type := {
  tier : MobileDevTier;
  valid : bool;
  licenseKey : option string;
  expiresAt : option string
}.
(** The same object, seen as a LicenseInfo. *)
Definition info (v : t) : LicenseInfo.t :=
  {| LicenseInfo.tier := tier v;
     LicenseInfo.valid := valid v;
     LicenseInfo.licenseKey := licenseKey v;
     LicenseInfo.expiresAt := expiresAt v |}.
End ValidatedInfo.

Module CachedLicense.
Record Data : Type := {
  tier : tier_value;
  licenseKey : option string;
  expiresAt : option string;
  lastValidated : option Z
}.
(** [raw.signature] when it is present: a string, or a value that is no
    string. The code hands it to [Buffer.from], which throws a TypeError
    for a number, for true and for a plain object, and copies the bytes of
    an array or array-like object. *)
Inductive signature_value : Type :=
| SignatureText (s : string)
| SignatureNumber                       (* a number other than 0 *)
| SignatureTrue
| SignatureBytes (bytes : list ascii)   (* an array or array-like object *)
| SignatureObject.                      (* any other object *)
(** What [JSON.parse] yields for an object: either property may be
    missing or falsy (null, false, 0). *)
Record t : Type := {
  data : option Data;
  signature : option signature_value
}.
End CachedLicense.
Coercion CachedLicense.SignatureText : string >-> CachedLicense.signature_value.

(** What reading and parsing the cache file yields. *)
Inductive file_content : Type :=
| Unparseable                          (* JSON.parse throws *)
| JsonNull                             (* the text null *)
| Json (raw : CachedLicense.t).

Record World : Type := {
  config_dir : bool;                   (* CONFIG_DIR exists *)
  license_file : option file_content   (* LICENSE_CACHE_FILE, if it exists *)
}.

Record Host : Type := {
  machineId : string;                            (* getMachineId() *)
  hmac_sha256_hex : string -> string -> string;  (* key, payload, hex digest *)
  JSON_stringify : CachedLicense.Data -> string
}.

(** *** Stateful code that may throw *)

Definition M (A : Type) : Type := World -> completion A * World.

Definition ret {A} (a : A) : M A := fun w => (Returns a, w).
Definition throw {A} (msg : string) : M A := fun w => (Throws msg, w).
Definition bind {A B} (m : M A) (k : A -> M B) : M B :=
  fun w => match m w with
           | (Returns a, w') => k a w'
           | (Throws msg, w') => (Throws msg, w')
           end.
(** [try { m } catch { handler }] *)
Definition try_catch {A} (m : M A) (handler : M A) : M A :=
  fun w => match m w with
           | (Returns a, w') => (Returns a, w')
           | (Throws _, w') => handler w'
           end.

Notation "x <- m ;;; k" := (bind m (fun x => k))
  (at level 61, m at next level, right associativity).
Notation "m ;;; k" := (bind m (fun _ => k))
  (at level 61, right associativity).

(** [fs.existsSync(LICENSE_CACHE_FILE)] *)
Definition existsSync_cache : M bool :=
  fun w => (Returns (match license_file w with Some _ => true | None => false end), w).

(** [JSON.parse(fs.readFileSync(LICENSE_CACHE_FILE, "utf-8"))] *)
Definition read_and_parse_cache : M file_content :=
  fun w => match license_file w with
           | None => (Throws "ENOENT", w)
           | Some c => (Returns c, w)
           end.

(** [fs.unlinkSync(LICENSE_CACHE_FILE)] *)
Definition unlinkSync_cache : M unit :=
  fun w => match license_file w with
           | None => (Throws "ENOENT", w)
           | Some _ => (Returns tt, {| config_dir := config_dir w; license_file := None |})
           end.

(** [fs.existsSync(CONFIG_DIR)] and [fs.mkdirSync(CONFIG_DIR, ...)] *)
Definition existsSync_dir : M bool := fun w => (Returns (config_dir w), w).
Definition mkdirSync_dir : M unit :=
  fun w => (Returns tt, {| config_dir := true; license_file := license_file w |}).

(** [fs.writeFileSync(LICENSE_CACHE_FILE, JSON.stringify(cache, null, 2), ...)] *)
Definition writeFileSync_cache (cache : CachedLicense.t) : M unit :=
  fun w => if config_dir w
           then (Returns tt, {| config_dir := true; license_file := Some (Json cache) |})
           else (Throws "ENOENT", w).

(** *** Cache integrity *)

(** [Buffer.from(s)]: the UTF-8 encoding of [s]. A unit below 128 is one
    byte; a unit in 128..255 is two bytes. *)
Definition utf8_unit (c : ascii) : list ascii :=
  match c with
  | Ascii b0 b1 b2 b3 b4 b5 b6 false => [c]
  | Ascii b0 b1 b2 b3 b4 b5 b6 true =>
      [ Ascii b6 true false false false false true true;
        Ascii b0 b1 b2 b3 b4 b5 false true ]
  end.

Fixpoint Buffer_from (s : string) : list ascii :=
  match s with
  | EmptyString => []
  | String c t => (utf8_unit c ++ Buffer_from t)%list
  end.

(** [Buffer.from(v)] for what [raw.signature] may be. *)
Definition Buffer_from_value (v : CachedLicense.signature_value)
  : completion (list ascii) :=
  match v with
  | CachedLicense.SignatureText s => Returns (Buffer_from s)
  | CachedLicense.SignatureBytes bytes => Returns bytes
  | CachedLicense.SignatureNumber
  | CachedLicense.SignatureTrue
  | CachedLicense.SignatureObject => Throws "ERR_INVALID_ARG_TYPE"
  end.

(** The truthiness of [raw.signature] when it is present: only the empty
    string is falsy. *)
Definition signature_truthy (v : CachedLicense.signature_value) : bool :=
  match v with
  | CachedLicense.SignatureText EmptyString => false
  | _ => true
  end.

Fixpoint bytes_eqb (a b : list ascii) : bool :=
  match a, b with
  | [], [] => true
  | x :: a', y :: b' => Ascii.eqb x y && bytes_eqb a' b'
  | _, _ => false
  end.

(** [crypto.timingSafeEqual(a, b)]: throws when the lengths differ. *)
Definition timingSafeEqual (a b : list ascii) : completion bool :=
  if Nat.eqb (List.length a) (List.length b) then Returns (bytes_eqb a b)
  else Throws "ERR_CRYPTO_TIMING_SAFE_EQUAL_LENGTH".

Section WithHost.
Variable host : Host.

Definition getCacheSecret : string :=
  "mobiledev-" ++ machineId host ++ "-cache-v1".

Definition signCacheData (data : CachedLicense.Data) : string :=
  hmac_sha256_hex host getCacheSecret (JSON_stringify host data).

Definition verifyCacheSignature (data : CachedLicense.Data)
           (signature : CachedLicense.signature_value) : completion bool :=
  let expected := signCacheData data in
  match Buffer_from_value signature with
  | Throws msg => Throws msg
  | Returns sigBuffer =>
      let expBuffer := Buffer_from expected in
      if negb (Nat.eqb (List.length sigBuffer) (List.length expBuffer))
      then Returns false
      else timingSafeEqual sigBuffer expBuffer
  end.

(** *** The cache *)

Definition loadCachedLicense : M (option CachedLicense.Data) :=
  try_catch
    (present <- existsSync_cache ;;;
     if present then
       content <- read_and_parse_cache ;;;
       match content with
       | Unparseable => throw "SyntaxError"    (* JSON.parse throws *)
       | JsonNull => throw "TypeError"         (* raw.data on null *)
       | Json raw =>
           match CachedLicense.data raw, CachedLicense.signature raw with
           | Some d, Some sig =>
               if signature_truthy sig then
                 match verifyCacheSignature d sig with
                 | Returns true => ret (Some d)
                 | Returns false => unlinkSync_cache ;;; ret None
                 | Throws msg => throw msg
                 end
               else unlinkSync_cache ;;; ret None
           | _, _ => unlinkSync_cache ;;; ret None
           end
       end
     else ret None)
    (ret None).

Definition saveLicenseCache (data : CachedLicense.Data) : M unit :=
  try_catch
    (present <- existsSync_dir ;;;
     (if present then ret tt else mkdirSync_dir) ;;;
     writeFileSync_cache
       {| CachedLicense.data := Some data;
          CachedLicense.signature :=
            Some (CachedLicense.SignatureText (signCacheData data)) |})
    (ret tt).

(** *** Validation *)

Definition mapProductToTier (productName : string) : MobileDevTier :=
  let name := toLowerCase productName in
  if includes name "advanced" || includes name "pro" || includes name "basic"
  then advanced else free.

(** How one call of the validation endpoint ends. *)
Inductive response : Type :=
| NetworkError
| RequestTimeout
| TooLarge
| MalformedBody
| Body (valid : bool) (product_name : option string) (expires_at : option string)
| Fault.                              (* the call itself throws *)

(** [validateWithLemonSqueezy(licenseKey)]; [received] is the reading of
    [Date.now()] when the response has arrived. *)
Definition validateWithLemonSqueezy (remote : string -> response) (received : Z)
           (licenseKey : string) : M (option ValidatedInfo.t) :=
  match remote licenseKey with
  | Body true product_name expires_at =>
      let tier := mapProductToTier
                    (match product_name with
                     | Some (String c s as n) => n
                     | _ => EmptyString
                     end) in
      saveLicenseCache
        {| CachedLicense.tier := tier;
           CachedLicense.licenseKey := Some licenseKey;
           CachedLicense.expiresAt := expires_at;
           CachedLicense.lastValidated := Some received |} ;;;
      ret (Some {| ValidatedInfo.tier := tier;
                   ValidatedInfo.valid := true;
                   ValidatedInfo.licenseKey := Some licenseKey;
                   ValidatedInfo.expiresAt := expires_at |})
  | Fault => throw "unexpected"
  | _ => ret None
  end.

Definition free_license : LicenseInfo.t :=
  {| LicenseInfo.tier := free; LicenseInfo.valid := true;
     LicenseInfo.licenseKey := None; LicenseInfo.expiresAt := None |}.

(** [cached.lastValidated || 0] *)
Definition lastCheck (c : CachedLicense.Data) : Z :=
  match CachedLicense.lastValidated c with
  | Some t => t
  | None => 0
  end.

(** The [try] block of [checkLicense()]; [now] is the reading of
    [Date.now()] at the freshness test. *)
Definition checkLicense_try (remote : string -> response) (now received : Z)
  : M LicenseInfo.t :=
  cached <- loadCachedLicense ;;;
  match cached with
  | Some c =>
      match CachedLicense.licenseKey c with
      | Some (String _ _ as key) =>
          if now - lastCheck c <? CACHE_TTL_MS then
            ret {| LicenseInfo.tier := CachedLicense.tier c;
                   LicenseInfo.valid := true;
                   LicenseInfo.licenseKey := Some key;
                   LicenseInfo.expiresAt := CachedLicense.expiresAt c |}
          else
            validated <- validateWithLemonSqueezy remote received key ;;;
            match validated with
            | Some info => ret (ValidatedInfo.info info)
            | None =>
                try_catch unlinkSync_cache (ret tt) ;;;
                ret free_license
            end
      | _ => ret free_license
      end
  | None => ret free_license
  end.

(** [checkLicense()]: the block, and the [catch] that answers free. *)
Definition checkLicense (remote : string -> response) (now received : Z)
  : M LicenseInfo.t :=
  try_catch (checkLicense_try remote now received) (ret free_license).

End WithHost.

End License.

(** ** Arguments as they arrive

    The handlers cast their arguments ([args.timeout as number],
    [args.lines as number], [args.filter as string]), but nothing checks
    the input schema at run time: an argument may be any JSON value. Such
    a value is described here by what the code observes of it. *)

From Stdlib Require QArith Qround.

Module Args.

(** The number a value converts to where it is used as one. Every finite
    double is a rational; a number too large for a double is an infinity;
    a value without a numeric reading is NaN. *)
Inductive numeric : Type :=
| NaN
| MinusInfinity
| Finite (q : QArith_base.Q)
| PlusInfinity.

Definition integer (z : Z) : numeric := Finite (QArith_base.inject_Z z).

(** An argument used as a number. Falsy: undefined, null, false, 0 or the
    empty string. Truthy: any other value, with the number it converts to:
    itself for a number, 1 for true, the number a string spells or NaN
    when it spells none (abc), NaN for most objects. *)
Inductive number_arg : Type :=
| Falsy
| Truthy (n : numeric).

(** [v || d] *)
Definition or_number (v : number_arg) (d : Z) : numeric :=
  match v with Falsy => integer d | Truthy n => n end.

(** [a < b]: false when either side is NaN. *)
Definition lt (a b : numeric) : bool :=
  match a, b with
  | NaN, _ => false
  | _, NaN => false
  | MinusInfinity, MinusInfinity => false
  | MinusInfinity, _ => true
  | _, MinusInfinity => false
  | PlusInfinity, _ => false
  | Finite _, PlusInfinity => true
  | Finite p, Finite q => negb (QArith_base.Qle_bool q p)
  end.

(** [Math.min(a, b)], [Math.max(a, b)]: NaN when either is NaN. *)
Definition Math_min (a b : numeric) : numeric :=
  match a, b with
  | NaN, _ => NaN
  | _, NaN => NaN
  | _, _ => if lt b a then b else a
  end.

Definition Math_max (a b : numeric) : numeric :=
  match a, b with
  | NaN, _ => NaN
  | _, NaN => NaN
  | _, _ => if lt a b then b else a
  end.

(** [Math.floor(a)] *)
Definition Math_floor (a : numeric) : numeric :=
  match a with
  | Finite q => integer (Qround.Qfloor q)
  | _ => a
  end.

(** An argument used as a string. Missing: undefined, null, false or 0.
    A value that is neither missing nor a string is truthy; the code
    observes whether its [length] property exceeds 128 and the string it
    converts to (12 for the number 12, tag for the array that holds the
    string tag). *)
Inductive text_arg : Type :=
| Missing
| Text (s : string)
| NoText (long : bool) (shown : string).

End Args.

(** ** src/index.ts: the UI-inspection cases of handleTool *)

Module Index.
Import JS Utils.

(** *** get_ui_tree *)

(** [s.split(".").pop()]: what follows the last dot. *)
Fixpoint last_segment_from (current s : string) : string :=
  match s with
  | EmptyString => current
  | String c t =>
      if Ascii.eqb c "." then last_segment_from EmptyString t
      else last_segment_from (current ++ String c EmptyString) t
  end.
Definition last_segment (s : string) : string := last_segment_from EmptyString s.

(** The object built for each element; a [center] of [None] is the
    [undefined] that [JSON.stringify] leaves out of the output. *)
Module Reported.
Record t : Type := {
  text : string;
  resourceId : string;
  className : string;
  contentDescription : string;
  bounds : string;
  clickable : bool;
  center : option (Num.number * Num.number)
}.
End Reported.

Definition report (el : UiElement) : Reported.t :=
  {| Reported.text := text el;
     Reported.resourceId := resourceId el;
     Reported.className := last_segment (className el);
     Reported.contentDescription := contentDescription el;
     Reported.bounds := bounds el;
     Reported.clickable := clickable el;
     Reported.center :=
       if Num.truthy (centerX el) && Num.truthy (centerY el)
       then match centerX el, centerY el with
            | Some x, Some y => Some (x, y)
            | _, _ => None
            end
       else None |}.

Definition nonempty (s : string) : bool :=
  match s with EmptyString => false | String _ _ => true end.

Inductive ui_tree_result : Type :=
| UiTree (elementCount : Z) (elements : list Reported.t)
| UiTreeFailed (message : string).

(** The case body; [compressed] is [args.compressed] and [stdout] is how
    the dump command ended. *)
Definition get_ui_tree (compressed : option bool) (stdout : completion string)
  : ui_tree_result :=
  let compressed := match compressed with Some false => false | _ => true end in
  match stdout with
  | Throws msg => UiTreeFailed ("Failed to get UI tree: " ++ msg)
  | Returns out =>
      match parseUiTree out with
      | Throws msg => UiTreeFailed ("Failed to get UI tree: " ++ msg)
      | Returns elements =>
          let filtered :=
            if compressed
            then filter (fun el => clickable el || nonempty (text el)
                                   || nonempty (contentDescription el)) elements
            else elements in
          UiTree (Z.of_nat (List.length filtered)) (map report filtered)
      end
  end.

(** *** wait_for_element *)

Definition MAX_TIMEOUT : Z := 60000.
Definition pollInterval : Z := 500.
Definition MAX_SEARCH_LEN : Z := 500.

(** [(args.timeout as number) || 5000], then the clamp. The timeout is
    NaN when the argument is truthy but has no numeric reading. *)
Definition requestedTimeout (timeout : Args.number_arg) : Args.numeric :=
  Args.or_number timeout 5000.
Definition effective_timeout (timeout : Args.number_arg) : Args.numeric :=
  Args.Math_max (Args.integer 1000)
                (Args.Math_min (requestedTimeout timeout) (Args.integer MAX_TIMEOUT)).

Record wait_args : Type := {
  arg_text : option string;
  arg_resourceId : option string;
  arg_contentDescription : option string;
  arg_timeout : Args.number_arg
}.

Definition too_long (o : option string) : bool :=
  and_then o (fun s => MAX_SEARCH_LEN <? len s).

(** What the handler does to the outside, in order. *)
Inductive event : Type :=
| DumpRequested                 (* one run of the dump command *)
| Slept (ms : Z).               (* one call of sleep(ms) *)

(** The device and the clock as the handler meets them at its [k]-th poll:
    how the dump command ends, how long it takes, and how long a sleep of
    [ms] really lasts. *)
Record Device : Type := {
  exec_dump : nat -> completion string;
  exec_time : nat -> Z;
  sleep_time : nat -> Z -> Z
}.

Record State : Type := { clock : Z; trace : list event }.

Inductive wait_result : Type :=
| ParamsTooLong
| Found (waitTime : Z) (text : string) (center : option Num.number * option Num.number)
| TimedOut (waitTime : Args.numeric). (* found: false, timeout: true; NaN is printed as null *)

(** The body of the [try] inside the loop: dump, parse, look up. A thrown
    error is ignored and counts as not found. *)
Definition poll_once (args : wait_args) (stdout : completion string)
  : option UiElement :=
  match stdout with
  | Throws _ => None
  | Returns out =>
      match parseUiTree out with
      | Throws _ => None
      | Returns elements =>
          findElementInTree elements
            {| criteria.text := arg_text args;
               criteria.resourceId := arg_resourceId args;
               criteria.contentDescription := arg_contentDescription args;
               criteria.className := None |}
      end
  end.

(** The [while] loop from its [k]-th test on. [None]: [fuel] was too small. *)
Fixpoint wait_loop (dev : Device) (args : wait_args) (startTime : Z)
         (timeout : Args.numeric)
         (fuel k : nat) (st : State) : option (wait_result * State) :=
  match fuel with
  | O => None
  | S fuel' =>
      if Args.lt (Args.integer (clock st - startTime)) timeout then
        let st1 := {| clock := clock st + exec_time dev k;
                      trace := (trace st ++ [DumpRequested])%list |} in
        match poll_once args (exec_dump dev k) with
        | Some found =>
            Some (Found (clock st1 - startTime) (text found)
                        (centerX found, centerY found), st1)
        | None =>
            wait_loop dev args startTime timeout fuel' (S k)
              {| clock := clock st1 + sleep_time dev k pollInterval;
                 trace := (trace st1 ++ [Slept pollInterval])%list |}
        end
      else Some (TimedOut timeout, st)
  end.

(** The case body, started when the clock reads [startTime]. The loop
    cannot run more often than [MAX_TIMEOUT / pollInterval + 1] times
    when every sleep lasts at least as long as asked. *)
Definition wait_for_element (dev : Device) (args : wait_args) (startTime : Z)
  : option (wait_result * State) :=
  let timeout := effective_timeout (arg_timeout args) in
  let st := {| clock := startTime; trace := [] |} in
  if too_long (arg_text args) || too_long (arg_resourceId args)
     || too_long (arg_contentDescription args)
  then Some (ParamsTooLong, st)
  else wait_loop dev args startTime timeout
                 (S (Z.to_nat (MAX_TIMEOUT / pollInterval + 1))) O st.

End Index.

(** ** src/utils.ts: input validation *)

Module Validators.
Import JS.

Definition in_range (lo hi : N) (c : ascii) : bool :=
  let n := N_of_ascii c in ((lo <=? n) && (n <=? hi))%N.

Definition is_letter (c : ascii) : bool := in_range 97 122 c || in_range 65 90 c.
Definition is_decimal (c : ascii) : bool := in_range 48 57 c.
Definition is_alnum (c : ascii) : bool := is_letter c || is_decimal c.
Definition is_hex (c : ascii) : bool :=
  is_decimal c || in_range 65 70 c || in_range 97 102 c.

(** Every unit of [s] is in the class [p]. *)
Fixpoint every (p : ascii -> bool) (s : string) : bool :=
  match s with
  | EmptyString => true
  | String c t => p c && every p t
  end.

(** A pattern of the shape [^[class]+$]: one unit or more, all in the
    class, up to the end of the input. *)
Definition class_plus (p : ascii -> bool) (s : string) : bool :=
  match s with
  | EmptyString => false
  | String _ _ => every p s
  end.

(** The class [[a-zA-Z0-9\-.:]]. *)
Definition device_unit (c : ascii) : bool :=
  is_alnum c || Ascii.eqb c "-" || Ascii.eqb c "." || Ascii.eqb c ":".

Definition validateDeviceId (deviceId : string) : bool :=
  if String.eqb deviceId EmptyString || (64 <? len deviceId) then false
  else class_plus device_unit deviceId.

(** The class [[a-zA-Z0-9_]]. *)
Definition ident_unit (c : ascii) : bool := is_alnum c || Ascii.eqb c "_".

(** The package pattern, a letter and identifier units, then one group or
    more of a dot, a letter and identifier units, up to the end of the
    input, read unit by unit. [at_start] says that a segment must begin
    here; [dotted] that a dot has been passed. A dot is no identifier unit,
    so every segment is as long as it can be and the reading is forced. *)
Fixpoint package_pattern (at_start dotted : bool) (s : string) : bool :=
  match s with
  | EmptyString => negb at_start && dotted
  | String c t =>
      if at_start then
        if is_letter c then package_pattern false dotted t else false
      else if ident_unit c then package_pattern false dotted t
      else if Ascii.eqb c "." then package_pattern true true t
      else false
  end.

Definition validatePackageName (packageName : string) : bool :=
  if String.eqb packageName EmptyString || (len packageName <? 3)
     || (255 <? len packageName)
  then false
  else package_pattern true false packageName.

(** Exactly [n] hexadecimal units; what follows them. *)
Fixpoint hex_run (n : nat) (s : string) : option string :=
  match n with
  | O => Some s
  | S m =>
      match s with
      | String c t => if is_hex c then hex_run m t else None
      | EmptyString => None
      end
  end.

Definition dash (s : string) : option string :=
  match s with
  | String c t => if Ascii.eqb c "-" then Some t else None
  | EmptyString => None
  end.

Definition option_bind {A B} (o : option A) (k : A -> option B) : option B :=
  match o with Some a => k a | None => None end.

(** The UUID pattern: 8-4-4-4-12 hexadecimal units, up to the end. *)
Definition uuid_pattern (s : string) : bool :=
  match option_bind (hex_run 8 s) (fun r1 =>
        option_bind (dash r1) (fun r2 =>
        option_bind (hex_run 4 r2) (fun r3 =>
        option_bind (dash r3) (fun r4 =>
        option_bind (hex_run 4 r4) (fun r5 =>
        option_bind (dash r5) (fun r6 =>
        option_bind (hex_run 4 r6) (fun r7 =>
        option_bind (dash r7) (fun r8 =>
        hex_run 12 r8)))))))) with
  | Some EmptyString => true
  | _ => false
  end.

Definition validateUdid (udid : string) : bool :=
  if String.eqb udid EmptyString then false
  else if String.eqb udid "booted" then true
  else uuid_pattern udid.

(** The class [[a-zA-Z0-9_*]]. *)
Definition filter_unit (c : ascii) : bool := is_alnum c || Ascii.eqb c "_" || Ascii.eqb c "*".

Definition validateLogFilter (filter : string) : bool :=
  if String.eqb filter EmptyString || (128 <? len filter) then false
  else class_plus filter_unit filter.

Definition validateLogLevel (level : string) : bool :=
  list_includes ["V"; "D"; "I"; "W"; "E"; "F"] level.

End Validators.

(** ** src/license.ts: tool classes, tier limits and the license tools *)

Module LicenseTools.
Import JS Types License.

Definition isFreeTool (toolName : string) : bool :=
  list_includes FREE_TOOLS toolName.

Definition isAdvancedOnlyTool (toolName : string) : bool :=
  list_includes ADVANCED_TOOLS toolName && negb (list_includes FREE_TOOLS toolName).

(** The key under which a tier is looked up at run time. *)
Definition tier_key (tier : MobileDevTier) : string :=
  match tier with free => "free" | advanced => "advanced" end.

(** [TIER_LIMITS[key]?.]: the table has the own keys free and advanced;
    under any other key there is nothing that carries limits. *)
Definition limits_of_key (key : string) : option TierLimits :=
  if String.eqb key "free" then Some (TIER_LIMITS free)
  else if String.eqb key "advanced" then Some (TIER_LIMITS advanced)
  else None.

(** [v || d] for numbers. *)
Definition or_default (v d : Z) : Z := if v =? 0 then d else v.

Definition getMaxLogLines (tier : string) : Z :=
  match limits_of_key tier with
  | Some limits => or_default (maxLogLines limits) 50
  | None => 50
  end.

Definition getMaxDevices (tier : string) : Z :=
  match limits_of_key tier with
  | Some limits => or_default (maxDevices limits) 1
  | None => 1
  end.

(** [tier.toUpperCase()] *)
Definition tier_upper (tier : MobileDevTier) : string :=
  match tier with free => "FREE" | advanced => "ADVANCED" end.

(** [s || d] for strings. *)
Definition or_text (o : option string) (d : string) : string :=
  match o with
  | Some (String _ _ as s) => s
  | _ => d
  end.

(** [s.toUpperCase()], as UTF-16 code units. The capital of a unit below
    256 may lie above 255 (units 181 and 255) or be two units (unit 223). *)
Definition upper_units (c : ascii) : list N :=
  let n := N_of_ascii c in
  (if (97 <=? n) && (n <=? 122) then [n - 32]
   else if n =? 181 then [924]
   else if n =? 223 then [83; 83]
   else if (224 <=? n) && (n <=? 254) && negb (n =? 247) then [n - 32]
   else if n =? 255 then [376]
   else [n])%N.

Fixpoint toUpperCase (s : string) : list N :=
  match s with
  | EmptyString => []
  | String c t => (upper_units c ++ toUpperCase t)%list
  end.

(** The code units of a string. *)
Fixpoint units (s : string) : list N :=
  match s with
  | EmptyString => []
  | String c t => N_of_ascii c :: units t
  end.

(** [license.tier.toUpperCase()]: a TypeError when the tier is no string. *)
Definition toUpperCase_tier (t : tier_value) : completion (list N) :=
  match t with
  | TierText s => Returns (toUpperCase s)
  | TierOther _ => Throws "TypeError"
  end.

(** The key under which [TIER_LIMITS[license.tier]] looks the tier up. *)
Definition property_key (t : tier_value) : string :=
  match t with TierText s => s | TierOther key => key end.

(** [license.tier === name] *)
Definition tier_is (t : tier_value) (name : string) : bool :=
  match t with TierText s => String.eqb s name | TierOther _ => false end.

(** The properties of the object getLicenseStatus serializes, as their
    expressions evaluate; the object exists when [tier] returns. *)
Module Status.
Record t : Type := {
  tier : completion (list N);
  valid : bool;
  expiresAt : string;
  maxLogLines : Z;
  maxDevices : Z;
  tools : Z;
  upgrade : bool;                (* false stands for null *)
  attribution_required : bool
}.
End Status.

Definition status_of (license : LicenseInfo.t) : Status.t :=
  let limits := limits_of_key (property_key (LicenseInfo.tier license)) in
  {| Status.tier := toUpperCase_tier (LicenseInfo.tier license);
     Status.valid := LicenseInfo.valid license;
     Status.expiresAt := or_text (LicenseInfo.expiresAt license) "N/A";
     Status.maxLogLines :=
       match limits with Some l => or_default (Types.maxLogLines l) 50 | None => 50 end;
     Status.maxDevices :=
       match limits with Some l => or_default (Types.maxDevices l) 1 | None => 1 end;
     Status.tools :=
       if tier_is (LicenseInfo.tier license) "advanced" then 21 else 8;
     Status.upgrade := tier_is (LicenseInfo.tier license) "free";
     Status.attribution_required := tier_is (LicenseInfo.tier license) "free" |}.

Definition getLicenseStatus (host : Host) (remote : string -> response)
           (now received : Z) : M Status.t :=
  bind (checkLicense host remote now received) (fun license =>
    let status := status_of license in
    match Status.tier status with
    | Returns _ => ret status
    | Throws msg => throw msg
    end).

(** [String.prototype.trim] on Latin-1 units: tab, line feed, vertical tab,
    form feed, carriage return, space and no-break space are white space. *)
Definition is_space (c : ascii) : bool :=
  let n := N_of_ascii c in
  ((9 <=? n) && (n <=? 13) || (n =? 32) || (n =? 160))%N.

Fixpoint trimStart (s : string) : string :=
  match s with
  | String c t => if is_space c then trimStart t else s
  | EmptyString => EmptyString
  end.

Fixpoint trimEnd (s : string) : string :=
  match s with
  | EmptyString => EmptyString
  | String c t =>
      match trimEnd t with
      | EmptyString => if is_space c then EmptyString else String c EmptyString
      | t' => String c t'
      end
  end.

Definition trim (s : string) : string := trimEnd (trimStart s).

(** The object setLicenseKey serializes. *)
Inductive set_key_result : Type :=
| KeyRequired                                   (* License key is required *)
| InvalidKeyFormat                              (* Invalid license key format *)
| Activated (tier : string) (expiresAt : string)
| KeyRejected.                                  (* Invalid license key. ... *)

Definition setLicenseKey (host : Host) (remote : string -> response)
           (received : Z) (licenseKey : string) : M set_key_result :=
  if String.eqb licenseKey EmptyString || String.eqb (trim licenseKey) EmptyString
  then ret KeyRequired
  else
    let key := trim licenseKey in
    if (len key <? 10) || (100 <? len key) then ret InvalidKeyFormat
    else
      bind (validateWithLemonSqueezy host remote received key) (fun validated =>
        match validated with
        | Some v => ret (Activated (tier_upper (ValidatedInfo.tier v))
                                   (or_text (ValidatedInfo.expiresAt v) "N/A"))
        | None => ret KeyRejected
        end).

End LicenseTools.

(** ** src/index.ts: the tool catalogue and the start of handleTool *)

Module Dispatch.
Import JS Types Access Validators LicenseTools.

(** The names of the [tools] array, in its order. *)
Definition tool_names : list string :=
  [ "screenshot_emulator"; "screenshot_ios_simulator"; "list_devices";
    "list_ios_simulators"; "get_device_info"; "get_ios_simulator_info";
    "get_app_info"; "get_metro_logs"; "get_adb_logs"; "get_ios_simulator_logs";
    "check_metro_status"; "get_license_status"; "get_ui_tree"; "find_element";
    "wait_for_element"; "get_element_property"; "assert_element";
    "suggest_action"; "analyze_screen"; "get_screen_text"; "set_license_key" ].

(** The ListTools handler: the names of the tools it returns to a tier. *)
Definition listTools (tier : MobileDevTier) : list string :=
  filter (fun name => canAccessTool name tier) tool_names.

(** The labels of the [switch] in handleTool, in its order. *)
Definition case_labels : list string :=
  [ "screenshot_emulator"; "screenshot_ios_simulator"; "list_devices";
    "list_ios_simulators"; "get_device_info"; "get_ios_simulator_info";
    "get_app_info"; "get_metro_logs"; "get_adb_logs"; "get_ios_simulator_logs";
    "check_metro_status"; "get_ui_tree"; "find_element"; "wait_for_element";
    "get_element_property"; "assert_element"; "suggest_action";
    "analyze_screen"; "get_screen_text"; "get_license_status"; "set_license_key" ].

(** How a call leaves the part of handleTool before the case bodies. *)
Inductive route : Type :=
| Denied (tier : string)         (* This tool requires ADVANCED tier ... Your tier: ... *)
| InvalidDevice                  (* Invalid device ID format. ... *)
| Case (label deviceArg : string)
| UnknownTool.                   (* the default branch *)

Definition handleTool_route (name : string) (device : option string)
           (tier : MobileDevTier) : route :=
  if negb (canAccessTool name tier) then Denied (tier_upper tier)
  else if and_then device (fun d => negb (validateDeviceId d)) then InvalidDevice
  else
    let deviceArg := match device with
                     | Some (String _ _ as d) => "-s " ++ d
                     | _ => EmptyString
                     end in
    if list_includes case_labels name then Case name deviceArg else UnknownTool.

(** *** The number of log lines *)

(** [(args.lines as number) || 50] for an argument that is missing or a
    finite number; for any argument see [requestedLines_any] below. *)
Definition requestedLines (lines : option QArith_base.Q) : QArith_base.Q :=
  match lines with
  | Some q => if QArith_base.Qeq_bool q (QArith_base.inject_Z 0)
              then QArith_base.inject_Z 50 else q
  | None => QArith_base.inject_Z 50
  end.

(** [Math.max(1, Math.min(Math.floor(requestedLines), maxLines))] *)
Definition effective_lines (lines : option QArith_base.Q) (tier : MobileDevTier) : Z :=
  Z.max 1 (Z.min (Qround.Qfloor (requestedLines lines))
                 (getMaxLogLines (tier_key tier))).

(** [lines < requestedLines]: the upgrade notice is appended. *)
Definition lines_notice (lines : option QArith_base.Q) (tier : MobileDevTier) : bool :=
  negb (QArith_base.Qle_bool (requestedLines lines)
                             (QArith_base.inject_Z (effective_lines lines tier))).

(** *** get_adb_logs up to the command, for arguments of any kind *)

(** A number, or none, as an argument. *)
Definition number (lines : option QArith_base.Q) : Args.number_arg :=
  match lines with
  | Some q => if QArith_base.Qeq_bool q (QArith_base.inject_Z 0)
              then Args.Falsy else Args.Truthy (Args.Finite q)
  | None => Args.Falsy
  end.

(** [(args.lines as number) || 50] *)
Definition requestedLines_any (lines : Args.number_arg) : Args.numeric :=
  Args.or_number lines 50.

(** [Math.max(1, Math.min(Math.floor(requestedLines), maxLines))]: NaN
    when the argument is truthy but has no numeric reading. The tier is
    the one checkLicense resolved, whatever it is; [getMaxLogLines] looks
    it up by its property key. *)
Definition effective_lines_any (lines : Args.number_arg) (tier : License.tier_value)
  : Args.numeric :=
  Args.Math_max (Args.integer 1)
    (Args.Math_min (Args.Math_floor (requestedLines_any lines))
                   (Args.integer (getMaxLogLines (property_key tier)))).

(** [lines < requestedLines] *)
Definition lines_notice_any (lines : Args.number_arg) (tier : License.tier_value)
  : bool :=
  Args.lt (effective_lines_any lines tier) (requestedLines_any lines).

(** [(v as string) || d] *)
Definition or_string (v : Args.text_arg) (d : string) : Args.text_arg :=
  match v with
  | Args.Missing => Args.Text d
  | Args.Text EmptyString => Args.Text d
  | _ => v
  end.

(** [validateLogFilter(filter)] on a value that need not be a string: the
    emptiness test sees its truthiness, the length test its [length]
    property, and the pattern the string it converts to. *)
Definition validateLogFilter_any (filter : Args.text_arg) : bool :=
  match filter with
  | Args.Missing => false
  | Args.Text s => validateLogFilter s
  | Args.NoText long shown => negb long && class_plus filter_unit shown
  end.

(** [validateLogLevel(level)]: [includes] compares with [===], so only a
    string can be one of the levels. *)
Definition validateLogLevel_any (level : Args.text_arg) : bool :=
  match level with
  | Args.Text s => validateLogLevel s
  | _ => false
  end.

(** The text of a value inside a template string. *)
Definition template_text (v : Args.text_arg) : string :=
  match v with
  | Args.Missing => "undefined"
  | Args.Text s => s
  | Args.NoText _ shown => shown
  end.

Record logs_args : Type := {
  arg_lines : Args.number_arg;
  arg_filter : Args.text_arg;
  arg_level : Args.text_arg
}.

Inductive logs_plan : Type :=
| InvalidFilter
| InvalidLevel
| Logcat (filterArg : string) (lines : Args.numeric) (notice : bool).

Definition get_adb_logs_plan (args : logs_args) (tier : License.tier_value)
  : logs_plan :=
  let lines := effective_lines_any (arg_lines args) tier in
  let filter := or_string (arg_filter args) "ReactNativeJS" in
  let level := or_string (arg_level args) "I" in
  if negb (validateLogFilter_any filter) then InvalidFilter
  else if negb (validateLogLevel_any level) then InvalidLevel
  else
    let filterArg :=
      if match filter with Args.Text s => String.eqb s "*" | _ => false end
      then EmptyString
      else "-s " ++ template_text filter ++ ":" ++ template_text level in
    Logcat filterArg lines (lines_notice_any (arg_lines args) tier).

(** *** list_devices *)

Record device_entry : Type := { id : string; status : string }.

Inductive devices_result : Type :=
| NoDevices
| Listing (limited : list device_entry) (total : Z) (upgrade_notice : bool).

Definition list_devices (devices : list device_entry) (tier : MobileDevTier)
  : devices_result :=
  let maxDevices := getMaxDevices (tier_key tier) in
  if Z.of_nat (List.length devices) =? 0 then NoDevices
  else
    Listing (firstn (Z.to_nat maxDevices) devices)
            (Z.of_nat (List.length devices))
            (maxDevices <? Z.of_nat (List.length devices)).

End Dispatch.

(** ** src/index.ts: the lookup, assertion and analysis cases *)

Module Screen.
Import JS Utils Index LicenseTools.

(** [a || b] for strings. *)
Definition or_else (a b : string) : string :=
  match a with EmptyString => b | String _ _ => a end.

Definition search_criteria (text resourceId contentDescription : option string)
  : criteria.t :=
  {| criteria.text := text;
     criteria.resourceId := resourceId;
     criteria.contentDescription := contentDescription;
     criteria.className := None |}.

(** *** find_element *)

Inductive find_result : Type :=
| SearchTooLong
| ElementFound (el : UiElement)      (* found: true, with the fields of [el] *)
| ElementNotFound                    (* found: false *)
| FindFailed (message : string).

Definition find_element (text resourceId contentDescription : option string)
           (stdout : completion string) : find_result :=
  if too_long text || too_long resourceId || too_long contentDescription
  then SearchTooLong
  else
    match stdout with
    | Throws msg => FindFailed ("Failed to find element: " ++ msg)
    | Returns out =>
        match parseUiTree out with
        | Throws msg => FindFailed ("Failed to find element: " ++ msg)
        | Returns elements =>
            match findElementInTree elements
                    (search_criteria text resourceId contentDescription) with
            | Some found => ElementFound found
            | None => ElementNotFound
            end
        end
    end.

(** *** assert_element *)

Inductive assert_result : Type :=
| Asserted (passed exists_ shouldExist : bool) (element : option (string * bool))
| AssertFailed (message : string).

Definition assert_element (text resourceId contentDescription : option string)
           (shouldExist : option bool) (stdout : completion string) : assert_result :=
  match stdout with
  | Throws msg => AssertFailed ("Failed: " ++ msg)
  | Returns out =>
      match parseUiTree out with
      | Throws msg => AssertFailed ("Failed: " ++ msg)
      | Returns elements =>
          let found := findElementInTree elements
                         (search_criteria text resourceId contentDescription) in
          let shouldExist := match shouldExist with Some false => false | _ => true end in
          let exists_ := match found with Some _ => true | None => false end in
          Asserted (Bool.eqb shouldExist exists_) exists_ shouldExist
                   (option_map (fun el => (Utils.text el, enabled el)) found)
      end
  end.

(** *** get_screen_text *)

(** [arr.indexOf(x)] *)
Fixpoint indexOf (arr : list string) (x : string) : Z :=
  match arr with
  | [] => -1
  | y :: rest =>
      if String.eqb y x then 0
      else let i := indexOf rest x in if i <? 0 then -1 else i + 1
  end.

(** [l.filter((text, index, arr) => arr.indexOf(text) === index)], for the
    part [l] of [arr] that starts at [index]. *)
Fixpoint first_occurrences (arr : list string) (index : Z) (l : list string)
  : list string :=
  match l with
  | [] => []
  | t :: rest =>
      if indexOf arr t =? index then t :: first_occurrences arr (index + 1) rest
      else first_occurrences arr (index + 1) rest
  end.

Definition labelled (el : UiElement) : bool :=
  nonempty (Utils.text el) || nonempty (contentDescription el).

Definition label (el : UiElement) : string :=
  or_else (Utils.text el) (contentDescription el).

Inductive text_result : Type :=
| ScreenText (textCount : Z) (text : list string)
| ScreenTextFailed (message : string).

Definition get_screen_text (stdout : completion string) : text_result :=
  match stdout with
  | Throws msg => ScreenTextFailed ("Failed to get screen text: " ++ msg)
  | Returns out =>
      match parseUiTree out with
      | Throws msg => ScreenTextFailed ("Failed to get screen text: " ++ msg)
      | Returns elements =>
          let labels := map label (filter labelled elements) in
          let allText := first_occurrences labels 0 labels in
          ScreenText (Z.of_nat (List.length allText)) allText
      end
  end.

(** *** analyze_screen *)

Module Analysis.
Record t : Type := {
  totalElements : Z;
  clickableElements : Z;
  textElements : Z;
  inputFields : Z;
  buttons : Z;
  visibleText : list string;
  interactiveElements : list (string * string * string)   (* text, type, bounds *)
}.
End Analysis.

Definition count (p : UiElement -> bool) (elements : list UiElement) : Z :=
  Z.of_nat (List.length (filter p elements)).

Definition analyze (elements : list UiElement) : Analysis.t :=
  {| Analysis.totalElements := Z.of_nat (List.length elements);
     Analysis.clickableElements := count clickable elements;
     Analysis.textElements := count (fun el => nonempty (Utils.text el)) elements;
     Analysis.inputFields :=
       count (fun el => includes (className el) "EditText") elements;
     Analysis.buttons :=
       count (fun el => includes (className el) "Button") elements;
     Analysis.visibleText :=
       firstn 20 (map Utils.text
                      (filter (fun el => nonempty (Utils.text el)) elements));
     Analysis.interactiveElements :=
       firstn 15
         (map (fun el => (label el, last_segment (className el), bounds el))
              (filter (fun el => clickable el && labelled el) elements)) |}.

Inductive analysis_result : Type :=
| ScreenAnalysis (analysis : Analysis.t)
| AnalysisFailed (message : string).

Definition analyze_screen (stdout : completion string) : analysis_result :=
  match stdout with
  | Throws msg => AnalysisFailed ("Failed to analyze screen: " ++ msg)
  | Returns out =>
      match parseUiTree out with
      | Throws msg => AnalysisFailed ("Failed to analyze screen: " ++ msg)
      | Returns elements => ScreenAnalysis (analyze elements)
      end
  end.

(** *** suggest_action *)

Inductive reasoning : Type :=
| InitiatesLogin                 (* This button appears to initiate login *)
| SearchInput                    (* This appears to be a search input *)
| NavigatesToSettings            (* This navigates to settings *)
| GoesBack                       (* This goes back *)
| NoDirectMatch (clickable : Z). (* No direct match ... clickable elements found *)

Record suggestion : Type := {
  action : string;
  target : string;
  reason : reasoning
}.

(** The four rules of the loop body for one element, in order. *)
Definition suggestions_for (goalLower : string) (el : UiElement) : list suggestion :=
  let text := toLowerCase (label el) in
  ((if includes goalLower "login" && (includes text "login" || includes text "sign in")
    then [ {| action := "tap"; target := label el; reason := InitiatesLogin |} ]
    else [])
   ++ (if includes goalLower "search"
          && (includes text "search" || includes (className el) "EditText")
       then [ {| action := if includes (className el) "EditText" then "input" else "tap";
                 target := or_else (label el) "search field";
                 reason := SearchInput |} ]
       else [])
   ++ (if includes goalLower "settings" && includes text "setting"
       then [ {| action := "tap"; target := label el; reason := NavigatesToSettings |} ]
       else [])
   ++ (if includes goalLower "back" && includes text "back"
       then [ {| action := "tap"; target := label el; reason := GoesBack |} ]
       else []))%list.

Inductive suggest_result : Type :=
| GoalRequired
| GoalTooLong
| Suggestions (goal : string) (suggestions : list suggestion)
              (clickableElementCount : Z)
| SuggestFailed (message : string).

Definition MAX_GOAL_LEN : Z := 1000.

Definition suggest_action (goal : option string) (stdout : completion string)
  : suggest_result :=
  match goal with
  | Some (String _ _ as goal) =>
      if MAX_GOAL_LEN <? len goal then GoalTooLong
      else
        match stdout with
        | Throws msg => SuggestFailed ("Failed to analyze screen: " ++ msg)
        | Returns out =>
            match parseUiTree out with
            | Throws msg => SuggestFailed ("Failed to analyze screen: " ++ msg)
            | Returns elements =>
                let clickableElements :=
                  filter (fun el => clickable el && labelled el) elements in
                let found :=
                  flat_map (suggestions_for (toLowerCase goal)) clickableElements in
                let count := Z.of_nat (List.length clickableElements) in
                let suggestions :=
                  if (Z.of_nat (List.length found) =? 0) && (0 <? count)
                  then (found ++ [ {| action := "analyze"; target := "screen";
                                      reason := NoDirectMatch count |} ])%list
                  else found in
                Suggestions goal suggestions count
            end
        end
  | _ => GoalRequired
  end.

End Screen.

(* ================================================================== *)
(** * Properties *)
(* ================================================================== *)

(** ** Tool access policy *)

Module AccessFacts.
Import Types Access.

Lemma list_includes_In (l : list string) (x : string) :
  JS.list_includes l x = true <-> In x l.
Proof.
  unfold JS.list_includes. rewrite existsb_exists. split.
  - intros [y [Hin Heq]]. apply String.eqb_eq in Heq. now subst.
  - intros Hin. exists x. split; [assumption | apply String.eqb_refl].
Qed.

Lemma free_subset_advanced (t : string) :
  In t FREE_TOOLS -> In t ADVANCED_TOOLS.
Proof. intros H. unfold ADVANCED_TOOLS. apply in_or_app. now left. Qed.

(** C5. Entitlement is monotone: whatever the free tier may call, the
    advanced tier may call; the free tool set is included in the advanced
    tool set; a name in neither set is denied for both tiers. *)
Theorem canAccessTool_monotone :
  (forall T, canAccessTool T free = true -> canAccessTool T advanced = true)
  /\ (forall T, In T FREE_TOOLS -> In T ADVANCED_TOOLS)
  /\ (forall T tier, ~ In T FREE_TOOLS -> ~ In T ADVANCED_TOOLS ->
                     canAccessTool T tier = false).
Proof.
  split; [| split].
  - intros T. unfold canAccessTool.
    destruct (JS.list_includes FREE_TOOLS T); simpl; [reflexivity | discriminate].
  - exact free_subset_advanced.
  - intros T tier Hf Ha. unfold canAccessTool.
    destruct (JS.list_includes FREE_TOOLS T) eqn:Ef.
    + apply list_includes_In in Ef. contradiction.
    + destruct (JS.list_includes ADVANCED_TOOLS T) eqn:Ea.
      * apply list_includes_In in Ea. contradiction.
      * now destruct (tier_eqb tier advanced).
Qed.

Lemma canAccessTool_monotone_witness :
  canAccessTool "list_devices" free = true
  /\ canAccessTool "list_devices" advanced = true
  /\ canAccessTool "get_ui_tree" free = false
  /\ canAccessTool "tap_screen" advanced = false.
Proof.
  split; [reflexivity |].
  split; [exact (proj1 canAccessTool_monotone "list_devices" eq_refl) |].
  split; [reflexivity |].
  apply (proj2 (proj2 canAccessTool_monotone) "tap_screen" advanced);
    intros H; repeat (destruct H as [H | H]; [discriminate H |]); exact H.
Defined.

End AccessFacts.

(** ** Strings *)

Module JSFacts.
Import JS.

(** Substring containment, as a proposition. *)
Definition contains (s sub : string) : Prop :=
  exists pre post, s = pre ++ sub ++ post.

Lemma strip_prefix_spec (p s r : string) :
  strip_prefix p s = Some r <-> s = p ++ r.
Proof.
  revert s. induction p as [| a p IH]; intros s; simpl.
  - split; [intros [= ->]; reflexivity | intros ->; reflexivity].
  - destruct s as [| b s]; [split; discriminate |].
    destruct (Ascii.eqb_spec a b) as [-> | Hne].
    + rewrite IH. split; [intros ->; reflexivity | intros [= ->]; reflexivity].
    + split; [discriminate | intros [= E _]; now elim Hne].
Qed.

Lemma strip_prefix_app (p r : string) : strip_prefix p (p ++ r) = Some r.
Proof. now apply strip_prefix_spec. Qed.

Lemma startsWith_spec (s p : string) :
  startsWith s p = true <-> exists r, s = p ++ r.
Proof.
  unfold startsWith. destruct (strip_prefix p s) as [r |] eqn:E.
  - apply strip_prefix_spec in E. split; [eauto | reflexivity].
  - split; [discriminate |]. intros [r Hr].
    apply strip_prefix_spec in Hr. congruence.
Qed.

Lemma includes_spec (s sub : string) :
  includes s sub = true <-> contains s sub.
Proof.
  unfold contains. induction s as [| c s IH]; simpl.
  - rewrite orb_false_r, startsWith_spec. split.
    + intros [r Hr]. now exists EmptyString, r.
    + intros [[| a pre] [post H]]; [now exists post | discriminate].
  - rewrite orb_true_iff, startsWith_spec, IH. split.
    + intros [[r Hr] | [pre [post H]]].
      * now exists EmptyString, r.
      * exists (String c pre), post. simpl. now rewrite H.
    + intros [[| a pre] [post H]].
      * left. now exists post.
      * right. simpl in H. injection H as _ H. now exists pre, post.
Qed.

Lemma includes_empty (s : string) : includes s EmptyString = true.
Proof. destruct s; reflexivity. Qed.

Lemma and_then_spec (o : option string) (test : string -> bool) :
  and_then o test = true <->
  exists s, o = Some s /\ s <> EmptyString /\ test s = true.
Proof.
  destruct o as [[| c s] |]; simpl.
  - split; [discriminate | intros [s [[= <-] [H _]]]; now elim H].
  - split.
    + intros H. exists (String c s). repeat split; [discriminate | assumption].
    + intros [s' [[= <-] [_ H]]]. assumption.
  - split; [discriminate | intros [s [H _]]; discriminate].
Qed.

End JSFacts.

(** ** Element lookup *)

Module FindFacts.
Import JS JSFacts Utils.
Local Open Scope list_scope.

(** The words of the specification. A criterion matches an element when
    the element's field contains it: ignoring case for the text and the
    accessibility label, as written for the identifier and the class. *)
Definition contains_ci (s sub : string) : Prop :=
  contains (toLowerCase s) (toLowerCase sub).

(** When does an optional criterion count as supplied with value [s]? *)
Definition given : Type := option string -> string -> Prop.

(** As stated: the criterion is present. *)
Definition supplied : given := fun o s => o = Some s.

(** As the code has it: the criterion is present and not empty. *)
Definition supplied_nonempty : given :=
  fun o s => o = Some s /\ s <> EmptyString.

(** Some supplied criterion matches the element. *)
Definition matches_any (g : given) (c : criteria.t) (el : UiElement) : Prop :=
  (exists t, g (criteria.text c) t /\ contains_ci (text el) t)
  \/ (exists r, g (criteria.resourceId c) r /\ contains (resourceId el) r)
  \/ (exists d, g (criteria.contentDescription c) d
                /\ contains_ci (contentDescription el) d)
  \/ (exists k, g (criteria.className c) k /\ contains (className el) k).

(** [res] is the first element of [els], in list order, that satisfies
    [P]; or it is absent and no element of [els] satisfies [P]. *)
Definition first_match (P : UiElement -> Prop) (els : list UiElement)
           (res : option UiElement) : Prop :=
  match res with
  | Some el => exists pre post,
      els = pre ++ el :: post /\ Forall (fun x => ~ P x) pre /\ P el
  | None => Forall (fun x => ~ P x) els
  end.

Definition at_least_one_supplied (c : criteria.t) : Prop :=
  criteria.text c <> None \/ criteria.resourceId c <> None
  \/ criteria.contentDescription c <> None \/ criteria.className c <> None.

(** The four tests of the loop body, in the order of the source. *)
Definition matchesb (c : criteria.t) (el : UiElement) : bool :=
  and_then (criteria.text c)
    (fun t => includes (toLowerCase (text el)) (toLowerCase t))
  || and_then (criteria.resourceId c) (fun r => includes (resourceId el) r)
  || and_then (criteria.contentDescription c)
       (fun d => includes (toLowerCase (contentDescription el)) (toLowerCase d))
  || and_then (criteria.className c) (fun k => includes (className el) k).

Lemma findElementInTree_find (els : list UiElement) (c : criteria.t) :
  findElementInTree els c = find (matchesb c) els.
Proof.
  induction els as [| el rest IH]; simpl; [reflexivity |].
  unfold matchesb.
  destruct (and_then (criteria.text c) _); [reflexivity |].
  destruct (and_then (criteria.resourceId c) _); [reflexivity |].
  destruct (and_then (criteria.contentDescription c) _); [reflexivity |].
  destruct (and_then (criteria.className c) _); [reflexivity |].
  exact IH.
Qed.

Lemma matchesb_spec (c : criteria.t) (el : UiElement) :
  matchesb c el = true <-> matches_any supplied_nonempty c el.
Proof.
  unfold matchesb, matches_any, supplied_nonempty, contains_ci.
  rewrite !orb_true_iff, !and_then_spec.
  setoid_rewrite includes_spec.
  split.
  - intros [[[H | H] | H] | H]; destruct H as [s [Ho [Hne Hc]]];
      [left | right; left | right; right; left | right; right; right]; eauto.
  - intros [H | [H | [H | H]]]; destruct H as [s [[Ho Hne] Hc]];
      [left; left; left | left; left; right | left; right | right]; eauto.
Qed.

Lemma find_first_match (f : UiElement -> bool) (P : UiElement -> Prop)
      (els : list UiElement) :
  (forall x, f x = true <-> P x) -> first_match P els (find f els).
Proof.
  intros Hf. induction els as [| el rest IH]; simpl.
  - constructor.
  - destruct (f el) eqn:E.
    + exists [], rest. repeat split; [constructor | now apply Hf].
    + assert (Hn : ~ P el) by (intros HP; apply Hf in HP; congruence).
      destruct (find f rest) as [r |]; simpl in *.
      * destruct IH as [pre [post [-> [Hpre Hr]]]].
        exists (el :: pre), post. repeat split; [now constructor | assumption].
      * now constructor.
Qed.

(** C1, as the code has it. Over every element list and every criteria
    record, the lookup returns the first element in list order for which
    some criterion that is present and non-empty matches (text and
    accessibility label ignoring case, identifier and class as written,
    all by substring containment), and the absent result when no element
    matches, in particular on the empty list. *)
Theorem findElementInTree_first_match (els : list UiElement) (c : criteria.t) :
  first_match (matches_any supplied_nonempty c) els (findElementInTree els c).
Proof.
  rewrite findElementInTree_find.
  apply find_first_match. intros x. apply matchesb_spec.
Qed.

Definition submit_button : UiElement :=
  {| text := "Submit"; resourceId := "btn_submit";
     className := "android.widget.Button"; contentDescription := "";
     bounds := "[0,0][10,10]"; clickable := true; enabled := true;
     focused := false; selected := false; checked := false;
     scrollable := false;
     centerX := Some (Num.Finite 5); centerY := Some (Num.Finite 5) |}.

Definition empty_text_criteria : criteria.t :=
  {| criteria.text := Some EmptyString; criteria.resourceId := None;
     criteria.contentDescription := None; criteria.className := None |}.

(** C1, as stated, fails when a criterion is supplied as the empty string:
    the empty string is contained in every text, so the first element
    should be returned, but the guard of the loop treats the criterion as
    not supplied and the lookup returns the absent result. *)
Lemma empty_criterion_is_ignored :
  at_least_one_supplied empty_text_criteria
  /\ matches_any supplied empty_text_criteria submit_button
  /\ findElementInTree [submit_button] empty_text_criteria = None
  /\ ~ first_match (matches_any supplied empty_text_criteria)
         [submit_button]
         (findElementInTree [submit_button] empty_text_criteria).
Proof.
  assert (Hm : matches_any supplied empty_text_criteria submit_button).
  { left. exists EmptyString. split; [reflexivity |].
    exists EmptyString, "submit". reflexivity. }
  repeat split.
  - left. discriminate.
  - exact Hm.
  - simpl. intros H. inversion H as [| ? ? Hn _]. now apply Hn.
Qed.

(** The disjunctive reading on the specification's own example. *)
Example find_submit_after_cancel :
  let cancel := {| text := "cancel"; resourceId := ""; className := "";
                   contentDescription := ""; bounds := ""; clickable := true;
                   enabled := false; focused := false; selected := false;
                   checked := false; scrollable := false;
                   centerX := None; centerY := None |} in
  let submit := {| text := "submit"; resourceId := ""; className := "";
                   contentDescription := ""; bounds := ""; clickable := true;
                   enabled := false; focused := false; selected := false;
                   checked := false; scrollable := false;
                   centerX := None; centerY := None |} in
  findElementInTree [cancel; submit]
    {| criteria.text := Some "Submit"; criteria.resourceId := None;
       criteria.contentDescription := None; criteria.className := None |}
  = Some submit.
Proof. reflexivity. Qed.

End FindFacts.

(** ** The regular expressions of the parser *)

Module RegexFacts.
Import JS JSFacts Utils.

Lemma append_assoc (a b c : string) : (a ++ b) ++ c = a ++ b ++ c.
Proof. induction a as [| x a IH]; simpl; [reflexivity | now rewrite IH]. Qed.

Lemma append_empty_r (a : string) : a ++ EmptyString = a.
Proof. induction a as [| x a IH]; simpl; [reflexivity | now rewrite IH]. Qed.

Lemma length_append (a b : string) :
  String.length (a ++ b) = (String.length a + String.length b)%nat.
Proof. induction a as [| x a IH]; simpl; [reflexivity | now rewrite IH]. Qed.

(** Every unit of [s] satisfies [p]. *)
Fixpoint all_units (p : ascii -> bool) (s : string) : bool :=
  match s with
  | EmptyString => true
  | String c t => p c && all_units p t
  end.

(** [s] is empty or starts with a unit that fails [p]. *)
Definition stops (p : ascii -> bool) (s : string) : Prop :=
  match s with
  | EmptyString => True
  | String c _ => p c = false
  end.

Lemma take_while_spec (p : ascii -> bool) (s run rest : string) :
  take_while p s = (run, rest) <->
  s = run ++ rest /\ all_units p run = true /\ stops p rest.
Proof.
  revert run rest. induction s as [| c s IH]; intros run rest; simpl.
  - split.
    + intros [= <- <-]. now repeat split.
    + intros [H _]. destruct run; [| discriminate]. simpl in H. now subst.
  - destruct (p c) eqn:Ec.
    + destruct (take_while p s) as [run' rest'] eqn:Et.
      destruct (IH run' rest') as [IH1 _]. specialize (IH1 eq_refl).
      destruct IH1 as [Hs [Ha Hst]]. split.
      * intros [= <- <-]. simpl. rewrite Ec, Ha, Hs. now repeat split.
      * intros [H [Ha' Hst']]. destruct run as [| d run].
        -- simpl in H. subst rest. simpl in Hst'. congruence.
        -- simpl in H, Ha'. injection H as <- H.
           apply andb_true_iff in Ha' as [_ Ha'].
           assert (E : (run', rest') = (run, rest)) by (apply IH; auto).
           now injection E as -> ->.
    + split.
      * intros [= <- <-]. now repeat split.
      * intros [H [Ha Hst]]. destruct run as [| d run].
        -- simpl in H. now subst.
        -- simpl in H, Ha. injection H as <- _. rewrite Ec in Ha. discriminate.
Qed.

Lemma take_while_append (p : ascii -> bool) (run rest : string) :
  all_units p run = true -> stops p rest ->
  take_while p (run ++ rest) = (run, rest).
Proof. intros Ha Hs. apply take_while_spec. auto. Qed.

Lemma expect_spec (c : ascii) (s r : string) :
  expect c s = Some r <-> s = String c r.
Proof.
  destruct s as [| d t]; simpl.
  - split; discriminate.
  - destruct (Ascii.eqb_spec c d) as [-> | Hne].
    + split; [intros [= ->]; reflexivity | intros [= ->]; reflexivity].
    + split; [discriminate | intros [= E _]; now elim Hne].
Qed.

(** A non-empty run of decimal digits. *)
Definition digit_run (d : string) : Prop :=
  d <> EmptyString /\ all_units is_digit d = true.

Lemma digits1_spec (s run rest : string) :
  digits1 s = Some (run, rest) <->
  s = run ++ rest /\ digit_run run /\ stops is_digit rest.
Proof.
  unfold digits1, digit_run.
  destruct (take_while is_digit s) as [r0 r1] eqn:E.
  apply take_while_spec in E. destruct E as [Hs [Ha Hst]]. split.
  - destruct r0; [discriminate |]. intros [= <- <-].
    repeat split; [assumption | discriminate | assumption | assumption].
  - intros [Hs' [[Hne Ha'] Hst']].
    assert (E : take_while is_digit s = (run, rest))
      by (apply take_while_spec; auto).
    assert (E0 : take_while is_digit s = (r0, r1))
      by (apply take_while_spec; auto).
    rewrite E in E0. injection E0 as <- <-.
    destruct run; [now elim Hne | reflexivity].
Qed.

(** The rectangle literal with corner coordinates [x1 y1 x2 y2]. *)
Definition rect_literal (x1 y1 x2 y2 : string) : string :=
  "[" ++ x1 ++ "," ++ y1 ++ "][" ++ x2 ++ "," ++ y2 ++ "]".

Lemma bounds_at_sound (s x1 y1 x2 y2 : string) :
  bounds_at s = Some (x1, y1, x2, y2) ->
  digit_run x1 /\ digit_run y1 /\ digit_run x2 /\ digit_run y2 /\
  exists post, s = rect_literal x1 y1 x2 y2 ++ post.
Proof.
  unfold bounds_at. intros H.
  destruct (expect "[" s) as [r0 |] eqn:E0; [| discriminate].
  destruct (digits1 r0) as [[a r1] |] eqn:E1; [| discriminate].
  destruct (expect "," r1) as [r2 |] eqn:E2; [| discriminate].
  destruct (digits1 r2) as [[b r3] |] eqn:E3; [| discriminate].
  destruct (expect "]" r3) as [r4 |] eqn:E4; [| discriminate].
  destruct (expect "[" r4) as [r5 |] eqn:E5; [| discriminate].
  destruct (digits1 r5) as [[c r6] |] eqn:E6; [| discriminate].
  destruct (expect "," r6) as [r7 |] eqn:E7; [| discriminate].
  destruct (digits1 r7) as [[d r8] |] eqn:E8; [| discriminate].
  destruct (expect "]" r8) as [r9 |] eqn:E9; [| discriminate].
  injection H as <- <- <- <-.
  apply expect_spec in E0, E2, E4, E5, E7, E9.
  apply digits1_spec in E1 as [H1 [D1 _]], E3 as [H3 [D3 _]],
                        E6 as [H6 [D6 _]], E8 as [H8 [D8 _]].
  split; [exact D1 |]. split; [exact D3 |].
  split; [exact D6 |]. split; [exact D8 |].
  exists r9. subst. unfold rect_literal. simpl.
  repeat (rewrite !append_assoc; simpl). reflexivity.
Qed.

Lemma digits1_append (run rest : string) :
  digit_run run -> stops is_digit rest ->
  digits1 (run ++ rest) = Some (run, rest).
Proof. intros D S. apply digits1_spec. auto. Qed.

Lemma bounds_at_complete (x1 y1 x2 y2 post : string) :
  digit_run x1 -> digit_run y1 -> digit_run x2 -> digit_run y2 ->
  bounds_at (rect_literal x1 y1 x2 y2 ++ post) = Some (x1, y1, x2, y2).
Proof.
  intros D1 D2 D3 D4. unfold rect_literal, bounds_at.
  rewrite !append_assoc. simpl.
  rewrite (digits1_append x1) by (auto; reflexivity). simpl.
  rewrite (digits1_append y1) by (auto; reflexivity). simpl.
  rewrite (digits1_append x2) by (auto; reflexivity). simpl.
  rewrite (digits1_append y2) by (auto; reflexivity). simpl.
  reflexivity.
Qed.

(** The field contains a rectangle literal of four digit runs. *)
Definition contains_rect (b : string) : Prop :=
  exists x1 y1 x2 y2,
    digit_run x1 /\ digit_run y1 /\ digit_run x2 /\ digit_run y2 /\
    contains b (rect_literal x1 y1 x2 y2).

Lemma boundsRegex_match_unfold (s : string) :
  boundsRegex_match s =
  match bounds_at s with
  | Some m => Some m
  | None => match s with
            | EmptyString => None
            | String _ t => boundsRegex_match t
            end
  end.
Proof. destruct s; reflexivity. Qed.

Lemma boundsRegex_match_Some (s : string) m :
  boundsRegex_match s = Some m ->
  exists pre suf, s = pre ++ suf /\ bounds_at suf = Some m.
Proof.
  induction s as [| c s IH]; rewrite boundsRegex_match_unfold.
  - discriminate.
  - destruct (bounds_at (String c s)) eqn:E.
    + intros [= <-]. now exists EmptyString, (String c s).
    + intros H. destruct (IH H) as [pre [suf [-> Hb]]].
      now exists (String c pre), suf.
Qed.

Lemma boundsRegex_match_found (pre suf : string) m :
  bounds_at suf = Some m -> boundsRegex_match (pre ++ suf) <> None.
Proof.
  intros Hb. induction pre as [| c pre IH];
    rewrite boundsRegex_match_unfold; simpl append.
  - rewrite Hb. discriminate.
  - destruct (bounds_at (String c (pre ++ suf))); [discriminate | exact IH].
Qed.

Lemma boundsRegex_match_iff (b : string) :
  boundsRegex_match b <> None <-> contains_rect b.
Proof.
  split.
  - destruct (boundsRegex_match b) as [[[[x1 y1] x2] y2] |] eqn:E;
      [intros _ | intros H; now elim H].
    apply boundsRegex_match_Some in E as [pre [suf [-> Hb]]].
    apply bounds_at_sound in Hb as [D1 [D2 [D3 [D4 [post ->]]]]].
    exists x1, y1, x2, y2.
    split; [exact D1 |]. split; [exact D2 |].
    split; [exact D3 |]. split; [exact D4 |].
    now exists pre, post.
  - intros [x1 [y1 [x2 [y2 [D1 [D2 [D3 [D4 [pre [post ->]]]]]]]]]].
    apply boundsRegex_match_found with (m := (x1, y1, x2, y2)).
    now apply bounds_at_complete.
Qed.

Lemma boundsRegex_match_literal (x1 y1 x2 y2 : string) :
  digit_run x1 -> digit_run y1 -> digit_run x2 -> digit_run y2 ->
  boundsRegex_match (rect_literal x1 y1 x2 y2) = Some (x1, y1, x2, y2).
Proof.
  intros D1 D2 D3 D4.
  pose proof (bounds_at_complete x1 y1 x2 y2 EmptyString D1 D2 D3 D4) as H.
  rewrite append_empty_r in H.
  now rewrite boundsRegex_match_unfold, H.
Qed.

End RegexFacts.

(** ** The parser *)

Module ParseFacts.
Import JS JSFacts Utils RegexFacts.
Local Open Scope list_scope.

(** *** The node pattern consumes input *)

Lemma node_at_shorter (s node rest : string) :
  node_at s = Some (node, rest) ->
  (String.length rest < String.length s)%nat.
Proof.
  unfold node_at. intros H.
  destruct (strip_prefix "<node" s) as [r0 |] eqn:E0; [| discriminate].
  destruct (take_while (fun c => negb (Ascii.eqb c ">")) r0) as [run r1] eqn:E1.
  destruct run as [| c run]; [discriminate |].
  destruct (expect ">" r1) as [r2 |] eqn:E2; [| discriminate].
  injection H as _ <-.
  apply strip_prefix_spec in E0. apply take_while_spec in E1 as [E1 _].
  apply expect_spec in E2. subst.
  rewrite !length_append. simpl. lia.
Qed.

Lemma nodeRegex_exec_unfold (s : string) :
  nodeRegex_exec s =
  match node_at s with
  | Some m => Some m
  | None => match s with
            | EmptyString => None
            | String _ t => nodeRegex_exec t
            end
  end.
Proof. destruct s; reflexivity. Qed.

Lemma nodeRegex_exec_shorter (s node rest : string) :
  nodeRegex_exec s = Some (node, rest) ->
  (String.length rest < String.length s)%nat.
Proof.
  induction s as [| c s IH]; rewrite nodeRegex_exec_unfold.
  - discriminate.
  - destruct (node_at (String c s)) as [[n r] |] eqn:E.
    + intros [= <- <-]. now apply node_at_shorter in E.
    + intros H. apply IH in H. simpl. lia.
Qed.

(** *** The node declarations of a dump, in document order *)

Fixpoint all_nodes (fuel : nat) (input : string) : list string :=
  match fuel with
  | O => []
  | S fuel' =>
      match nodeRegex_exec input with
      | None => []
      | Some (node, rest) => node :: all_nodes fuel' rest
      end
  end.

Definition node_declarations (dump : string) : list string :=
  all_nodes (S (String.length dump)) dump.

Lemma all_nodes_fuel (f1 f2 : nat) (input : string) :
  (String.length input < f1)%nat -> (String.length input < f2)%nat ->
  all_nodes f1 input = all_nodes f2 input.
Proof.
  revert f2 input. induction f1 as [| f1 IH]; intros f2 input H1 H2; [lia |].
  destruct f2 as [| f2]; [lia |]. simpl.
  destruct (nodeRegex_exec input) as [[node rest] |] eqn:E; [| reflexivity].
  apply nodeRegex_exec_shorter in E. f_equal. apply IH; lia.
Qed.

(** The element ceiling as a count. *)
Definition ceiling : nat := Z.to_nat MAX_ELEMENTS.

Lemma parse_loop_spec (fuel : nat) (input : string) (acc : list UiElement) :
  (String.length input < fuel)%nat ->
  parse_loop fuel input acc =
  Some (acc ++ map element_of_node
                   (firstn (ceiling - List.length acc) (all_nodes fuel input))).
Proof.
  revert input acc. induction fuel as [| fuel IH]; intros input acc Hf; [lia |].
  cbn [parse_loop all_nodes].
  destruct (nodeRegex_exec input) as [[node rest] |] eqn:E.
  - apply nodeRegex_exec_shorter in E.
    destruct (MAX_ELEMENTS <=? Z.of_nat (List.length acc)) eqn:Ec.
    + apply Z.leb_le in Ec.
      replace (ceiling - List.length acc)%nat with O by (unfold ceiling; lia).
      cbn [firstn map]. now rewrite app_nil_r.
    + apply Z.leb_gt in Ec.
      assert (Hs : (ceiling - List.length acc =
                    S (ceiling - List.length (acc ++ [element_of_node node])))%nat).
      { rewrite length_app. cbn [List.length]. unfold ceiling. lia. }
      rewrite IH by lia. rewrite Hs. cbn [firstn map].
      now rewrite <- app_assoc.
  - rewrite firstn_nil. cbn [map]. now rewrite app_nil_r.
Qed.

(** Within the size ceiling the parser returns, in document order, the
    elements of the first [MAX_ELEMENTS] node declarations. *)
Lemma parseUiTree_returns (dump : string) :
  len dump <= MAX_XML_SIZE ->
  parseUiTree dump =
  Returns (map element_of_node (firstn ceiling (node_declarations dump))).
Proof.
  intros Hlen. unfold parseUiTree.
  destruct (MAX_XML_SIZE <? len dump) eqn:E; [apply Z.ltb_lt in E; lia |].
  rewrite parse_loop_spec by lia. cbn [app List.length].
  now rewrite Nat.sub_0_r.
Qed.

Lemma parseUiTree_elements (dump : string) (els : list UiElement) (el : UiElement) :
  parseUiTree dump = Returns els -> In el els ->
  exists node, el = element_of_node node.
Proof.
  intros Hp Hin.
  destruct (Z.le_gt_cases (len dump) MAX_XML_SIZE) as [Hle | Hgt].
  - pose proof (parseUiTree_returns dump Hle) as Hr.
    assert (He : els = map element_of_node (firstn ceiling (node_declarations dump)))
      by congruence.
    rewrite He in Hin.
    apply in_map_iff in Hin as [node [<- _]]. now exists node.
  - unfold parseUiTree in Hp. apply Z.ltb_lt in Hgt.
    rewrite Hgt in Hp. discriminate.
Qed.

Definition small_node_text : string := "<node a>".

(** C7. The parser raises the size-exceeded error, and yields no element
    list, exactly when the length of the dump exceeds [MAX_XML_SIZE]
    (10 MB); at or below the ceiling it returns an element list. *)
Theorem parseUiTree_size_ceiling (dump : string) :
  MAX_XML_SIZE = 10485760
  /\ (parseUiTree dump = Throws size_error <-> MAX_XML_SIZE < len dump)
  /\ ((exists els, parseUiTree dump = Returns els) <-> len dump <= MAX_XML_SIZE)
  /\ (forall msg, parseUiTree dump = Throws msg -> msg = size_error).
Proof.
  split; [reflexivity |].
  destruct (Z.le_gt_cases (len dump) MAX_XML_SIZE) as [Hle | Hgt].
  - pose proof (parseUiTree_returns dump Hle) as Hr. rewrite Hr.
    split; [| split].
    + split; [discriminate | lia].
    + split; [intros _; exact Hle | intros _; eauto].
    + discriminate.
  - assert (Ht : parseUiTree dump = Throws size_error).
    { unfold parseUiTree. apply Z.ltb_lt in Hgt. now rewrite Hgt. }
    rewrite Ht. split; [| split].
    + split; [intros _; exact Hgt | reflexivity].
    + split; [intros [els H]; discriminate | lia].
    + now intros msg [= <-].
Qed.

Lemma parseUiTree_size_ceiling_witness :
  exists els, parseUiTree small_node_text = Returns els.
Proof.
  apply (proj1 (proj2 (proj2 (parseUiTree_size_ceiling small_node_text)))).
  vm_compute. discriminate.
Defined.

(** C6. A dump within the size ceiling that holds more node declarations
    than [MAX_ELEMENTS] parses, without error, to exactly [MAX_ELEMENTS]
    elements: those of the first node declarations in document order. *)
Theorem parseUiTree_truncates (dump : string) :
  len dump <= MAX_XML_SIZE ->
  MAX_ELEMENTS < Z.of_nat (List.length (node_declarations dump)) ->
  exists els,
    parseUiTree dump = Returns els
    /\ Z.of_nat (List.length els) = MAX_ELEMENTS
    /\ els = map element_of_node (firstn ceiling (node_declarations dump)).
Proof.
  intros Hlen Hmany. eexists. split; [now apply parseUiTree_returns |].
  split; [| reflexivity].
  rewrite length_map, length_firstn. unfold ceiling in *.
  unfold MAX_ELEMENTS in *. lia.
Qed.

(** A dump of 50001 node declarations. *)
Fixpoint repeat_string (n : nat) (s : string) : string :=
  match n with
  | O => EmptyString
  | S k => (s ++ repeat_string k s)%string
  end.

Definition small_node : string := small_node_text.
Definition crowded_dump : string := repeat_string (Z.to_nat 50001) small_node.

Lemma length_repeat_string (n : nat) (s : string) :
  String.length (repeat_string n s) = (n * String.length s)%nat.
Proof.
  induction n as [| n IH]; simpl; [reflexivity |].
  now rewrite length_append, IH.
Qed.

Lemma all_nodes_repeat (n fuel : nat) :
  (n < fuel)%nat ->
  all_nodes fuel (repeat_string n small_node) = repeat small_node n.
Proof.
  revert fuel. induction n as [| n IH]; intros fuel Hf;
    (destruct fuel as [| fuel]; [lia |]).
  - reflexivity.
  - change (all_nodes (S fuel) (repeat_string (S n) small_node))
      with (small_node :: all_nodes fuel (repeat_string n small_node)).
    simpl repeat. f_equal. apply IH. lia.
Qed.

Lemma crowded_dump_length : len crowded_dump = 400008.
Proof.
  unfold len, crowded_dump. rewrite length_repeat_string.
  change (String.length small_node) with 8%nat. lia.
Qed.

Lemma crowded_dump_nodes :
  List.length (node_declarations crowded_dump) = Z.to_nat 50001.
Proof.
  unfold node_declarations, crowded_dump.
  rewrite all_nodes_repeat.
  - apply repeat_length.
  - rewrite length_repeat_string.
    change (String.length small_node) with 8%nat. lia.
Qed.

Lemma parseUiTree_truncates_witness :
  exists els, parseUiTree crowded_dump = Returns els
              /\ Z.of_nat (List.length els) = 50000.
Proof.
  destruct (parseUiTree_truncates crowded_dump) as [els [Hp [Hn _]]].
  - rewrite crowded_dump_length. unfold MAX_XML_SIZE. lia.
  - rewrite crowded_dump_nodes. unfold MAX_ELEMENTS. lia.
  - exists els. split; [exact Hp | exact Hn].
Defined.

(** The specification's small instance of the same loop: three of five. *)
Example first_three_of_five :
  firstn 3 (node_declarations (repeat_string 5 small_node)) =
  [small_node; small_node; small_node].
Proof. reflexivity. Qed.

End ParseFacts.

(** ** Center points *)

Module CenterFacts.
Import JS JSFacts Utils RegexFacts ParseFacts.
Local Open Scope list_scope.

(** The integer a digit run denotes. *)
Definition value (d : string) : Z := Num.decimal_value 0 d.

Lemma digit_value_nonneg (c : ascii) : is_digit c = true -> 0 <= Num.digit_value c.
Proof.
  unfold is_digit, Num.digit_value. cbv zeta. intros H.
  apply andb_true_iff in H as [H _]. apply N.leb_le in H.
  lia.
Qed.

Lemma decimal_value_nonneg (d : string) (acc : Z) :
  all_units is_digit d = true -> 0 <= acc -> 0 <= Num.decimal_value acc d.
Proof.
  revert acc. induction d as [| c d IH]; intros acc Hd Hacc;
    cbn [Num.decimal_value]; [assumption |].
  cbn [all_units] in Hd. apply andb_true_iff in Hd as [Hc Hd].
  apply IH; [assumption |]. pose proof (digit_value_nonneg c Hc). lia.
Qed.

Lemma value_nonneg (d : string) : digit_run d -> 0 <= value d.
Proof. intros [_ Hd]. now apply decimal_value_nonneg. Qed.

Lemma round_double_exact (n : Z) : n <= 2 ^ 53 -> Num.round_double n = Num.Finite n.
Proof.
  intros H. unfold Num.round_double. apply Z.leb_le in H. now rewrite H.
Qed.

(** Within the range in which doubles hold every integer, the computed
    midpoint is the floor of the exact midpoint. *)
Lemma midpoint_exact (a b : Z) :
  0 <= a -> 0 <= b -> a + b <= 2 ^ 53 ->
  Num.floor_half (Num.add (Num.round_double a) (Num.round_double b))
  = Num.Finite ((a + b) / 2).
Proof.
  intros Ha Hb Hab.
  rewrite (round_double_exact a), (round_double_exact b) by lia.
  simpl Num.add. now rewrite round_double_exact.
Qed.

(** The center fields of an element follow from its [bounds] alone. *)
Lemma element_of_node_center (node : string) :
  let el := element_of_node node in
  match boundsRegex_match (bounds el) with
  | Some (x1, y1, x2, y2) =>
      centerX el = Some (Num.floor_half (Num.add (Num.Number x1) (Num.Number x2)))
      /\ centerY el = Some (Num.floor_half (Num.add (Num.Number y1) (Num.Number y2)))
  | None => centerX el = None /\ centerY el = None
  end.
Proof.
  unfold element_of_node. cbn [bounds centerX centerY].
  destruct (boundsRegex_match (getText node "bounds")) as [[[[x1 y1] x2] y2] |];
    split; reflexivity.
Qed.

(** C4, as the code has it. Each parsed element has both center fields or
    neither; it has them exactly when its [bounds] contains a rectangle
    literal of four non-empty runs of decimal digits; and when [bounds] is
    such a literal whose coordinate sums stay within 2^53, the center is
    the floor of the midpoint. *)
Theorem center_iff_digit_rectangle
        (dump : string) (els : list UiElement) (el : UiElement) :
  parseUiTree dump = Returns els -> In el els ->
  (centerX el <> None <-> contains_rect (bounds el))
  /\ (centerY el <> None <-> contains_rect (bounds el))
  /\ (forall x1 y1 x2 y2,
         digit_run x1 -> digit_run y1 -> digit_run x2 -> digit_run y2 ->
         bounds el = rect_literal x1 y1 x2 y2 ->
         value x1 + value x2 <= 2 ^ 53 -> value y1 + value y2 <= 2 ^ 53 ->
         centerX el = Some (Num.Finite ((value x1 + value x2) / 2))
         /\ centerY el = Some (Num.Finite ((value y1 + value y2) / 2))).
Proof.
  intros Hp Hin.
  destruct (parseUiTree_elements dump els el Hp Hin) as [node ->].
  pose proof (element_of_node_center node) as Hc. cbv zeta in Hc.
  rewrite <- !boundsRegex_match_iff.
  split; [| split].
  - destruct (boundsRegex_match (bounds (element_of_node node)))
      as [[[[a b] c] d] |]; destruct Hc as [-> _];
      split; intros H; try discriminate; now elim H.
  - destruct (boundsRegex_match (bounds (element_of_node node)))
      as [[[[a b] c] d] |]; destruct Hc as [_ ->];
      split; intros H; try discriminate; now elim H.
  - intros x1 y1 x2 y2 D1 D2 D3 D4 Hb Hx Hy.
    rewrite Hb, (boundsRegex_match_literal x1 y1 x2 y2 D1 D2 D3 D4) in Hc.
    destruct Hc as [-> ->]. unfold Num.Number. fold (value x1) (value x2) (value y1) (value y2).
    rewrite !midpoint_exact by (try apply value_nonneg; assumption).
    split; reflexivity.
Qed.

(** Node declarations for the examples. *)
Definition attribute (name v : string) : string :=
  (" " ++ name ++ "=" ++ String quote v ++ String quote EmptyString)%string.
Definition node_with_bounds (b : string) : string :=
  ("<node" ++ attribute "bounds" b ++ " />")%string.

Lemma digit_run_intro (d : string) :
  d <> EmptyString -> all_units is_digit d = true -> digit_run d.
Proof. now split. Qed.

(** The specification's example: [100,200][300,400] has center 200, 300. *)
Lemma center_iff_digit_rectangle_witness :
  let el := element_of_node (node_with_bounds "[100,200][300,400]") in
  centerX el = Some (Num.Finite 200) /\ centerY el = Some (Num.Finite 300).
Proof.
  intros el.
  refine (proj2 (proj2
    (center_iff_digit_rectangle (node_with_bounds "[100,200][300,400]")
       [el] el eq_refl (or_introl eq_refl)))
    "100" "200" "300" "400" _ _ _ _ eq_refl _ _);
    try (apply digit_run_intro; [discriminate | reflexivity]);
    vm_compute; discriminate.
Defined.

(** A malformed literal yields an element with no center, and no error. *)
Example bad_bounds_no_center :
  exists el, parseUiTree (node_with_bounds "[bad]") = Returns [el]
             /\ bounds el = "[bad]"
             /\ centerX el = None /\ centerY el = None.
Proof. eexists. repeat split. Qed.

(** *** The statement as worded *)

(** A well-formed integer: a digit run, possibly after a minus sign. *)
Definition integer_literal (s : string) : Prop :=
  digit_run s \/ exists d, s = String "-" d /\ digit_run d.

Definition integer_value (s : string) : Z :=
  match s with
  | String "-" d => - value d
  | _ => value s
  end.

(** [b] is a rectangle literal of four well-formed integers. *)
Definition rect_of_integers (b : string) : Prop :=
  exists x1 y1 x2 y2,
    integer_literal x1 /\ integer_literal y1 /\
    integer_literal x2 /\ integer_literal y2 /\
    b = rect_literal x1 y1 x2 y2.

Definition center_as_stated (el : UiElement) : Prop :=
  ((centerX el <> None /\ centerY el <> None) <-> rect_of_integers (bounds el))
  /\ (forall x1 y1 x2 y2,
         integer_literal x1 -> integer_literal y1 ->
         integer_literal x2 -> integer_literal y2 ->
         bounds el = rect_literal x1 y1 x2 y2 ->
         centerX el = Some (Num.Finite ((integer_value x1 + integer_value x2) / 2))
         /\ centerY el = Some (Num.Finite ((integer_value y1 + integer_value y2) / 2))).

Definition offscreen : UiElement := element_of_node (node_with_bounds "[-5,0][10,10]").
Definition padded : UiElement := element_of_node (node_with_bounds "x[1,2][3,4]").
Definition huge : UiElement :=
  element_of_node (node_with_bounds "[9007199254740995,0][0,0]").

Lemma integer_digits (d : string) :
  d <> EmptyString -> all_units is_digit d = true -> integer_literal d.
Proof. intros; left; now split. Qed.

(** C4, as stated, fails in three ways: a rectangle with a negative
    coordinate is a literal of well-formed integers but gets no center;
    a field that only contains a rectangle literal gets a center; and
    beyond 2^53 the center is not the exact floor of the midpoint. *)
Lemma center_as_stated_fails :
  (parseUiTree (node_with_bounds "[-5,0][10,10]") = Returns [offscreen]
   /\ ~ center_as_stated offscreen)
  /\ (parseUiTree (node_with_bounds "x[1,2][3,4]") = Returns [padded]
      /\ ~ center_as_stated padded)
  /\ (parseUiTree (node_with_bounds "[9007199254740995,0][0,0]") = Returns [huge]
      /\ ~ center_as_stated huge).
Proof.
  split; [| split]; (split; [reflexivity |]); intros [Hiff Hval].
  - assert (Hr : rect_of_integers (bounds offscreen)).
    { exists "-5", "0", "10", "10".
      split; [right; exists "5"; split;
                [reflexivity | split; [discriminate | reflexivity]] |].
      repeat (split; [apply integer_digits; [discriminate | reflexivity] |]).
      reflexivity. }
    apply Hiff in Hr as [Hx _]. now apply Hx.
  - assert (Hc : centerX padded <> None /\ centerY padded <> None)
      by (split; discriminate).
    apply Hiff in Hc as [x1 [y1 [x2 [y2 [_ [_ [_ [_ Hb]]]]]]]].
    discriminate Hb.
  - destruct (Hval "9007199254740995" "0" "0" "0") as [Hx _];
      try (apply integer_digits; [discriminate | reflexivity]);
      [reflexivity |].
    vm_compute in Hx. discriminate Hx.
Qed.

End CenterFacts.

(** ** Result shaping of get_ui_tree *)

Module UiTreeFacts.
Import JS Utils Index CenterFacts.
Local Open Scope list_scope.

(** The elements that are reported. *)
Definition shown (compressed : option bool) (els : list UiElement) : list UiElement :=
  match compressed with
  | Some false => els
  | _ => filter (fun el => clickable el || nonempty (text el)
                           || nonempty (contentDescription el)) els
  end.

Lemma report_center (el : UiElement) :
  Reported.center (report el) <> None <->
  Num.truthy (centerX el) && Num.truthy (centerY el) = true.
Proof.
  unfold report. cbn [Reported.center].
  destruct (Num.truthy (centerX el) && Num.truthy (centerY el)) eqn:E.
  - apply andb_true_iff in E as [Ex Ey].
    destruct (centerX el), (centerY el); try discriminate.
    split; [reflexivity | discriminate].
  - split; [intros H; now elim H | discriminate].
Qed.

(** C10. In the result of get_ui_tree the reported elements are the shown
    elements in order, each shaped by [report]; the [center] of a reported
    element is decided by the truthiness of both center fields, so an
    element whose bounds parsed but whose centerX or centerY is 0 is
    reported without a [center]. *)
Theorem zero_center_is_omitted
        (compressed : option bool) (dump : string) (els : list UiElement) :
  parseUiTree dump = Returns els ->
  get_ui_tree compressed (Returns dump)
  = UiTree (Z.of_nat (List.length (shown compressed els)))
           (map report (shown compressed els))
  /\ (forall el, In el els ->
        (Reported.center (report el) <> None <->
         Num.truthy (centerX el) && Num.truthy (centerY el) = true)
        /\ (centerX el = Some (Num.Finite 0) \/ centerY el = Some (Num.Finite 0) ->
            Reported.center (report el) = None)).
Proof.
  intros Hp. split.
  - unfold get_ui_tree, shown. rewrite Hp.
    destruct compressed as [[|] |]; reflexivity.
  - intros el _. split; [apply report_center |].
    intros H. unfold report. cbn [Reported.center].
    destruct H as [-> | ->]; simpl; [reflexivity |].
    now rewrite andb_false_r.
Qed.

Definition left_edge : UiElement :=
  element_of_node
    ("<node" ++ attribute "bounds" "[0,0][0,10]"
             ++ attribute "clickable" "true" ++ " />")%string.

(** Bounds [0,0][0,10] parse to the center 0, 5; the report has none. *)
Lemma zero_center_is_omitted_witness :
  centerX left_edge = Some (Num.Finite 0)
  /\ centerY left_edge = Some (Num.Finite 5)
  /\ Reported.center (report left_edge) = None.
Proof.
  split; [reflexivity |]. split; [reflexivity |].
  refine (proj2 (proj2
    (zero_center_is_omitted None
       ("<node" ++ attribute "bounds" "[0,0][0,10]"
                ++ attribute "clickable" "true" ++ " />")%string
       [left_edge] eq_refl) left_edge (or_introl eq_refl))
    (or_introl eq_refl)).
Defined.

End UiTreeFacts.

(** ** The signed license cache *)

Module CacheFacts.
Import JS Types License.
Local Open Scope list_scope.

(** *** Buffers *)

Lemma utf8_unit_inj (c d : ascii) (a b : list ascii) :
  utf8_unit c ++ a = utf8_unit d ++ b -> c = d /\ a = b.
Proof.
  destruct c as [c0 c1 c2 c3 c4 c5 c6 [|]], d as [d0 d1 d2 d3 d4 d5 d6 [|]];
    simpl; intros H; injection H; intros; subst; try discriminate; now split.
Qed.

Lemma Buffer_from_inj (s t : string) : Buffer_from s = Buffer_from t -> s = t.
Proof.
  revert t. induction s as [| c s IH]; intros [| d t]; simpl; intros H.
  - reflexivity.
  - destruct d as [d0 d1 d2 d3 d4 d5 d6 [|]]; discriminate.
  - destruct c as [c0 c1 c2 c3 c4 c5 c6 [|]]; discriminate.
  - apply utf8_unit_inj in H as [-> H]. f_equal. now apply IH.
Qed.

Lemma bytes_eqb_eq (a b : list ascii) : bytes_eqb a b = true <-> a = b.
Proof.
  revert b. induction a as [| x a IH]; intros [| y b]; simpl;
    try (split; [discriminate | discriminate]); [tauto |].
  rewrite andb_true_iff, Ascii.eqb_eq, IH.
  split; [intros [-> ->]; reflexivity | intros [= -> ->]; now split].
Qed.

Section WithHost.
Variable host : Host.

(** The comparison itself never throws: the length test comes first, so
    [timingSafeEqual] only ever sees buffers of equal length. What can
    throw is [Buffer.from], on a stored signature that is no string. *)
Lemma verifyCacheSignature_bytes
      (d : CachedLicense.Data) (sig : CachedLicense.signature_value)
      (bytes : list ascii) :
  Buffer_from_value sig = Returns bytes ->
  verifyCacheSignature host d sig
  = Returns (bytes_eqb bytes (Buffer_from (signCacheData host d))).
Proof.
  intros Hb. unfold verifyCacheSignature, timingSafeEqual. rewrite Hb.
  destruct (Nat.eqb (List.length bytes)
                    (List.length (Buffer_from (signCacheData host d)))) eqn:El;
    simpl; [reflexivity |].
  destruct (bytes_eqb bytes (Buffer_from (signCacheData host d))) eqn:Eb;
    [| reflexivity].
  apply bytes_eqb_eq in Eb. rewrite Eb, Nat.eqb_refl in El. discriminate.
Qed.

Lemma verifyCacheSignature_throws
      (d : CachedLicense.Data) (sig : CachedLicense.signature_value)
      (msg : string) :
  Buffer_from_value sig = Throws msg ->
  verifyCacheSignature host d sig = Throws msg.
Proof. intros Hb. unfold verifyCacheSignature. now rewrite Hb. Qed.

(** A stored string is accepted exactly when it is the expected one. *)
Lemma verifyCacheSignature_spec (d : CachedLicense.Data) (sig : string) :
  verifyCacheSignature host d sig
  = Returns (String.eqb sig (signCacheData host d)).
Proof.
  rewrite (verifyCacheSignature_bytes d sig (Buffer_from sig) eq_refl).
  f_equal. destruct (String.eqb_spec sig (signCacheData host d)) as [-> | Hne].
  - now apply bytes_eqb_eq.
  - destruct (bytes_eqb _ _) eqn:Eb; [| reflexivity].
    apply bytes_eqb_eq, Buffer_from_inj in Eb. contradiction.
Qed.

(** The stored signature gives the bytes of the HMAC of the data. *)
Definition verifies (d : CachedLicense.Data) (sig : CachedLicense.signature_value)
  : Prop :=
  Buffer_from_value sig = Returns (Buffer_from (signCacheData host d)).

Lemma verifies_text (d : CachedLicense.Data) (s : string) :
  verifies d s <-> s = signCacheData host d.
Proof.
  unfold verifies. simpl. split.
  - intros [= H]. now apply Buffer_from_inj.
  - now intros ->.
Qed.

Definition removed (w : World) : World :=
  {| config_dir := config_dir w; license_file := None |}.

Definition envelope (d : CachedLicense.Data) (sig : string) : file_content :=
  Json {| CachedLicense.data := Some d;
          CachedLicense.signature := Some (CachedLicense.SignatureText sig) |}.

(** Run the monadic code on a world whose cache file is known. *)
Ltac run_with Hf :=
  unfold loadCachedLicense, try_catch, bind, ret, throw,
    existsSync_cache, read_and_parse_cache, unlinkSync_cache;
  repeat first [rewrite Hf | progress cbv beta iota zeta].

(** What loading does with a cache file that parses to an object. *)
Lemma load_json (w : World) (raw : CachedLicense.t) :
  license_file w = Some (Json raw) ->
  loadCachedLicense host w =
  match CachedLicense.data raw, CachedLicense.signature raw with
  | Some d, Some sig =>
      if signature_truthy sig then
        match Buffer_from_value sig with
        | Returns bytes =>
            if bytes_eqb bytes (Buffer_from (signCacheData host d))
            then (Returns (Some d), w)
            else (Returns None, removed w)
        | Throws _ => (Returns None, w)
        end
      else (Returns None, removed w)
  | _, _ => (Returns None, removed w)
  end.
Proof.
  intros Hf. run_with Hf.
  destruct (CachedLicense.data raw) as [d |];
    [destruct (CachedLicense.signature raw) as [sig |] |];
    try (run_with Hf; reflexivity).
  destruct (signature_truthy sig); [| run_with Hf; reflexivity].
  destruct (Buffer_from_value sig) as [bytes | msg] eqn:Eb.
  - rewrite (verifyCacheSignature_bytes d sig bytes Eb).
    destruct (bytes_eqb bytes (Buffer_from (signCacheData host d)));
      run_with Hf; reflexivity.
  - rewrite (verifyCacheSignature_throws d sig msg Eb). reflexivity.
Qed.

Lemma load_text (w : World) (d : CachedLicense.Data) (sig : string) :
  license_file w = Some (envelope d sig) ->
  loadCachedLicense host w =
  if String.eqb sig (signCacheData host d) && negb (String.eqb sig EmptyString)
  then (Returns (Some d), w) else (Returns None, removed w).
Proof.
  intros Hf. rewrite (load_json w _ Hf).
  cbn [CachedLicense.data CachedLicense.signature].
  destruct sig as [| c sig]; [now rewrite andb_false_r |].
  cbn [signature_truthy Buffer_from_value].
  replace (negb (String.eqb (String c sig) EmptyString)) with true by reflexivity.
  rewrite andb_true_r.
  destruct (String.eqb_spec (String c sig) (signCacheData host d)) as [<- | Hne].
  - now rewrite (proj2 (bytes_eqb_eq _ _) eq_refl).
  - destruct (bytes_eqb _ _) eqn:Eb; [| reflexivity].
    apply bytes_eqb_eq, Buffer_from_inj in Eb. contradiction.
Qed.

Lemma load_accepts (w : World) (d : CachedLicense.Data) :
  signCacheData host d <> EmptyString ->
  license_file w = Some (envelope d (signCacheData host d)) ->
  loadCachedLicense host w = (Returns (Some d), w).
Proof.
  intros Hne Hf. rewrite (load_text w d _ Hf), String.eqb_refl.
  apply String.eqb_neq in Hne. now rewrite Hne.
Qed.

Lemma load_rejects (w : World) (d : CachedLicense.Data) (sig : string) :
  sig <> signCacheData host d ->
  license_file w = Some (envelope d sig) ->
  loadCachedLicense host w = (Returns None, removed w).
Proof.
  intros Hne Hf. rewrite (load_text w d sig Hf).
  apply String.eqb_neq in Hne. now rewrite Hne.
Qed.

Lemma load_keeps_unparseable (w : World) :
  license_file w = Some Unparseable ->
  loadCachedLicense host w = (Returns None, w).
Proof. intros Hf. run_with Hf. reflexivity. Qed.

Lemma load_keeps_null (w : World) :
  license_file w = Some JsonNull ->
  loadCachedLicense host w = (Returns None, w).
Proof. intros Hf. run_with Hf. reflexivity. Qed.

Lemma load_absent (w : World) :
  license_file w = None -> loadCachedLicense host w = (Returns None, w).
Proof. intros Hf. run_with Hf. reflexivity. Qed.

(** Data is trusted only when the stored signature gives the bytes of its
    HMAC; the file is then left as it is. *)
Lemma load_trusts_only_verified (w w' : World) (d : CachedLicense.Data) :
  loadCachedLicense host w = (Returns (Some d), w') ->
  w' = w
  /\ exists sig,
       license_file w
       = Some (Json {| CachedLicense.data := Some d;
                       CachedLicense.signature := Some sig |})
       /\ verifies d sig.
Proof.
  destruct (license_file w) as [[| | raw] |] eqn:Hf.
  - rewrite load_keeps_unparseable by assumption. discriminate.
  - rewrite load_keeps_null by assumption. discriminate.
  - rewrite (load_json w raw Hf). destruct raw as [[d0 |] [sig |]];
      cbn [CachedLicense.data CachedLicense.signature]; try discriminate.
    destruct (signature_truthy sig); [| discriminate].
    destruct (Buffer_from_value sig) as [bytes | msg] eqn:Eb; [| discriminate].
    destruct (bytes_eqb bytes (Buffer_from (signCacheData host d0))) eqn:Ee;
      [| discriminate].
    intros [= <- <-]. split; [reflexivity |].
    exists sig. split; [reflexivity |].
    unfold verifies. apply bytes_eqb_eq in Ee. now rewrite Eb, Ee.
  - rewrite load_absent by assumption. discriminate.
Qed.

(** When the stored signature is a string, it is the HMAC itself. *)
Lemma load_trusts_only_signed (w w' : World) (d : CachedLicense.Data) (sig : string) :
  license_file w = Some (envelope d sig) ->
  loadCachedLicense host w = (Returns (Some d), w') ->
  sig = signCacheData host d /\ w' = w.
Proof.
  intros Hf Hl. destruct (load_trusts_only_verified w w' d Hl) as [-> [sig' [Hf' Hv]]].
  split; [| reflexivity].
  rewrite Hf in Hf'. injection Hf' as <-. now apply verifies_text.
Qed.

(** Loading never throws. *)
Lemma load_returns (w : World) :
  exists r w', loadCachedLicense host w = (Returns r, w').
Proof.
  destruct (license_file w) as [[| | raw] |] eqn:Hf.
  - rewrite load_keeps_unparseable by assumption. eauto.
  - rewrite load_keeps_null by assumption. eauto.
  - rewrite (load_json w raw Hf).
    destruct (CachedLicense.data raw) as [d |];
      [destruct (CachedLicense.signature raw) as [sig |] |]; eauto.
    destruct (signature_truthy sig); eauto.
    destruct (Buffer_from_value sig) as [bytes | msg]; eauto.
    destruct (bytes_eqb _ _); eauto.
  - rewrite load_absent by assumption. eauto.
Qed.

(** The host's digests are those of SHA-256 in hexadecimal: 64 units. *)
Definition hex_digests : Prop :=
  forall key payload,
    String.length (hmac_sha256_hex host key payload) = 64%nat.

Lemma signature_nonempty (d : CachedLicense.Data) :
  hex_digests -> signCacheData host d <> EmptyString.
Proof.
  intros H E. unfold signCacheData in E.
  specialize (H (getCacheSecret host) (JSON_stringify host d)).
  rewrite E in H. discriminate.
Qed.

End WithHost.

(** C2, as the code has it. If the cache file parses to an envelope whose
    signature is the HMAC of its data under this machine's secret, loading
    returns the data and leaves the file. If it parses to an envelope whose
    signature is a string that differs from the HMAC of its data (the
    signature was changed, or the data was changed and its HMAC no longer
    agrees with the signature made for the original), or to an object
    whose data or signature is missing or falsy, loading returns absent
    and removes the file. If the file does not parse, or holds the text
    null, or holds a signature that is no string and that [Buffer.from]
    rejects, loading returns absent and the file is kept. Data is returned
    only when the stored signature gives the bytes of the HMAC of the
    data. The comparison tests the buffer lengths first and hands only
    buffers of equal length to [timingSafeEqual]. *)
Theorem loadCachedLicense_integrity (host : Host) (w : World) :
  hex_digests host ->
  (forall d,
      license_file w = Some (envelope d (signCacheData host d)) ->
      loadCachedLicense host w = (Returns (Some d), w))
  /\ (forall d stored,
        license_file w = Some (envelope d stored) ->
        stored <> signCacheData host d ->
        loadCachedLicense host w = (Returns None, removed w)
        /\ license_file (removed w) = None)
  /\ (forall d original,
        license_file w = Some (envelope d (signCacheData host original)) ->
        signCacheData host d <> signCacheData host original ->
        loadCachedLicense host w = (Returns None, removed w))
  /\ (forall raw,
        license_file w = Some (Json raw) ->
        CachedLicense.data raw = None \/ CachedLicense.signature raw = None ->
        loadCachedLicense host w = (Returns None, removed w))
  /\ (license_file w = Some Unparseable \/ license_file w = Some JsonNull ->
      loadCachedLicense host w = (Returns None, w))
  /\ (forall d sig,
        license_file w
        = Some (Json {| CachedLicense.data := Some d;
                        CachedLicense.signature := Some sig |}) ->
        (forall s, sig <> CachedLicense.SignatureText s) ->
        match Buffer_from_value sig with
        | Throws _ => loadCachedLicense host w = (Returns None, w)
        | Returns bytes =>
            (bytes = Buffer_from (signCacheData host d)
             /\ loadCachedLicense host w = (Returns (Some d), w))
            \/ (bytes <> Buffer_from (signCacheData host d)
                /\ loadCachedLicense host w = (Returns None, removed w))
        end)
  /\ (forall d w',
        loadCachedLicense host w = (Returns (Some d), w') ->
        w' = w
        /\ exists sig,
             license_file w
             = Some (Json {| CachedLicense.data := Some d;
                             CachedLicense.signature := Some sig |})
             /\ verifies host d sig
             /\ (forall s, sig = CachedLicense.SignatureText s ->
                           s = signCacheData host d))
  /\ (exists r w', loadCachedLicense host w = (Returns r, w'))
  /\ (forall d stored bytes,
        Buffer_from_value stored = Returns bytes ->
        verifyCacheSignature host d stored
        = (if negb (Nat.eqb (List.length bytes)
                            (List.length (Buffer_from (signCacheData host d))))
           then Returns false
           else timingSafeEqual bytes (Buffer_from (signCacheData host d)))
        /\ verifyCacheSignature host d stored
           = Returns (bytes_eqb bytes (Buffer_from (signCacheData host d)))
        /\ (forall s, stored = CachedLicense.SignatureText s ->
              verifyCacheSignature host d stored
              = Returns (String.eqb s (signCacheData host d)))).
Proof.
  intros Hhex.
  split; [| split; [| split; [| split; [| split; [| split; [| split; [| split]]]]]]].
  - intros d Hf. apply load_accepts; [now apply signature_nonempty | exact Hf].
  - intros d stored Hf Hne.
    split; [now apply load_rejects with (d := d) (sig := stored) | reflexivity].
  - intros d original Hf Hne.
    apply load_rejects with (d := d) (sig := signCacheData host original);
      [congruence | exact Hf].
  - intros raw Hf Hmiss. rewrite (load_json host w raw Hf).
    destruct Hmiss as [-> | ->]; [reflexivity |].
    destruct (CachedLicense.data raw); reflexivity.
  - intros [Hf | Hf];
      [now apply load_keeps_unparseable | now apply load_keeps_null].
  - intros d sig Hf Hodd. rewrite (load_json host w _ Hf).
    cbn [CachedLicense.data CachedLicense.signature].
    destruct sig as [s | | | bytes |]; cbn [signature_truthy Buffer_from_value];
      try reflexivity; [now elim (Hodd s) |].
    destruct (bytes_eqb bytes (Buffer_from (signCacheData host d))) eqn:Eb.
    + left. split; [now apply bytes_eqb_eq | reflexivity].
    + right. split; [| reflexivity].
      intros E. apply bytes_eqb_eq in E. congruence.
  - intros d w' Hl.
    destruct (load_trusts_only_verified host w w' d Hl) as [-> [sig [Hf Hv]]].
    split; [reflexivity |]. exists sig. split; [exact Hf |].
    split; [exact Hv |]. intros s ->. now apply verifies_text in Hv.
  - apply load_returns.
  - intros d stored bytes Hb. split; [| split].
    + unfold verifyCacheSignature. now rewrite Hb.
    + now apply verifyCacheSignature_bytes.
    + intros s ->. apply verifyCacheSignature_spec.
Qed.

(** *** A stand-in host for the examples (its digest is not SHA-256) *)

Fixpoint checksum (acc : N) (s : string) : N :=
  match s with
  | EmptyString => acc
  | String c t => checksum ((acc * 31 + N_of_ascii c) mod 65536) t
  end.

Definition hex_digit (n : N) : ascii :=
  if (n <? 10)%N then ascii_of_N (48 + n) else ascii_of_N (87 + n).

Definition toy_digest (key payload : string) : string :=
  let n := checksum 7 (key ++ ":" ++ payload)%string in
  ("000000000000000000000000000000000000000000000000000000000000"
    ++ String (hex_digit (n / 4096))
         (String (hex_digit ((n / 256) mod 16))
            (String (hex_digit ((n / 16) mod 16))
               (String (hex_digit (n mod 16)) EmptyString))))%string.

Definition show_tier (t : tier_value) : string :=
  match t with TierText s => s | TierOther key => "?" ++ key end.

Definition show_option (o : option string) : string :=
  match o with Some s => s | None => "-" end.

Definition toy_stringify (d : CachedLicense.Data) : string :=
  ("{" ++ show_tier (CachedLicense.tier d)
       ++ "," ++ show_option (CachedLicense.licenseKey d)
       ++ "," ++ show_option (CachedLicense.expiresAt d)
       ++ "," ++ match CachedLicense.lastValidated d with
                 | Some t => String (ascii_of_N (Z.to_N (t mod 256))) EmptyString
                 | None => "-"
                 end ++ "}")%string.

Definition toy_host : Host :=
  {| machineId := "test-host";
     hmac_sha256_hex := toy_digest;
     JSON_stringify := toy_stringify |}.

Lemma toy_host_hex_digests : hex_digests toy_host.
Proof. intros key payload. reflexivity. Qed.

Definition paid : CachedLicense.Data :=
  {| CachedLicense.tier := advanced;
     CachedLicense.licenseKey := Some "lk_0123456789";
     CachedLicense.expiresAt := None;
     CachedLicense.lastValidated := Some 1736850000000 |}.

Definition world_with (c : file_content) : World :=
  {| config_dir := true; license_file := Some c |}.

(** A valid envelope loads; the same data under another signature is
    rejected and removed. *)
Lemma loadCachedLicense_integrity_witness :
  loadCachedLicense toy_host
    (world_with (envelope paid (signCacheData toy_host paid)))
  = (Returns (Some paid),
     world_with (envelope paid (signCacheData toy_host paid)))
  /\ loadCachedLicense toy_host
       (world_with (envelope paid (toy_digest "forged" "forged")))
     = (Returns None, {| config_dir := true; license_file := None |}).
Proof.
  split.
  - exact (proj1 (loadCachedLicense_integrity toy_host
                    (world_with (envelope paid (signCacheData toy_host paid)))
                    toy_host_hex_digests) paid eq_refl).
  - refine (proj1 (proj1 (proj2 (loadCachedLicense_integrity toy_host
                    (world_with (envelope paid (toy_digest "forged" "forged")))
                    toy_host_hex_digests))
                  paid (toy_digest "forged" "forged") eq_refl _)).
    vm_compute. discriminate.
Defined.

(** C2, as stated, fails for a change of the stored bytes that leaves text
    [JSON.parse] rejects. One flipped bit does: the lowest bit of an opening
    brace (unit 123) gives the letter z, the lowest bit of a quote (unit 34)
    gives a hash sign, and bit 5 of a decimal digit in the signature gives a
    control character. Loading then returns absent, but the [catch] swallows
    the error before any [unlinkSync], and the file is still there. *)
Lemma unparseable_cache_is_kept :
  loadCachedLicense toy_host (world_with (envelope paid (signCacheData toy_host paid)))
  = (Returns (Some paid), world_with (envelope paid (signCacheData toy_host paid)))
  /\ Unparseable <> envelope paid (signCacheData toy_host paid)
  /\ loadCachedLicense toy_host (world_with Unparseable)
     = (Returns None, world_with Unparseable)
  /\ license_file (world_with Unparseable) <> None
  /\ loadCachedLicense toy_host (world_with Unparseable)
     <> (Returns None, removed (world_with Unparseable)).
Proof.
  split; [| split; [| split; [| split]]].
  - apply load_accepts; [vm_compute; discriminate | reflexivity].
  - discriminate.
  - now apply load_keeps_unparseable.
  - discriminate.
  - rewrite load_keeps_unparseable by reflexivity. discriminate.
Qed.

End CacheFacts.

(** ** Entitlement resolution *)

Module EntitlementFacts.
Import JS Types License CacheFacts.
Local Open Scope list_scope.

Section WithHost.
Variable host : Host.

Ltac step :=
  unfold try_catch, bind, ret, throw;
  repeat progress cbv beta iota zeta.

(** Saving never throws. *)
Lemma save_returns (data : CachedLicense.Data) (w : World) :
  exists w', saveLicenseCache host data w = (Returns tt, w').
Proof.
  unfold saveLicenseCache, existsSync_dir, mkdirSync_dir, writeFileSync_cache.
  step. destruct (config_dir w) eqn:Ed; step; cbn [config_dir];
    try rewrite Ed; eauto.
Qed.

(** A validation that returns none leaves the world as it was. *)
Lemma validation_none_keeps_world
      (remote : string -> response) (received : Z) (key : string) (w w' : World) :
  validateWithLemonSqueezy host remote received key w = (Returns None, w') ->
  w' = w.
Proof.
  unfold validateWithLemonSqueezy.
  destruct (remote key) as [| | | | [|] name expires |]; step;
    try (intros [= <-]; reflexivity); try discriminate.
  match goal with
  | |- context [saveLicenseCache host ?d w] =>
      destruct (save_returns d w) as [w1 ->]
  end.
  discriminate.
Qed.

(** Resolution on a world whose cache file holds a valid envelope. *)
Lemma check_valid_envelope
      (remote : string -> response) (now received : Z)
      (w : World) (d : CachedLicense.Data) :
  hex_digests host ->
  license_file w = Some (envelope d (signCacheData host d)) ->
  checkLicense_try host remote now received w =
  match CachedLicense.licenseKey d with
  | Some (String _ _ as key) =>
      if now - lastCheck d <? CACHE_TTL_MS then
        (Returns {| LicenseInfo.tier := CachedLicense.tier d;
                    LicenseInfo.valid := true;
                    LicenseInfo.licenseKey := Some key;
                    LicenseInfo.expiresAt := CachedLicense.expiresAt d |}, w)
      else
        match validateWithLemonSqueezy host remote received key w with
        | (Returns (Some info), w') => (Returns (ValidatedInfo.info info), w')
        | (Returns None, w') =>
            (Returns free_license,
             match license_file w' with Some _ => removed w' | None => w' end)
        | (Throws msg, w') => (Throws msg, w')
        end
  | _ => (Returns free_license, w)
  end.
Proof.
  intros Hhex Hf. unfold checkLicense_try. step.
  rewrite (load_accepts host w d (signature_nonempty host d Hhex) Hf).
  destruct (CachedLicense.licenseKey d) as [[| c key] |]; try reflexivity.
  destruct (now - lastCheck d <? CACHE_TTL_MS); [reflexivity |].
  destruct (validateWithLemonSqueezy host remote received (String c key) w)
    as [[[info |] | msg] w']; try reflexivity.
  unfold unlinkSync_cache. destruct (license_file w'); reflexivity.
Qed.

End WithHost.

(** C3. When the cached record is present (its envelope verifies and it
    carries a license key) but stale, that is [now - lastValidated] has
    reached the TTL of one hour, and the remote re-validation returns
    none, resolution answers the free tier and the cache file is gone
    afterwards. Whatever the world, an error thrown anywhere in the
    resolution block is answered with the free tier, and resolution itself
    never throws. *)
Theorem stale_cache_failed_validation
        (host : Host) (remote : string -> response) (now received : Z)
        (w : World) (d : CachedLicense.Data) (key : string) :
  hex_digests host ->
  license_file w = Some (envelope d (signCacheData host d)) ->
  CachedLicense.licenseKey d = Some key -> key <> EmptyString ->
  CACHE_TTL_MS <= now - lastCheck d ->
  fst (validateWithLemonSqueezy host remote received key w) = Returns None ->
  CACHE_TTL_MS = 3600000
  /\ checkLicense host remote now received w = (Returns free_license, removed w)
  /\ LicenseInfo.tier free_license = free
  /\ license_file (removed w) = None
  /\ (forall w0 msg w1,
        checkLicense_try host remote now received w0 = (Throws msg, w1) ->
        checkLicense host remote now received w0 = (Returns free_license, w1))
  /\ (forall w0, exists info w1,
        checkLicense host remote now received w0 = (Returns info, w1)).
Proof.
  intros Hhex Hf Hkey Hne Hstale Hnone.
  split; [reflexivity |]. split; [| split; [reflexivity | split; [reflexivity |]]].
  - unfold checkLicense, try_catch.
    rewrite (check_valid_envelope host remote now received w d Hhex Hf), Hkey.
    destruct key as [| c key]; [now elim Hne |].
    apply Z.ltb_ge in Hstale. rewrite Hstale.
    destruct (validateWithLemonSqueezy host remote received (String c key) w)
      as [r w'] eqn:Ev.
    simpl in Hnone. subst r.
    apply validation_none_keeps_world in Ev as ->.
    now rewrite Hf.
  - split.
    + intros w0 msg w1 Ht. unfold checkLicense, try_catch. now rewrite Ht.
    + intros w0. unfold checkLicense, try_catch, ret.
      destruct (checkLicense_try host remote now received w0) as [[info | msg] w1];
        eauto.
Qed.

Definition unreachable : string -> response := fun _ => NetworkError.

Lemma stale_cache_failed_validation_witness :
  checkLicense toy_host unreachable (1736850000000 + 3600000) 0
    (world_with (envelope paid (signCacheData toy_host paid)))
  = (Returns (free_license), {| config_dir := true; license_file := None |}).
Proof.
  refine (proj1 (proj2
    (stale_cache_failed_validation toy_host unreachable
       (1736850000000 + 3600000) 0
       (world_with (envelope paid (signCacheData toy_host paid)))
       paid "lk_0123456789" toy_host_hex_digests eq_refl eq_refl _ _ eq_refl))).
  - discriminate.
  - vm_compute. discriminate.
Defined.

(** C9. A cached record without a license key, or with an empty one, is
    ignored: although its envelope verifies, whatever its tier and however
    fresh it is, resolution answers the free tier, asks nothing of the
    remote validator and leaves the cache file alone. *)
Theorem keyless_cache_is_ignored
        (host : Host) (remote : string -> response) (now received : Z)
        (w : World) (d : CachedLicense.Data) :
  hex_digests host ->
  license_file w = Some (envelope d (signCacheData host d)) ->
  CachedLicense.licenseKey d = None
  \/ CachedLicense.licenseKey d = Some EmptyString ->
  checkLicense host remote now received w = (Returns free_license, w)
  /\ LicenseInfo.tier free_license = free.
Proof.
  intros Hhex Hf Hk. split; [| reflexivity].
  unfold checkLicense, try_catch.
  rewrite (check_valid_envelope host remote now received w d Hhex Hf).
  destruct Hk as [-> | ->]; reflexivity.
Qed.

Definition keyless : CachedLicense.Data :=
  {| CachedLicense.tier := advanced;
     CachedLicense.licenseKey := Some EmptyString;
     CachedLicense.expiresAt := None;
     CachedLicense.lastValidated := Some 1736850000000 |}.

(** An advanced record validated one second ago, with an empty key. *)
Lemma keyless_cache_is_ignored_witness :
  checkLicense toy_host (fun _ => Body true (Some "Advanced Monthly") None)
    (1736850000000 + 1000) 0
    (world_with (envelope keyless (signCacheData toy_host keyless)))
  = (Returns free_license,
     world_with (envelope keyless (signCacheData toy_host keyless))).
Proof.
  exact (proj1
    (keyless_cache_is_ignored toy_host
       (fun _ => Body true (Some "Advanced Monthly") None)
       (1736850000000 + 1000) 0
       (world_with (envelope keyless (signCacheData toy_host keyless)))
       keyless toy_host_hex_digests eq_refl (or_intror eq_refl))).
Defined.

(** A validation call that throws is answered with the free tier. *)
Example thrown_error_yields_free :
  fst (checkLicense toy_host (fun _ => Fault) (1736850000000 + 3600000) 0
         (world_with (envelope paid (signCacheData toy_host paid))))
  = Returns free_license.
Proof. reflexivity. Qed.

(** The same record with a key is honoured while fresh. *)
Example fresh_keyed_cache_is_honoured :
  fst (checkLicense toy_host unreachable (1736850000000 + 1000) 0
         (world_with (envelope paid (signCacheData toy_host paid))))
  = Returns {| LicenseInfo.tier := advanced; LicenseInfo.valid := true;
               LicenseInfo.licenseKey := Some "lk_0123456789";
               LicenseInfo.expiresAt := None |}.
Proof. reflexivity. Qed.

End EntitlementFacts.

(** ** Polling for an element *)

Module WaitFacts.
Import JS Utils Index.
Local Open Scope list_scope.

Local Notation Zq := QArith_base.inject_Z.
Local Notation Qle := QArith_base.Qle.
Local Notation Qlt := QArith_base.Qlt.
Local Notation Qeq := QArith_base.Qeq.

(** The clock never runs backwards during a dump, and a sleep lasts at
    least as long as asked. *)
Definition well_timed (dev : Device) : Prop :=
  forall k, 0 <= exec_time dev k /\ forall ms, ms <= sleep_time dev k ms.

(** The search parameters pass the length validation. *)
Definition params_ok (args : wait_args) : Prop :=
  too_long (arg_text args) = false
  /\ too_long (arg_resourceId args) = false
  /\ too_long (arg_contentDescription args) = false.

(** The target is in no dump the device ever produces. *)
Definition never_appears (dev : Device) (args : wait_args) : Prop :=
  forall k, poll_once args (exec_dump dev k) = None.

(** [n] rounds of polling: a dump, then a sleep of the poll interval. *)
Fixpoint rounds (n : nat) : list event :=
  match n with
  | O => []
  | S m => DumpRequested :: Slept pollInterval :: rounds m
  end.

(** *** The clamp *)

Lemma Qle_bool_false (x y : QArith_base.Q) :
  QArith_base.Qle_bool x y = false -> Qlt y x.
Proof.
  intros H. apply QArith_base.Qnot_le_lt. intros Hle.
  apply QArith_base.Qle_bool_iff in Hle. congruence.
Qed.

Lemma lt_integer (z : Z) (q : QArith_base.Q) :
  Args.lt (Args.integer z) (Args.Finite q) = true <-> Qlt (Zq z) q.
Proof.
  unfold Args.lt, Args.integer. rewrite negb_true_iff. split.
  - apply Qle_bool_false.
  - intros H. destruct (QArith_base.Qle_bool q (Zq z)) eqn:E; [| reflexivity].
    apply QArith_base.Qle_bool_iff in E.
    exfalso. exact (QArith_base.Qlt_not_le _ _ H E).
Qed.

Lemma lt_integer_false (z : Z) (q : QArith_base.Q) :
  Args.lt (Args.integer z) (Args.Finite q) = false <-> Qle q (Zq z).
Proof.
  unfold Args.lt, Args.integer. rewrite negb_false_iff.
  apply QArith_base.Qle_bool_iff.
Qed.

(** The clamp of a finite request. *)
Lemma clamp_finite (r : QArith_base.Q) :
  exists q,
    Args.Math_max (Args.integer 1000)
                  (Args.Math_min (Args.Finite r) (Args.integer MAX_TIMEOUT))
    = Args.Finite q
    /\ Qle (Zq 1000) q /\ Qle q (Zq 60000)
    /\ (Qle (Zq 1000) r -> Qle r (Zq 60000) -> Qeq q r)
    /\ (Qlt r (Zq 1000) -> q = Zq 1000)
    /\ (Qlt (Zq 60000) r -> q = Zq 60000).
Proof.
  unfold Args.Math_max, Args.Math_min, Args.integer, Args.lt, MAX_TIMEOUT.
  destruct (QArith_base.Qle_bool r (Zq 60000)) eqn:Ehi; cbn [negb].
  - apply QArith_base.Qle_bool_iff in Ehi.
    destruct (QArith_base.Qle_bool r (Zq 1000)) eqn:Elo; cbn [negb].
    + apply QArith_base.Qle_bool_iff in Elo.
      exists (Zq 1000). split; [reflexivity |].
      split; [apply QArith_base.Qle_refl |].
      split; [rewrite <- QArith_base.Zle_Qle; lia |].
      split; [| split].
      * intros Hge _. now apply QArith_base.Qle_antisym.
      * reflexivity.
      * intros Hgt. exfalso. exact (QArith_base.Qlt_not_le _ _ Hgt Ehi).
    + apply Qle_bool_false in Elo.
      exists r. split; [reflexivity |].
      split; [now apply QArith_base.Qlt_le_weak |].
      split; [exact Ehi |].
      split; [| split].
      * intros _ _. apply QArith_base.Qeq_refl.
      * intros Hlt. exfalso.
        exact (QArith_base.Qlt_irrefl _ (QArith_base.Qlt_trans _ _ _ Hlt Elo)).
      * intros Hgt. exfalso. exact (QArith_base.Qlt_not_le _ _ Hgt Ehi).
  - apply Qle_bool_false in Ehi.
    exists (Zq 60000). split; [reflexivity |].
    split; [rewrite <- QArith_base.Zle_Qle; lia |].
    split; [apply QArith_base.Qle_refl |].
    split; [| split].
    + intros _ Hle. exfalso. exact (QArith_base.Qlt_not_le _ _ Ehi Hle).
    + intros Hlt. exfalso.
      assert (H : Qlt (Zq 60000) (Zq 1000))
        by exact (QArith_base.Qlt_trans _ _ _ Ehi Hlt).
      rewrite <- QArith_base.Zlt_Qlt in H. lia.
    + reflexivity.
Qed.

(** Every timeout argument but one without a numeric reading is clamped
    into the range. *)
Lemma effective_timeout_range (t : Args.number_arg) :
  requestedTimeout t <> Args.NaN ->
  exists q, effective_timeout t = Args.Finite q
            /\ Qle (Zq 1000) q /\ Qle q (Zq 60000).
Proof.
  intros Hn. unfold effective_timeout.
  destruct (requestedTimeout t) as [| | r |] eqn:Er.
  - now elim Hn.
  - exists (Zq 1000). split; [reflexivity |].
    split; [apply QArith_base.Qle_refl | rewrite <- QArith_base.Zle_Qle; lia].
  - destruct (clamp_finite r) as [q [Hq [Hlo [Hhi _]]]]. now exists q.
  - exists (Zq 60000). split; [reflexivity |].
    split; [rewrite <- QArith_base.Zle_Qle; lia | apply QArith_base.Qle_refl].
Qed.

(** *** The loop *)

(** How a run of the loop that starts at its [k]-th test under the
    deadline [q] ends after [n] fruitless rounds: on a match right after
    the next dump, or on the deadline. *)
Definition polled (dev : Device) (args : wait_args) (startTime : Z)
           (q : QArith_base.Q) (before : list event) (k n : nat)
           (r : wait_result) (st : State) : Prop :=
  match r with
  | Found wt txt c =>
      exists found,
        trace st = before ++ rounds n ++ [DumpRequested]
        /\ poll_once args (exec_dump dev (k + n)) = Some found
        /\ txt = text found /\ c = (centerX found, centerY found)
        /\ wt = clock st - startTime
        /\ pollInterval * Z.of_nat (k + n) <= wt - exec_time dev (k + n)
        /\ Qlt (Zq (wt - exec_time dev (k + n))) q
  | TimedOut t =>
      t = Args.Finite q /\ trace st = before ++ rounds n
      /\ Qle q (Zq (clock st - startTime))
      /\ (n <> O -> pollInterval * (Z.of_nat (k + n) - 1) < 60000)
  | ParamsTooLong => False
  end.

Section Loop.
Variables (dev : Device) (args : wait_args) (startTime : Z).
Variable q : QArith_base.Q.
Hypothesis timed : well_timed dev.
Hypothesis within : Qle q (Zq 60000).

Lemma test_passed (z : Z) :
  Args.lt (Args.integer z) (Args.Finite q) = true -> z < 60000.
Proof.
  intros H. apply lt_integer in H.
  rewrite QArith_base.Zlt_Qlt.
  exact (QArith_base.Qlt_le_trans _ _ _ H within).
Qed.

(** With enough fuel the loop ends, and this is how. *)
Lemma wait_loop_runs (fuel : nat) :
  forall (k : nat) (st : State),
    Z.of_nat k + Z.of_nat fuel = 122 ->
    Z.of_nat k <= 120 ->
    startTime + pollInterval * Z.of_nat k <= clock st ->
    exists r st' n,
      wait_loop dev args startTime (Args.Finite q) fuel k st = Some (r, st')
      /\ polled dev args startTime q (trace st) k n r st'
      /\ (forall j, (k <= j < k + n)%nat ->
                    poll_once args (exec_dump dev j) = None)
      /\ (n = O -> forall t, r = TimedOut t -> st' = st).
Proof.
  induction fuel as [| fuel IH]; intros k st Hsum Hk Hclock; [lia |].
  cbn [wait_loop].
  destruct (Args.lt (Args.integer (clock st - startTime)) (Args.Finite q)) eqn:Et.
  - pose proof (test_passed _ Et) as Hlt.
    destruct (poll_once args (exec_dump dev k)) as [found |] eqn:Ep.
    + eexists _, _, O. split; [reflexivity |]. split; [| split].
      * cbn [polled]. exists found. rewrite Nat.add_0_r.
        cbn [trace clock rounds app].
        split; [reflexivity |]. split; [exact Ep |].
        split; [reflexivity |]. split; [reflexivity |].
        split; [reflexivity |]. split; [lia |].
        apply lt_integer in Et.
        replace (clock st + exec_time dev k - startTime - exec_time dev k)
          with (clock st - startTime) by lia.
        exact Et.
      * intros j Hj. lia.
      * intros _ t Ht. discriminate Ht.
    + destruct (timed k) as [Hexec Hsleep]. specialize (Hsleep pollInterval).
      edestruct (IH (S k)
         {| clock := clock st + exec_time dev k + sleep_time dev k pollInterval;
            trace := (trace st ++ [DumpRequested]) ++ [Slept pollInterval] |})
        as [r [st' [n [Hrun [Hpolled [Hquiet _]]]]]];
        [lia | unfold pollInterval in *; lia
         | cbn [clock]; unfold pollInterval in *; lia |].
      cbn [clock trace]. rewrite Hrun.
      exists r, st', (S n). split; [reflexivity |]. split; [| split].
      * cbn [trace] in Hpolled.
        destruct r as [| wt txt c | t]; cbn [polled] in *.
        -- exact Hpolled.
        -- destruct Hpolled as [el [Htr [Hel [Ht [Hc [Hw [Hb Hd]]]]]]].
           exists el. rewrite Nat.add_succ_r.
           split; [rewrite Htr, <- !app_assoc; reflexivity |].
           repeat split; assumption.
        -- destruct Hpolled as [-> [Htr [Hle Hb]]].
           split; [reflexivity |].
           split; [rewrite Htr, <- !app_assoc; reflexivity |].
           split; [exact Hle |].
           intros _. destruct n as [| n].
           ++ rewrite Nat.add_succ_r, Nat.add_0_r.
              unfold pollInterval in *. lia.
           ++ rewrite Nat.add_succ_r.
              assert (Hn : S n <> O) by discriminate.
              exact (Hb Hn).
      * intros j Hj.
        destruct (Nat.eq_dec j k) as [-> | Hne]; [exact Ep |].
        apply Hquiet. lia.
      * intros H. discriminate H.
  - apply lt_integer_false in Et. eexists _, _, O.
    split; [reflexivity |]. split; [| split].
    + cbn [polled rounds]. rewrite app_nil_r.
      split; [reflexivity |]. split; [reflexivity |].
      split; [exact Et | intros H; now elim H].
    + intros j Hj. lia.
    + reflexivity.
Qed.

End Loop.

(** The run of the handler under a finite timeout. *)
Lemma wait_for_element_runs
      (dev : Device) (args : wait_args) (startTime : Z) (q : QArith_base.Q) :
  well_timed dev -> params_ok args ->
  effective_timeout (arg_timeout args) = Args.Finite q ->
  Qle (Zq 1000) q -> Qle q (Zq 60000) ->
  exists r st n,
    wait_for_element dev args startTime = Some (r, st)
    /\ polled dev args startTime q [] O n r st
    /\ (forall j, (j < n)%nat -> poll_once args (exec_dump dev j) = None)
    /\ (forall t, r = TimedOut t -> (1 <= n)%nat).
Proof.
  intros Htimed [Ht [Hr Hd]] Hq Hlo Hhi.
  unfold wait_for_element. rewrite Ht, Hr, Hd, Hq. cbn [orb].
  destruct (wait_loop_runs dev args startTime q Htimed Hhi
              (S (Z.to_nat (MAX_TIMEOUT / pollInterval + 1))) O
              {| clock := startTime; trace := [] |})
    as [r [st [n [Hrun [Hpolled [Hquiet Hsame]]]]]];
    [reflexivity | lia | cbn [clock]; lia |].
  exists r, st, n. split; [exact Hrun |]. split; [exact Hpolled |].
  split; [intros j Hj; apply Hquiet; lia |].
  intros t ->. destruct n as [| n]; [| lia].
  specialize (Hsame eq_refl t eq_refl). subst st.
  cbn [polled clock] in Hpolled. destruct Hpolled as [_ [_ [Hle _]]].
  exfalso. rewrite Z.sub_diag in Hle.
  assert (H : Qle (Zq 1000) (Zq 0)) by exact (QArith_base.Qle_trans _ _ _ Hlo Hle).
  rewrite <- QArith_base.Zle_Qle in H. lia.
Qed.


(** A device whose screen stays empty, and a request for 999999 ms. *)
Definition blank_device : Device :=
  {| exec_dump := fun _ => Returns EmptyString;
     exec_time := fun _ => 120;
     sleep_time := fun _ ms => ms + 3 |}.

Definition patient_request : wait_args :=
  {| arg_text := Some "Submit"; arg_resourceId := None;
     arg_contentDescription := None;
     arg_timeout := Args.Truthy (Args.integer 999999) |}.

Lemma blank_device_well_timed : well_timed blank_device.
Proof. intros k. split; [simpl; lia | intros ms; simpl; lia]. Defined.


(** The run above, computed: 97 rounds, then the timeout result. *)
Example patient_request_times_out :
  option_map (fun p => (fst p, List.length (trace (snd p))))
    (wait_for_element blank_device patient_request 0)
  = Some (TimedOut (Args.integer 60000), 194%nat).
Proof. vm_compute. reflexivity. Qed.

(** The words of the specification for the clamp: the effective timeout
    lies in the range from 1000 to 60000 ms. *)
Definition clamped_as_stated (t : Args.number_arg) : Prop :=
  exists q, effective_timeout t = Args.Finite q
            /\ Qle (Zq 1000) q /\ Qle q (Zq 60000).

(** A request whose timeout is the string abc. *)
Definition text_timeout_request : wait_args :=
  {| arg_text := Some "Submit"; arg_resourceId := None;
     arg_contentDescription := None;
     arg_timeout := Args.Truthy Args.NaN |}.


End WaitFacts.

(** ** Input validation *)

Module ValidatorFacts.
Import JS JSFacts Validators.
Local Open Scope list_scope.

Lemma every_append (p : ascii -> bool) (a b : string) :
  every p (a ++ b)%string = every p a && every p b.
Proof.
  induction a as [| c a IH]; simpl; [reflexivity |].
  now rewrite IH, andb_assoc.
Qed.

Lemma every_weaken (p q : ascii -> bool) (s : string) :
  (forall c, p c = true -> q c = true) -> every p s = true -> every q s = true.
Proof.
  intros Hpq. induction s as [| c s IH]; simpl; [reflexivity |].
  intros H. apply andb_true_iff in H as [Hc Hs].
  now rewrite (Hpq c Hc), IH.
Qed.

(** *** Package names *)

(** One segment of a package name: a letter, then identifier units. *)
Definition identifier (seg : string) : Prop :=
  match seg with
  | String c t => is_letter c = true /\ every ident_unit t = true
  | EmptyString => False
  end.

(** Each segment behind a dot. *)
Fixpoint dotted (segs : list string) : string :=
  match segs with
  | [] => EmptyString
  | seg :: rest => ("." ++ seg ++ dotted rest)%string
  end.

Lemma concat_dotted (seg : string) (rest : list string) :
  String.concat "." (seg :: rest) = (seg ++ dotted rest)%string.
Proof.
  revert seg. induction rest as [| s rest IH]; intros seg.
  - simpl. now rewrite RegexFacts.append_empty_r.
  - change (String.concat "." (seg :: s :: rest))
      with (seg ++ "." ++ String.concat "." (s :: rest))%string.
    now rewrite IH.
Qed.

Lemma dot_is_no_ident : ident_unit "." = false.
Proof. reflexivity. Qed.

Lemma ident_is_no_dot (c : ascii) : ident_unit c = true -> Ascii.eqb c "." = false.
Proof.
  intros H. destruct (Ascii.eqb_spec c ".") as [-> | _]; [discriminate | reflexivity].
Qed.

Lemma letter_is_ident (c : ascii) : is_letter c = true -> ident_unit c = true.
Proof. intros H. unfold ident_unit, is_alnum. now rewrite H. Qed.

(** What the pattern accepts from inside a segment and from the start of
    one. *)
Definition in_segment (dots : bool) (s : string) : Prop :=
  exists tail segs,
    every ident_unit tail = true /\ Forall identifier segs
    /\ s = (tail ++ dotted segs)%string /\ (dots = true \/ segs <> []).

Definition at_segment_start (dots : bool) (s : string) : Prop :=
  exists seg segs,
    identifier seg /\ Forall identifier segs
    /\ s = (seg ++ dotted segs)%string /\ (dots = true \/ segs <> []).

Lemma package_pattern_spec (s : string) :
  forall dots,
    (package_pattern false dots s = true <-> in_segment dots s)
    /\ (package_pattern true dots s = true <-> at_segment_start dots s).
Proof.
  induction s as [| c t IH]; intros dots.
  - split; simpl.
    + split.
      * intros ->. exists EmptyString, []. repeat split; auto.
      * intros [tail [segs [_ [_ [Hs Hd]]]]].
        destruct tail; [| discriminate]. destruct segs; [| discriminate].
        destruct Hd as [-> | Hd]; [reflexivity | now elim Hd].
    + split; [discriminate |].
      intros [seg [segs [Hid [_ [Hs _]]]]]. destruct seg; [now elim Hid | discriminate].
  - split.
    + cbn [package_pattern]. destruct (ident_unit c) eqn:Ei.
      * rewrite (proj1 (IH dots)). split.
        -- intros [tail [segs [Ht [Hf [-> Hd]]]]].
           exists (String c tail), segs. simpl. rewrite Ei, Ht. auto.
        -- intros [tail [segs [Ht [Hf [Hs Hd]]]]]. destruct tail as [| d tail].
           ++ destruct segs as [| seg segs]; [discriminate |].
              simpl in Hs. injection Hs as -> _. discriminate.
           ++ simpl in Hs, Ht. injection Hs as <- ->.
              apply andb_true_iff in Ht as [_ Ht]. now exists tail, segs.
      * destruct (Ascii.eqb_spec c ".") as [-> | Hne].
        -- rewrite (proj2 (IH true)). split.
           ++ intros [seg [segs [Hid [Hf [-> _]]]]].
              exists EmptyString, (seg :: segs). simpl.
              repeat split; auto. right. discriminate.
           ++ intros [tail [segs [Ht [Hf [Hs Hd]]]]]. destruct tail as [| d tail].
              ** destruct segs as [| seg segs]; [discriminate |].
                 simpl in Hs. injection Hs as ->. inversion Hf; subst.
                 exists seg, segs. auto.
              ** simpl in Hs, Ht. injection Hs as <- _. discriminate.
        -- split; [discriminate |].
           intros [tail [segs [Ht [Hf [Hs Hd]]]]]. destruct tail as [| d tail].
           ++ destruct segs as [| seg segs]; [discriminate |].
              simpl in Hs. injection Hs as -> _. now elim Hne.
           ++ simpl in Hs, Ht. injection Hs as <- _.
              apply andb_true_iff in Ht as [Ht _]. congruence.
    + cbn [package_pattern]. destruct (is_letter c) eqn:El.
      * rewrite (proj1 (IH dots)). split.
        -- intros [tail [segs [Ht [Hf [-> Hd]]]]].
           exists (String c tail), segs. simpl. auto.
        -- intros [seg [segs [Hid [Hf [Hs Hd]]]]]. destruct seg as [| d seg];
             [now elim Hid |].
           simpl in Hs. injection Hs as <- ->. destruct Hid as [_ Hid].
           now exists seg, segs.
      * split; [discriminate |].
        intros [seg [segs [Hid [Hf [Hs Hd]]]]]. destruct seg as [| d seg];
          [now elim Hid |].
        simpl in Hs. injection Hs as <- _. destruct Hid as [Hid _]. congruence.
Qed.

(** X2. A package name is accepted exactly when it has 3 to 255 units and
    is two or more segments joined by single dots, each segment a letter
    followed by letters, digits and underscores (of either case). *)
Theorem validatePackageName_segments (s : string) :
  validatePackageName s = true <->
  3 <= len s <= 255
  /\ exists segs, (2 <= List.length segs)%nat
                  /\ Forall identifier segs
                  /\ s = String.concat "." segs.
Proof.
  unfold validatePackageName. split.
  - destruct (String.eqb s EmptyString || (len s <? 3) || (255 <? len s)) eqn:Eg;
      [discriminate |].
    apply orb_false_iff in Eg as [Eg Eh]. apply orb_false_iff in Eg as [_ El].
    apply Z.ltb_ge in El, Eh. intros Hp. split; [lia |].
    apply (proj2 (package_pattern_spec s false)) in Hp.
    destruct Hp as [seg [segs [Hid [Hf [-> Hd]]]]].
    destruct Hd as [Hd | Hd]; [discriminate |].
    exists (seg :: segs). rewrite concat_dotted.
    repeat split; [| now constructor].
    destruct segs; [now elim Hd | simpl; lia].
  - intros [[Hlo Hhi] [segs [Hn [Hf ->]]]].
    destruct segs as [| seg segs]; [simpl in Hn; lia |].
    destruct segs as [| seg2 segs]; [simpl in Hn; lia |].
    assert (Eg : String.eqb (String.concat "." (seg :: seg2 :: segs)) EmptyString
                 || (len (String.concat "." (seg :: seg2 :: segs)) <? 3)
                 || (255 <? len (String.concat "." (seg :: seg2 :: segs))) = false).
    { apply orb_false_iff. split; [apply orb_false_iff; split |].
      - apply String.eqb_neq. intros E. rewrite E in Hlo. unfold len in Hlo.
        simpl in Hlo. lia.
      - now apply Z.ltb_ge.
      - now apply Z.ltb_ge. }
    rewrite Eg. rewrite concat_dotted.
    apply (proj2 (package_pattern_spec _ false)).
    inversion Hf; subst. exists seg, (seg2 :: segs).
    repeat split; auto. right. discriminate.
Qed.

Lemma validatePackageName_segments_witness :
  validatePackageName "com.example.app" = true
  /\ validatePackageName "com..app" = false
  /\ validatePackageName "Com.Example" = true.
Proof.
  split; [| split; reflexivity].
  apply (proj2 (validatePackageName_segments "com.example.app")).
  split; [vm_compute; split; discriminate |].
  exists ["com"; "example"; "app"].
  split; [simpl; lia |]. split; [| reflexivity].
  repeat constructor.
Defined.

(** *** Simulator identifiers *)

Lemma hex_run_spec (n : nat) (s r : string) :
  hex_run n s = Some r <->
  exists h, s = (h ++ r)%string /\ String.length h = n /\ every is_hex h = true.
Proof.
  revert s. induction n as [| n IH]; intros s; simpl.
  - split.
    + intros [= ->]. now exists EmptyString.
    + intros [h [-> [Hl _]]]. destruct h; [reflexivity | discriminate].
  - destruct s as [| c t].
    + split; [discriminate |]. intros [h [Hs [Hl _]]].
      destruct h; discriminate.
    + destruct (is_hex c) eqn:Ec.
      * rewrite IH. split.
        -- intros [h [-> [Hl Hh]]]. exists (String c h). simpl.
           rewrite Ec, Hh, Hl. auto.
        -- intros [h [Hs [Hl Hh]]]. destruct h as [| d h]; [discriminate |].
           simpl in Hs, Hl, Hh. injection Hs as <- ->. injection Hl as Hl.
           apply andb_true_iff in Hh as [_ Hh]. now exists h.
      * split; [discriminate |]. intros [h [Hs [Hl Hh]]].
        destruct h as [| d h]; [discriminate |].
        simpl in Hs, Hh. injection Hs as <- _.
        apply andb_true_iff in Hh as [Hh _]. congruence.
Qed.

Lemma dash_spec (s r : string) : dash s = Some r <-> s = String "-" r.
Proof.
  destruct s as [| c t]; simpl; [split; discriminate |].
  destruct (Ascii.eqb_spec c "-") as [-> | Hne].
  - split; [intros [= ->]; reflexivity | intros [= ->]; reflexivity].
  - split; [discriminate | intros [= E _]; now elim Hne].
Qed.

(** The five groups of a UUID, joined by dashes. *)
Definition uuid_text (a b c d e : string) : string :=
  (a ++ "-" ++ b ++ "-" ++ c ++ "-" ++ d ++ "-" ++ e)%string.

Definition hex_group (n : nat) (h : string) : Prop :=
  String.length h = n /\ every is_hex h = true.

Lemma uuid_pattern_spec (s : string) :
  uuid_pattern s = true <->
  exists a b c d e,
    hex_group 8 a /\ hex_group 4 b /\ hex_group 4 c /\ hex_group 4 d
    /\ hex_group 12 e /\ s = uuid_text a b c d e.
Proof.
  unfold uuid_pattern, option_bind, uuid_text, hex_group. split.
  - destruct (hex_run 8 s) as [r1 |] eqn:E1; [| discriminate].
    destruct (dash r1) as [r2 |] eqn:E2; [| discriminate].
    destruct (hex_run 4 r2) as [r3 |] eqn:E3; [| discriminate].
    destruct (dash r3) as [r4 |] eqn:E4; [| discriminate].
    destruct (hex_run 4 r4) as [r5 |] eqn:E5; [| discriminate].
    destruct (dash r5) as [r6 |] eqn:E6; [| discriminate].
    destruct (hex_run 4 r6) as [r7 |] eqn:E7; [| discriminate].
    destruct (dash r7) as [r8 |] eqn:E8; [| discriminate].
    destruct (hex_run 12 r8) as [[| x r9] |] eqn:E9; try discriminate.
    intros _.
    apply hex_run_spec in E1 as [a [-> Ha]], E3 as [b [-> Hb]],
      E5 as [c [-> Hc]], E7 as [d [-> Hd]], E9 as [e [-> He]].
    apply dash_spec in E2, E4, E6, E8. subst.
    exists a, b, c, d, e. rewrite RegexFacts.append_empty_r. now repeat split.
  - intros [a [b [c [d [e [Ha [Hb [Hc [Hd [He ->]]]]]]]]]].
    assert (run : forall n h r, hex_group n h -> hex_run n (h ++ r) = Some r).
    { intros n h r [Hl Hh]. apply hex_run_spec. now exists h. }
    unfold hex_group in run.
    rewrite (run 8%nat a _ Ha). cbn [dash append Ascii.eqb Bool.eqb].
    rewrite (run 4%nat b _ Hb). cbn [dash append Ascii.eqb Bool.eqb].
    rewrite (run 4%nat c _ Hc). cbn [dash append Ascii.eqb Bool.eqb].
    rewrite (run 4%nat d _ Hd). cbn [dash append Ascii.eqb Bool.eqb].
    rewrite <- (RegexFacts.append_empty_r e) at 1.
    now rewrite (run 12%nat e _ He).
Qed.

(** X3. A simulator identifier is accepted exactly when it is the word
    booted or a UUID: five groups of 8, 4, 4, 4 and 12 hexadecimal digits
    (of either case) joined by dashes, hence 36 units long. *)
Theorem validateUdid_uuid_or_booted (s : string) :
  (validateUdid s = true <->
   s = "booted" \/
   exists a b c d e,
     hex_group 8 a /\ hex_group 4 b /\ hex_group 4 c /\ hex_group 4 d
     /\ hex_group 12 e /\ s = uuid_text a b c d e)
  /\ (validateUdid s = true -> s <> "booted" -> String.length s = 36%nat).
Proof.
  assert (main : validateUdid s = true <->
            s = "booted" \/ uuid_pattern s = true).
  { unfold validateUdid.
    destruct (String.eqb_spec s EmptyString) as [-> | Hne].
    - split; [discriminate | intros [H | H]; discriminate].
    - destruct (String.eqb_spec s "booted") as [-> | Hnb].
      + split; auto.
      + split; [auto | intros [H | H]; [contradiction | exact H]]. }
  split.
  - rewrite main, uuid_pattern_spec. reflexivity.
  - intros Hv Hnb. apply main in Hv as [Hv | Hv]; [contradiction |].
    apply uuid_pattern_spec in Hv
      as [a [b [c [d [e [[La _] [[Lb _] [[Lc _] [[Ld _] [[Le _] ->]]]]]]]]]].
    unfold uuid_text. rewrite !RegexFacts.length_append. simpl. lia.
Qed.

Lemma validateUdid_uuid_or_booted_witness :
  String.length "A1B2C3D4-0000-4abc-9DEF-0123456789ab" = 36%nat.
Proof.
  apply (proj2 (validateUdid_uuid_or_booted "A1B2C3D4-0000-4abc-9DEF-0123456789ab"));
    [reflexivity | discriminate].
Defined.

(** *** Nothing a shell would interpret *)

(** The units the three identifier validators let through. *)
Definition plain_unit (c : ascii) : bool :=
  is_alnum c || Ascii.eqb c "-" || Ascii.eqb c "." || Ascii.eqb c ":"
  || Ascii.eqb c "_".

(** Blanks and the characters a POSIX shell gives a meaning to. *)
Definition shell_meta : list ascii :=
  [ " "; "009"; "010"; "013"; "!"; "034"; "#"; "$"; "&"; "'"; "("; ")";
    "*"; ";"; "<"; ">"; "?"; "["; "\"; "]"; "^"; "`"; "{"; "|"; "}"; "~" ]%char.

Definition shell_inert (c : ascii) : bool := negb (existsb (Ascii.eqb c) shell_meta).

Lemma plain_is_inert (c : ascii) : plain_unit c = true -> shell_inert c = true.
Proof.
  destruct c as [[] [] [] [] [] [] [] []]; vm_compute; intros H;
    first [reflexivity | discriminate H].
Qed.

Lemma device_is_plain (c : ascii) : device_unit c = true -> plain_unit c = true.
Proof.
  unfold device_unit, plain_unit. intros H. now rewrite H.
Qed.

Lemma ident_or_dot_is_plain (c : ascii) :
  ident_unit c || Ascii.eqb c "." = true -> plain_unit c = true.
Proof.
  unfold ident_unit, plain_unit. intros H.
  destruct (is_alnum c), (Ascii.eqb c "_"), (Ascii.eqb c "."),
    (Ascii.eqb c "-"), (Ascii.eqb c ":"); simpl in *; congruence.
Qed.

Lemma hex_or_dash_is_plain (c : ascii) :
  is_hex c || Ascii.eqb c "-" = true -> plain_unit c = true.
Proof.
  destruct c as [[] [] [] [] [] [] [] []]; vm_compute; intros H;
    first [reflexivity | discriminate H].
Qed.

Lemma package_pattern_units (s : string) :
  forall a d, package_pattern a d s = true ->
              every (fun c => ident_unit c || Ascii.eqb c ".") s = true.
Proof.
  induction s as [| c t IH]; intros a d; simpl; [reflexivity |].
  destruct a.
  - destruct (is_letter c) eqn:El; [| discriminate].
    intros H. rewrite (letter_is_ident c El). simpl. now apply IH in H.
  - destruct (ident_unit c); simpl.
    + intros H. now apply IH in H.
    + destruct (Ascii.eqb c "."); [| discriminate].
      intros H. now apply IH in H.
Qed.

Lemma class_plus_every (p : ascii -> bool) (s : string) :
  class_plus p s = true -> s <> EmptyString /\ every p s = true.
Proof. destruct s; [discriminate | intros H; split; [discriminate | exact H]]. Qed.

(** X1. Whatever validateDeviceId, validatePackageName or validateUdid
    accepts is non-empty and made only of ASCII letters, digits, dashes,
    dots, colons and underscores; it holds no blank and none of the
    characters a shell interprets. *)
Theorem validated_identifiers_are_inert (s : string) :
  validateDeviceId s = true \/ validatePackageName s = true
  \/ validateUdid s = true ->
  s <> EmptyString /\ every plain_unit s = true /\ every shell_inert s = true.
Proof.
  intros H.
  assert (Hp : s <> EmptyString /\ every plain_unit s = true).
  { destruct H as [H | [H | H]].
    - unfold validateDeviceId in H.
      destruct (String.eqb s EmptyString || (64 <? len s)); [discriminate |].
      apply class_plus_every in H as [Hne H]. split; [exact Hne |].
      exact (every_weaken _ _ s device_is_plain H).
    - unfold validatePackageName in H.
      destruct (String.eqb s EmptyString) eqn:Ee; [discriminate |].
      apply String.eqb_neq in Ee. cbn [orb] in H.
      destruct ((len s <? 3) || (255 <? len s)); [discriminate |].
      split; [exact Ee |].
      apply package_pattern_units in H.
      exact (every_weaken _ _ s ident_or_dot_is_plain H).
    - unfold validateUdid in H.
      destruct (String.eqb s EmptyString) eqn:Ee; [discriminate |].
      apply String.eqb_neq in Ee. split; [exact Ee |].
      destruct (String.eqb s "booted") eqn:Eb;
        [apply String.eqb_eq in Eb; subst s; reflexivity |].
      apply uuid_pattern_spec in H
        as [a [b [c [d [e [[_ Ha] [[_ Hb] [[_ Hc] [[_ Hd] [[_ He] ->]]]]]]]]]].
      apply (every_weaken (fun c => is_hex c || Ascii.eqb c "-"));
        [exact hex_or_dash_is_plain |].
      assert (up : forall h, every is_hex h = true ->
                     every (fun c => is_hex c || Ascii.eqb c "-") h = true).
      { intros h. apply every_weaken. intros x Hx. now rewrite Hx. }
      unfold uuid_text. rewrite !every_append.
      rewrite (up a Ha), (up b Hb), (up c Hc), (up d Hd), (up e He).
      reflexivity. }
  destruct Hp as [Hne Hp]. repeat split; [exact Hne | exact Hp |].
  exact (every_weaken _ _ s plain_is_inert Hp).
Qed.

Lemma validated_identifiers_are_inert_witness :
  every shell_inert "emulator-5554" = true
  /\ validateDeviceId "emulator-5554; rm -rf" = false
  /\ validateDeviceId "192.168.1.1:5555" = true.
Proof.
  split; [| split; reflexivity].
  exact (proj2 (proj2 (validated_identifiers_are_inert "emulator-5554"
                         (or_introl eq_refl)))).
Defined.

End ValidatorFacts.

(** ** The tool catalogue, the route into handleTool and the tier limits *)

Module DispatchFacts.
Import JS Types Access Validators License LicenseTools Dispatch.
Local Open Scope list_scope.

Lemma includes_all (l1 l2 : list string) :
  forallb (list_includes l2) l1 = true ->
  forall name, list_includes l1 name = true -> list_includes l2 name = true.
Proof.
  intros H name Hin. rewrite forallb_forall in H.
  apply AccessFacts.list_includes_In in Hin. now apply H.
Qed.

Lemma advanced_tools_are_defined (name : string) :
  list_includes ADVANCED_TOOLS name = true -> list_includes tool_names name = true.
Proof. now apply includes_all. Qed.

Lemma defined_tools_are_advanced (name : string) :
  list_includes tool_names name = true -> list_includes ADVANCED_TOOLS name = true.
Proof. now apply includes_all. Qed.

Lemma advanced_tools_have_cases (name : string) :
  list_includes ADVANCED_TOOLS name = true -> list_includes case_labels name = true.
Proof. now apply includes_all. Qed.

Lemma accessible_is_advanced (name : string) (tier : MobileDevTier) :
  canAccessTool name tier = true -> list_includes ADVANCED_TOOLS name = true.
Proof.
  unfold canAccessTool.
  destruct (list_includes FREE_TOOLS name) eqn:Ef.
  - intros _. apply AccessFacts.list_includes_In.
    apply AccessFacts.free_subset_advanced. now apply AccessFacts.list_includes_In.
  - destruct (tier_eqb tier advanced); [| discriminate].
    destruct (list_includes ADVANCED_TOOLS name); [reflexivity | discriminate].
Qed.

(** X4. The tools the ListTools handler offers to a tier are exactly the
    tools that tier may call; no tool is offered twice; and their number, 8
    for free and 21 for advanced, is the tool count getLicenseStatus
    reports. *)
Theorem listed_tools_are_the_callable_ones (tier : MobileDevTier) :
  (forall name, In name (listTools tier) <-> canAccessTool name tier = true)
  /\ NoDup (listTools tier)
  /\ (forall license,
        LicenseInfo.tier license = tier ->
        Status.tools (status_of license) = Z.of_nat (List.length (listTools tier))).
Proof.
  split; [| split].
  - intros name. unfold listTools. rewrite filter_In. split.
    + now intros [_ H].
    + intros H. split; [| exact H].
      apply AccessFacts.list_includes_In, advanced_tools_are_defined.
      exact (accessible_is_advanced name tier H).
  - destruct tier; vm_compute;
      repeat (constructor; [intros H; repeat (destruct H as [H | H];
                                              [discriminate H |]); exact H |]);
      constructor.
  - intros license Ht. unfold status_of. cbn [Status.tools]. rewrite Ht.
    destruct tier; reflexivity.
Qed.

Lemma listed_tools_are_the_callable_ones_witness :
  In "get_ui_tree" (listTools advanced) /\ ~ In "get_ui_tree" (listTools free).
Proof.
  split.
  - exact (proj2 (proj1 (listed_tools_are_the_callable_ones advanced) "get_ui_tree")
             eq_refl).
  - intros H.
    apply (proj1 (proj1 (listed_tools_are_the_callable_ones free) "get_ui_tree")) in H.
    discriminate H.
Defined.

(** X5. handleTool never reaches its default branch: a name that passes the
    access test has a case of its own. A name outside the advanced tool
    set is answered with the upgrade message on both tiers, whatever the
    device; and when a case is entered, the device argument is empty or
    the option -s followed by an identifier validateDeviceId accepted. *)
Theorem handleTool_route_cases
        (name : string) (device : option string) (tier : MobileDevTier) :
  handleTool_route name device tier <> UnknownTool
  /\ (list_includes ADVANCED_TOOLS name = false ->
      handleTool_route name device tier = Denied (tier_upper tier))
  /\ (canAccessTool name tier = false ->
      handleTool_route name device tier = Denied (tier_upper tier))
  /\ (forall label deviceArg,
        handleTool_route name device tier = Case label deviceArg ->
        label = name /\ canAccessTool name tier = true
        /\ (deviceArg = EmptyString
            \/ exists d, device = Some d /\ deviceArg = ("-s " ++ d)%string
                         /\ validateDeviceId d = true)).
Proof.
  unfold handleTool_route.
  destruct (canAccessTool name tier) eqn:Ea; cbn [negb].
  - pose proof (advanced_tools_have_cases name (accessible_is_advanced name tier Ea))
      as Hc. rewrite Hc.
    split; [| split; [| split]].
    + destruct (and_then device _); discriminate.
    + intros Hn. rewrite (accessible_is_advanced name tier Ea) in Hn. discriminate.
    + discriminate.
    + intros label deviceArg.
      destruct device as [[| c d] |]; cbn [and_then truthy].
      * intros [= <- <-]. auto.
      * destruct (validateDeviceId (String c d)) eqn:Ev; cbn [negb];
          [| discriminate].
        intros [= <- <-]. repeat split. right. now exists (String c d).
      * intros [= <- <-]. auto.
  - split; [discriminate |]. split; [reflexivity |]. split; [reflexivity |].
    discriminate.
Qed.

Lemma handleTool_route_cases_witness :
  handleTool_route "tap_screen" (Some "emulator-5554") advanced = Denied "ADVANCED"
  /\ handleTool_route "get_ui_tree" (Some "a b") advanced = InvalidDevice
  /\ handleTool_route "get_ui_tree" (Some "emulator-5554") advanced
     = Case "get_ui_tree" "-s emulator-5554".
Proof.
  split; [| split; reflexivity].
  exact (proj1 (proj2 (handleTool_route_cases "tap_screen" (Some "emulator-5554")
                         advanced)) eq_refl).
Defined.

(** *** Limits *)

Lemma getMaxLogLines_values (key : string) :
  getMaxLogLines key = if String.eqb key "advanced" then 200 else 50.
Proof.
  unfold getMaxLogLines, limits_of_key.
  destruct (String.eqb_spec key "free") as [-> | _]; [reflexivity |].
  destruct (String.eqb key "advanced"); reflexivity.
Qed.

Lemma getMaxDevices_values (key : string) :
  getMaxDevices key = if String.eqb key "advanced" then 3 else 1.
Proof.
  unfold getMaxDevices, limits_of_key.
  destruct (String.eqb_spec key "free") as [-> | _]; [reflexivity |].
  destruct (String.eqb key "advanced"); reflexivity.
Qed.

Lemma requested_integer (n : Z) :
  n <> 0 -> requestedLines (Some (QArith_base.inject_Z n)) = QArith_base.inject_Z n.
Proof.
  intros Hn. unfold requestedLines, QArith_base.Qeq_bool. simpl.
  destruct (Z.eqb_spec (n * 1) 0); [lia | reflexivity].
Qed.

(** X6. Whatever number of log lines is asked for, the number used is an
    integer from 1 up to the limit of the tier, 50 for free and 200 for
    advanced; a tier key that is not known has the free limits; an integer
    request within the limit is used as it is, without the upgrade notice;
    and the notice is added exactly when fewer lines are used than were
    asked for. *)
Theorem effective_lines_within_tier_limit
        (lines : option QArith_base.Q) (tier : MobileDevTier) :
  1 <= effective_lines lines tier <= getMaxLogLines (tier_key tier)
  /\ getMaxLogLines (tier_key tier) = match tier with free => 50 | advanced => 200 end
  /\ (forall key, key <> "advanced" ->
        getMaxLogLines key = getMaxLogLines "free"
        /\ getMaxDevices key = getMaxDevices "free")
  /\ (forall n, 1 <= n <= getMaxLogLines (tier_key tier) ->
        effective_lines (Some (QArith_base.inject_Z n)) tier = n
        /\ lines_notice (Some (QArith_base.inject_Z n)) tier = false)
  /\ (lines_notice lines tier = true <->
      QArith_base.Qlt (QArith_base.inject_Z (effective_lines lines tier))
                      (requestedLines lines)).
Proof.
  assert (Hmax : getMaxLogLines (tier_key tier)
                 = match tier with free => 50 | advanced => 200 end)
    by (destruct tier; reflexivity).
  split; [| split; [exact Hmax | split; [| split]]].
  - unfold effective_lines. rewrite Hmax. destruct tier; lia.
  - intros key Hk. rewrite getMaxLogLines_values, getMaxDevices_values.
    apply String.eqb_neq in Hk. rewrite Hk. split; reflexivity.
  - intros n Hn.
    assert (He : effective_lines (Some (QArith_base.inject_Z n)) tier = n).
    { unfold effective_lines. rewrite requested_integer by lia.
      rewrite Qround.Qfloor_Z. lia. }
    split; [exact He |].
    unfold lines_notice. rewrite He, requested_integer by lia.
    apply negb_false_iff, QArith_base.Qle_bool_iff, QArith_base.Qle_refl.
  - unfold lines_notice. rewrite negb_true_iff. split.
    + intros H. apply QArith_base.Qnot_le_lt. intros Hle.
      apply QArith_base.Qle_bool_iff in Hle. congruence.
    + intros H. destruct (QArith_base.Qle_bool _ _) eqn:E; [| reflexivity].
      apply QArith_base.Qle_bool_iff in E.
      exfalso. exact (QArith_base.Qlt_not_le _ _ H E).
Qed.

Lemma effective_lines_within_tier_limit_witness :
  effective_lines (Some (QArith_base.inject_Z 30)) free = 30
  /\ lines_notice (Some (QArith_base.inject_Z 30)) free = false
  /\ effective_lines (Some (QArith_base.inject_Z 500)) free = 50
  /\ effective_lines (Some (QArith_base.Qmake (-7) 2)) advanced = 1.
Proof.
  split; [| split; [| split; reflexivity]].
  - refine (proj1 (proj1 (proj2 (proj2 (proj2
      (effective_lines_within_tier_limit None free)))) 30 _)).
    vm_compute. split; discriminate.
  - refine (proj2 (proj1 (proj2 (proj2 (proj2
      (effective_lines_within_tier_limit None free)))) 30 _)).
    vm_compute. split; discriminate.
Defined.

(** *** The lines of get_adb_logs for any argument *)

Lemma Math_min_integer (a b : Z) :
  Args.Math_min (Args.integer a) (Args.integer b) = Args.integer (Z.min a b).
Proof.
  unfold Args.Math_min, Args.integer, Args.lt.
  destruct (QArith_base.Qle_bool (QArith_base.inject_Z a) (QArith_base.inject_Z b))
    eqn:E; cbn [negb].
  - apply QArith_base.Qle_bool_iff in E. rewrite <- QArith_base.Zle_Qle in E.
    now rewrite Z.min_l.
  - destruct (Z.le_gt_cases a b) as [Hle | Hgt].
    + rewrite QArith_base.Zle_Qle in Hle.
      apply QArith_base.Qle_bool_iff in Hle. congruence.
    + rewrite Z.min_r by lia. reflexivity.
Qed.

Lemma Math_max_integer (a b : Z) :
  Args.Math_max (Args.integer a) (Args.integer b) = Args.integer (Z.max a b).
Proof.
  unfold Args.Math_max, Args.integer, Args.lt.
  destruct (QArith_base.Qle_bool (QArith_base.inject_Z b) (QArith_base.inject_Z a))
    eqn:E; cbn [negb].
  - apply QArith_base.Qle_bool_iff in E. rewrite <- QArith_base.Zle_Qle in E.
    now rewrite Z.max_l.
  - destruct (Z.le_gt_cases b a) as [Hle | Hgt].
    + rewrite QArith_base.Zle_Qle in Hle.
      apply QArith_base.Qle_bool_iff in Hle. congruence.
    + rewrite Z.max_r by lia. reflexivity.
Qed.

(** The count is NaN for an argument without a numeric reading, and an
    integer within the limit for every other. *)
Lemma effective_lines_any_cases (lines : Args.number_arg) (tier : License.tier_value) :
  (lines = Args.Truthy Args.NaN
   /\ effective_lines_any lines tier = Args.NaN
   /\ lines_notice_any lines tier = false)
  \/ (lines <> Args.Truthy Args.NaN
      /\ exists z, effective_lines_any lines tier = Args.integer z
                   /\ 1 <= z <= getMaxLogLines (property_key tier)).
Proof.
  assert (Hmax : 1 <= getMaxLogLines (property_key tier)).
  { rewrite getMaxLogLines_values.
    destruct (String.eqb (property_key tier) "advanced"); lia. }
  unfold effective_lines_any, lines_notice_any, requestedLines_any, Args.or_number.
  destruct lines as [| [| | q |]]; cbn [Args.Math_floor].
  - right. split; [discriminate |].
    unfold Args.integer at 2. cbn [Args.Math_floor].
    rewrite Math_min_integer, Math_max_integer. eexists. split; [reflexivity | lia].
  - left. repeat split.
  - right. split; [discriminate |]. exists 1. split; [reflexivity | lia].
  - right. split; [discriminate |].
    rewrite Math_min_integer, Math_max_integer. eexists. split; [reflexivity | lia].
  - right. split; [discriminate |].
    exists (Z.max 1 (getMaxLogLines (property_key tier))).
    split; [| lia].
    change (Args.Math_min Args.PlusInfinity
              (Args.integer (getMaxLogLines (property_key tier))))
      with (Args.integer (getMaxLogLines (property_key tier))).
    apply Math_max_integer.
Qed.

(** For a number the count and the notice are those of [effective_lines]
    and [lines_notice]. *)
Lemma effective_lines_any_number (o : option QArith_base.Q) (tier : MobileDevTier) :
  effective_lines_any (number o) tier = Args.integer (effective_lines o tier)
  /\ lines_notice_any (number o) tier = lines_notice o tier.
Proof.
  assert (Hr : requestedLines_any (number o) = Args.Finite (requestedLines o)).
  { unfold requestedLines_any, number, requestedLines, Args.or_number.
    destruct o as [q |]; [| reflexivity].
    destruct (QArith_base.Qeq_bool q (QArith_base.inject_Z 0)); reflexivity. }
  assert (He : effective_lines_any (number o) tier
               = Args.integer (effective_lines o tier)).
  { unfold effective_lines_any, effective_lines. rewrite Hr.
    cbn [Args.Math_floor]. rewrite Math_min_integer, Math_max_integer.
    now destruct tier. }
  split; [exact He |].
  unfold lines_notice_any, lines_notice. rewrite He, Hr. reflexivity.
Qed.

(** The filter argument is a string, or missing. *)
Definition textual (v : Args.text_arg) : Prop :=
  match v with Args.NoText _ _ => False | _ => True end.



(** The count for a lines argument that is the string abc. *)
Example lines_without_number :
  get_adb_logs_plan
    {| arg_lines := Args.Truthy Args.NaN; arg_filter := Args.Missing;
       arg_level := Args.Missing |} free
  = Logcat "-s ReactNativeJS:I" Args.NaN false.
Proof. reflexivity. Qed.

(** X8. list_devices shows the first connected devices, in order, never
    more than the limit of the tier (1 for free, 3 for advanced) and all
    of them when they are within the limit; it says that devices were left
    out exactly when there are more than the limit; and it reports that no
    device is connected exactly when the list is empty. *)
Theorem list_devices_within_limit
        (devices : list device_entry) (tier : MobileDevTier) :
  let limit := match tier with free => 1 | advanced => 3 end in
  (list_devices devices tier = NoDevices <-> devices = [])
  /\ (forall limited total notice,
        list_devices devices tier = Listing limited total notice ->
        exists hidden,
          devices = limited ++ hidden
          /\ total = Z.of_nat (List.length devices)
          /\ Z.of_nat (List.length limited) = Z.min total limit
          /\ 1 <= Z.of_nat (List.length limited) <= limit
          /\ (notice = true <-> hidden <> [])).
Proof.
  intros limit. unfold list_devices.
  assert (Hmax : getMaxDevices (tier_key tier) = limit) by (destruct tier; reflexivity).
  rewrite Hmax. split.
  - destruct devices as [| d devices]; [split; reflexivity |].
    split; [| discriminate].
    destruct (Z.of_nat (List.length (d :: devices)) =? 0) eqn:E; [| discriminate].
    apply Z.eqb_eq in E. simpl in E. lia.
  - intros limited total notice.
    destruct (Z.of_nat (List.length devices) =? 0) eqn:E; [discriminate |].
    apply Z.eqb_neq in E. intros [= <- <- <-].
    exists (skipn (Z.to_nat limit) devices).
    split; [now rewrite firstn_skipn |]. split; [reflexivity |].
    rewrite length_firstn.
    assert (Hl : 1 <= limit <= 3) by (unfold limit; destruct tier; lia).
    split; [lia |]. split; [lia |].
    rewrite Z.ltb_lt. split.
    + intros Hlt Hnil.
      assert (Hlen : List.length (skipn (Z.to_nat limit) devices) = 0%nat)
        by now rewrite Hnil.
      rewrite length_skipn in Hlen. lia.
    + intros Hne. destruct (Z.lt_ge_cases limit (Z.of_nat (List.length devices)))
        as [Hlt | Hge]; [exact Hlt |].
      elim Hne. apply skipn_all2. lia.
Qed.

Lemma list_devices_within_limit_witness :
  let a := {| id := "emulator-5554"; status := "device" |} in
  let b := {| id := "emulator-5556"; status := "offline" |} in
  exists hidden, [a; b] = [a] ++ hidden /\ hidden <> [].
Proof.
  intros a b.
  destruct (proj2 (list_devices_within_limit [a; b] free) [a] 2 true eq_refl)
    as [hidden [Hd [_ [_ [_ Hn]]]]].
  exists hidden. split; [exact Hd | now apply Hn].
Defined.

End DispatchFacts.

(** ** More on the parser: the element count and attribute extraction *)

Module ExtractionFacts.
Import JS JSFacts Utils RegexFacts ParseFacts.
Local Open Scope list_scope.

(** X9. Whenever the parser returns, its elements are those of the first
    node declarations of the dump in document order, as many as there are
    declarations but never more than [MAX_ELEMENTS]; a dump without node
    declarations gives the empty list. *)
Theorem parseUiTree_elements_in_order (dump : string) (els : list UiElement) :
  parseUiTree dump = Returns els ->
  els = map element_of_node (firstn ceiling (node_declarations dump))
  /\ Z.of_nat (List.length els)
     = Z.min MAX_ELEMENTS (Z.of_nat (List.length (node_declarations dump)))
  /\ (node_declarations dump = [] -> els = [])
  /\ (forall i el, nth_error els i = Some el ->
        exists node, nth_error (node_declarations dump) i = Some node
                     /\ el = element_of_node node).
Proof.
  intros Hp.
  assert (Hle : len dump <= MAX_XML_SIZE).
  { destruct (Z.le_gt_cases (len dump) MAX_XML_SIZE) as [H | H]; [exact H |].
    unfold parseUiTree in Hp. apply Z.ltb_lt in H. rewrite H in Hp. discriminate. }
  assert (He : els = map element_of_node (firstn ceiling (node_declarations dump))).
  { pose proof (parseUiTree_returns dump Hle) as Hr. congruence. }
  split; [exact He |]. split; [| split].
  - rewrite He, length_map, length_firstn. unfold ceiling, MAX_ELEMENTS. lia.
  - intros Hn. rewrite He, Hn, firstn_nil. reflexivity.
  - intros i el Hi. rewrite He in Hi.
    rewrite nth_error_map in Hi.
    destruct (nth_error (firstn ceiling (node_declarations dump)) i) as [node |] eqn:En;
      [| discriminate].
    injection Hi as <-. exists node. split; [| reflexivity].
    assert (Hlt : (i < ceiling)%nat).
    { assert (Hsome : nth_error (firstn ceiling (node_declarations dump)) i <> None)
        by congruence.
      apply nth_error_Some in Hsome. rewrite length_firstn in Hsome. lia. }
    now rewrite nth_error_firstn in En; destruct (Nat.ltb_spec i ceiling); try lia.
Qed.

Lemma parseUiTree_elements_in_order_witness :
  exists node,
    nth_error (node_declarations (repeat_string 3 small_node)) 1 = Some node.
Proof.
  destruct (proj2 (proj2 (proj2
    (parseUiTree_elements_in_order (repeat_string 3 small_node)
       (map element_of_node [small_node; small_node; small_node]) eq_refl)))
    1%nat (element_of_node small_node) eq_refl) as [node [Hn _]].
  now exists node.
Defined.

(** *** Attributes *)

Definition q : string := String quote EmptyString.

Definition not_quote (c : ascii) : bool := negb (Ascii.eqb c quote).

(** The text of an attribute [name] with value [v]. *)
Definition attribute_text (name v : string) : string :=
  (name ++ "=" ++ q ++ v ++ q)%string.

Lemma append_inv_head (p a b : string) : (p ++ a = p ++ b)%string -> a = b.
Proof.
  induction p as [| c p IH]; simpl; [auto |]. intros [= H]. now apply IH.
Qed.

Lemma attr_at_spec (name s v : string) :
  attr_at name s = Some v <->
  exists post, s = (attribute_text name v ++ post)%string
               /\ all_units not_quote v = true.
Proof.
  unfold attr_at, attribute_text, q. split.
  - destruct (strip_prefix name s) as [r0 |] eqn:E0; [| discriminate].
    destruct (expect "=" r0) as [r1 |] eqn:E1; [| discriminate].
    destruct (expect quote r1) as [r2 |] eqn:E2; [| discriminate].
    destruct (take_while _ r2) as [value r3] eqn:E3.
    destruct (expect quote r3) as [r4 |] eqn:E4; [| discriminate].
    intros [= <-].
    apply strip_prefix_spec in E0. apply expect_spec in E1, E2, E4.
    apply take_while_spec in E3 as [E3 [Ha _]]. subst.
    exists r4. split; [| exact Ha].
    repeat (rewrite !append_assoc; simpl). reflexivity.
  - intros [post [-> Ha]].
    rewrite !append_assoc, strip_prefix_app. simpl.
    rewrite (take_while_append (fun c => negb (Ascii.eqb c quote)) v
               (String quote post) Ha) by reflexivity.
    reflexivity.
Qed.

Lemma attrRegex_match_unfold (name s : string) :
  attrRegex_match name s =
  match attr_at name s with
  | Some v => Some v
  | None => match s with
            | EmptyString => None
            | String _ t => attrRegex_match name t
            end
  end.
Proof. destruct s; reflexivity. Qed.

Lemma attrRegex_match_Some (name s v : string) :
  attrRegex_match name s = Some v ->
  exists pre suf, s = (pre ++ suf)%string /\ attr_at name suf = Some v.
Proof.
  induction s as [| c s IH]; rewrite attrRegex_match_unfold.
  - destruct (attr_at name EmptyString) eqn:E; [| discriminate].
    intros [= <-]. now exists EmptyString, EmptyString.
  - destruct (attr_at name (String c s)) eqn:E.
    + intros [= <-]. now exists EmptyString, (String c s).
    + intros H. destruct (IH H) as [pre [suf [-> Hs]]].
      now exists (String c pre), suf.
Qed.

Lemma attrRegex_match_found (name pre suf v : string) :
  attr_at name suf = Some v -> attrRegex_match name (pre ++ suf) <> None.
Proof.
  intros Hs. induction pre as [| c pre IH];
    rewrite attrRegex_match_unfold; simpl append.
  - rewrite Hs. discriminate.
  - destruct (attr_at name (String c (pre ++ suf))); [discriminate | exact IH].
Qed.

(** X10. Attribute extraction is defensive and exact. A node that nowhere
    holds the attribute name followed by an equals sign and a quote
    yields the empty string and false; a non-empty value that is returned
    stands in the node between quotes after that name and holds no quote;
    and when the name followed by an equals sign and a quote occurs at
    one place only, the value returned is the one written there. *)
Theorem getText_reads_the_attribute (node name : string) :
  (~ contains node (name ++ "=" ++ q) ->
   getText node name = EmptyString /\ getBool node name = false)
  /\ (forall v, v <> EmptyString -> getText node name = v ->
        contains node (attribute_text name v) /\ all_units not_quote v = true)
  /\ (forall pre v post,
        node = (pre ++ attribute_text name v ++ post)%string ->
        all_units not_quote v = true ->
        (forall pre' post',
            node = (pre' ++ (name ++ "=" ++ q) ++ post')%string -> pre' = pre) ->
        getText node name = v).
Proof.
  split; [| split].
  - intros Habs.
    assert (Hn : attrRegex_match name node = None).
    { destruct (attrRegex_match name node) as [v |] eqn:E; [| reflexivity].
      apply attrRegex_match_Some in E as [pre [suf [-> Hs]]].
      apply attr_at_spec in Hs as [post [-> _]].
      elim Habs. exists pre, (v ++ q ++ post)%string.
      unfold attribute_text. repeat (rewrite !append_assoc; simpl). reflexivity. }
    unfold getBool, getText. rewrite Hn. split; reflexivity.
  - intros v Hne Hv. unfold getText in Hv.
    destruct (attrRegex_match name node) as [v' |] eqn:E; [| now elim Hne].
    subst v'. apply attrRegex_match_Some in E as [pre [suf [-> Hs]]].
    apply attr_at_spec in Hs as [post [-> Ha]].
    split; [now exists pre, post | exact Ha].
  - intros pre v post Hnode Ha Huniq.
    assert (Hat : attr_at name (attribute_text name v ++ post) = Some v)
      by (apply attr_at_spec; now exists post).
    unfold getText.
    destruct (attrRegex_match name node) as [v' |] eqn:E.
    + apply attrRegex_match_Some in E as [pre' [suf' [Hn' Hs']]].
      pose proof Hs' as Hs''.
      apply attr_at_spec in Hs'' as [post' [Hsuf' _]].
      assert (Hp : pre' = pre).
      { apply (Huniq pre' (v' ++ q ++ post')%string).
        rewrite Hn', Hsuf'. unfold attribute_text.
        repeat (rewrite !append_assoc; simpl). reflexivity. }
      subst pre'. rewrite Hnode in Hn'. apply append_inv_head in Hn'.
      rewrite <- Hn' in Hs'. congruence.
    + exfalso. rewrite Hnode in E.
      exact (attrRegex_match_found name pre _ v Hat E).
Qed.

Lemma getText_reads_the_attribute_witness :
  getText ("<node index=" ++ q ++ "0" ++ q ++ " />") "text" = EmptyString
  /\ getBool ("<node index=" ++ q ++ "0" ++ q ++ " />") "clickable" = false.
Proof.
  split.
  - apply (proj1 (getText_reads_the_attribute _ "text")).
    intros H. apply includes_spec in H. discriminate H.
  - apply (proj1 (getText_reads_the_attribute _ "clickable")).
    intros H. apply includes_spec in H. discriminate H.
Defined.

End ExtractionFacts.

(** ** More on the license cache and the license tools *)

Module LicenseToolFacts.
Import JS Types License LicenseTools CacheFacts.
Local Open Scope list_scope.

Section WithHost.
Variable host : Host.

Definition saved (d : CachedLicense.Data) : World :=
  {| config_dir := true;
     license_file := Some (envelope d (signCacheData host d)) |}.

Lemma save_spec (d : CachedLicense.Data) (w : World) :
  saveLicenseCache host d w = (Returns tt, saved d).
Proof.
  unfold saveLicenseCache, try_catch, bind, ret, existsSync_dir, mkdirSync_dir,
    writeFileSync_cache, saved, envelope.
  destruct (config_dir w) eqn:Ed; cbn [config_dir license_file];
    try rewrite Ed; reflexivity.
Qed.

(** The record a successful validation stores and the answer it gives. *)
Definition validated_data (key : string) (product expires : option string)
           (received : Z) : CachedLicense.Data :=
  {| CachedLicense.tier := mapProductToTier (or_text product EmptyString);
     CachedLicense.licenseKey := Some key;
     CachedLicense.expiresAt := expires;
     CachedLicense.lastValidated := Some received |}.

Definition validated_info (key : string) (product expires : option string)
  : ValidatedInfo.t :=
  {| ValidatedInfo.tier := mapProductToTier (or_text product EmptyString);
     ValidatedInfo.valid := true;
     ValidatedInfo.licenseKey := Some key;
     ValidatedInfo.expiresAt := expires |}.

Lemma validate_spec (remote : string -> response) (received : Z)
      (key : string) (w : World) :
  validateWithLemonSqueezy host remote received key w =
  match remote key with
  | Body true product expires =>
      (Returns (Some (validated_info key product expires)),
       saved (validated_data key product expires received))
  | Fault => (Throws "unexpected", w)
  | _ => (Returns None, w)
  end.
Proof.
  unfold validateWithLemonSqueezy.
  destruct (remote key) as [| | | | [|] product expires |]; try reflexivity.
  unfold bind. rewrite save_spec.
  unfold validated_info, validated_data, or_text.
  destruct product as [[| c n] |]; reflexivity.
Qed.

(** Resolution once the cache has yielded a record. *)
Lemma check_with_record (remote : string -> response) (now received : Z)
      (w : World) (d : CachedLicense.Data) :
  loadCachedLicense host w = (Returns (Some d), w) ->
  checkLicense_try host remote now received w =
  match CachedLicense.licenseKey d with
  | Some (String _ _ as key) =>
      if now - lastCheck d <? CACHE_TTL_MS then
        (Returns {| LicenseInfo.tier := CachedLicense.tier d;
                    LicenseInfo.valid := true;
                    LicenseInfo.licenseKey := Some key;
                    LicenseInfo.expiresAt := CachedLicense.expiresAt d |}, w)
      else
        match validateWithLemonSqueezy host remote received key w with
        | (Returns (Some info), w') => (Returns (ValidatedInfo.info info), w')
        | (Returns None, w') =>
            (Returns free_license,
             match license_file w' with Some _ => removed w' | None => w' end)
        | (Throws msg, w') => (Throws msg, w')
        end
  | _ => (Returns free_license, w)
  end.
Proof.
  intros Hl. unfold checkLicense_try, try_catch, bind, ret. rewrite Hl.
  destruct (CachedLicense.licenseKey d) as [[| c key] |]; try reflexivity.
  destruct (now - lastCheck d <? CACHE_TTL_MS); [reflexivity |].
  destruct (validateWithLemonSqueezy host remote received (String c key) w)
    as [[[info |] | msg] w']; try reflexivity.
  unfold unlinkSync_cache. destruct (license_file w'); reflexivity.
Qed.

Lemma check_without_record (remote : string -> response) (now received : Z)
      (w w1 : World) :
  loadCachedLicense host w = (Returns None, w1) ->
  checkLicense host remote now received w = (Returns free_license, w1).
Proof.
  intros Hl. unfold checkLicense, checkLicense_try, try_catch, bind.
  rewrite Hl. reflexivity.
Qed.

End WithHost.

(** X11. Saving and loading round-trip: whatever the cache file and its
    directory were before, saving a record never fails, leaves a file that
    holds the record under its HMAC, and loading then returns that record
    and changes nothing; saving the same record again changes nothing. *)
Theorem save_then_load (host : Host) (w : World) (d : CachedLicense.Data) :
  hex_digests host ->
  exists w',
    saveLicenseCache host d w = (Returns tt, w')
    /\ config_dir w' = true
    /\ license_file w' = Some (envelope d (signCacheData host d))
    /\ loadCachedLicense host w' = (Returns (Some d), w')
    /\ saveLicenseCache host d w' = (Returns tt, w').
Proof.
  intros Hhex. exists (saved host d). rewrite !save_spec.
  repeat split.
  apply load_accepts; [now apply signature_nonempty | reflexivity].
Qed.

Lemma save_then_load_witness :
  exists w',
    saveLicenseCache toy_host paid (world_with Unparseable) = (Returns tt, w')
    /\ loadCachedLicense toy_host w' = (Returns (Some paid), w').
Proof.
  destruct (save_then_load toy_host (world_with Unparseable) paid
              toy_host_hex_digests) as [w' [Hs [_ [_ [Hl _]]]]].
  now exists w'.
Defined.

(** X12. Resolution fails closed. Whenever checkLicense answers the
    advanced tier, the cache file held a record under a verifying
    signature (a stored signature that gives the bytes of the HMAC of the
    record; when it is a string, the HMAC itself) with a non-empty license
    key, and either that record was fresh and said advanced, and nothing
    was changed, or it was stale and the remote validator accepted the key
    for a product whose name maps to advanced. *)
Theorem advanced_only_from_trusted_sources
        (host : Host) (remote : string -> response) (now received : Z)
        (w w' : World) (info : LicenseInfo.t) :
  hex_digests host ->
  checkLicense host remote now received w = (Returns info, w') ->
  LicenseInfo.tier info = advanced ->
  exists d key,
    (exists sig,
        license_file w
        = Some (Json {| CachedLicense.data := Some d;
                        CachedLicense.signature := Some sig |})
        /\ verifies host d sig
        /\ (forall s, sig = CachedLicense.SignatureText s ->
               license_file w = Some (envelope d (signCacheData host d))))
    /\ CachedLicense.licenseKey d = Some key /\ key <> EmptyString
    /\ ((now - lastCheck d < CACHE_TTL_MS
         /\ CachedLicense.tier d = advanced /\ w' = w)
        \/ (CACHE_TTL_MS <= now - lastCheck d
            /\ exists product expires,
                 remote key = Body true product expires
                 /\ mapProductToTier (or_text product EmptyString) = advanced)).
Proof.
  intros Hhex Hc Ht.
  destruct (load_returns host w) as [r [w1 Hl]].
  destruct r as [d |].
  - destruct (load_trusts_only_verified host w w1 d Hl) as [-> [sig [Hf Hv]]].
    unfold checkLicense, try_catch in Hc.
    rewrite (check_with_record host remote now received w d Hl) in Hc.
    destruct (CachedLicense.licenseKey d) as [[| c key] |] eqn:Ek;
      try (injection Hc as <- _; discriminate Ht).
    exists d, (String c key). split; [| split; [exact Ek | split; [discriminate |]]].
    + exists sig. split; [exact Hf |]. split; [exact Hv |].
      intros s ->. apply verifies_text in Hv. rewrite Hf, Hv. reflexivity.
    + destruct (now - lastCheck d <? CACHE_TTL_MS) eqn:Efresh.
      * apply Z.ltb_lt in Efresh. injection Hc as <- <-. left. auto.
      * apply Z.ltb_ge in Efresh. right. split; [exact Efresh |].
        rewrite validate_spec in Hc.
        destruct (remote (String c key)) as [| | | | [|] product expires |];
          try (injection Hc as <- _; discriminate Ht).
        injection Hc as <- _. exists product, expires. split; [reflexivity |].
        cbn [ValidatedInfo.info validated_info LicenseInfo.tier ValidatedInfo.tier]
          in Ht.
        destruct (mapProductToTier (or_text product EmptyString));
          [discriminate Ht | reflexivity].
  - rewrite (check_without_record host remote now received w w1 Hl) in Hc.
    injection Hc as <- _. discriminate Ht.
Qed.

Lemma advanced_only_from_trusted_sources_witness :
  exists d key,
    license_file (world_with (envelope paid (signCacheData toy_host paid)))
    = Some (envelope d (signCacheData toy_host d))
    /\ CachedLicense.licenseKey d = Some key.
Proof.
  destruct (advanced_only_from_trusted_sources toy_host
              EntitlementFacts.unreachable (1736850000000 + 1000) 0
              (world_with (envelope paid (signCacheData toy_host paid)))
              (world_with (envelope paid (signCacheData toy_host paid)))
              {| LicenseInfo.tier := advanced; LicenseInfo.valid := true;
                 LicenseInfo.licenseKey := Some "lk_0123456789";
                 LicenseInfo.expiresAt := None |}
              toy_host_hex_digests eq_refl eq_refl)
    as [d [key [[sig [Hf [_ Hs]]] [Hk _]]]].
  exists d, key. split; [| exact Hk].
  injection Hf as <- <-. exact (Hs _ eq_refl).
Defined.

(** X13. Activation holds for the hour. When setLicenseKey is given a key
    whose trimmed form has 10 to 100 units and the validator accepts it,
    it answers with the activation, stores the record under the trimmed
    key, and every resolution started less than the TTL after the
    validation answers that record's tier and key from the cache alone:
    whatever the validator would say then, and without touching the
    file. *)
Theorem activation_is_honoured_while_fresh
        (host : Host) (remote : string -> response) (received : Z)
        (raw : string) (w : World) (product expires : option string) :
  hex_digests host ->
  10 <= len (trim raw) <= 100 ->
  remote (trim raw) = Body true product expires ->
  let tier := mapProductToTier (or_text product EmptyString) in
  exists w',
    setLicenseKey host remote received raw w
    = (Returns (Activated (tier_upper tier) (or_text expires "N/A")), w')
    /\ license_file w'
       = Some (envelope (validated_data (trim raw) product expires received)
                        (signCacheData host
                           (validated_data (trim raw) product expires received)))
    /\ (forall remote' now received',
          now - received < CACHE_TTL_MS ->
          checkLicense host remote' now received' w'
          = (Returns {| LicenseInfo.tier := tier; LicenseInfo.valid := true;
                        LicenseInfo.licenseKey := Some (trim raw);
                        LicenseInfo.expiresAt := expires |}, w')).
Proof.
  intros Hhex Hlen Hremote tier.
  exists (saved host (validated_data (trim raw) product expires received)).
  assert (Hne : trim raw <> EmptyString).
  { intros E. rewrite E in Hlen. unfold len in Hlen. simpl in Hlen. lia. }
  assert (Hraw : raw <> EmptyString) by (intros ->; now apply Hne).
  split; [| split].
  - unfold setLicenseKey.
    apply String.eqb_neq in Hne, Hraw. rewrite Hne, Hraw. cbn [orb].
    destruct (len (trim raw) <? 10) eqn:E1; [apply Z.ltb_lt in E1; lia |].
    destruct (100 <? len (trim raw)) eqn:E2; [apply Z.ltb_lt in E2; lia |].
    cbn [orb]. unfold bind. rewrite validate_spec, Hremote. reflexivity.
  - reflexivity.
  - intros remote' now received' Hfresh.
    unfold checkLicense, try_catch.
    rewrite (EntitlementFacts.check_valid_envelope host remote' now received'
               (saved host (validated_data (trim raw) product expires received))
               (validated_data (trim raw) product expires received) Hhex eq_refl).
    cbn [CachedLicense.licenseKey validated_data].
    destruct (trim raw) as [| c key] eqn:Et; [now elim Hne |].
    unfold lastCheck, validated_data.
    cbn [CachedLicense.lastValidated CachedLicense.tier CachedLicense.expiresAt].
    apply Z.ltb_lt in Hfresh. rewrite Hfresh. reflexivity.
Qed.

Definition shop : string -> response :=
  fun _ => Body true (Some "Mobile Dev Advanced") None.

Lemma activation_is_honoured_while_fresh_witness :
  exists w',
    setLicenseKey toy_host shop 1000 "  lk_0123456789 " (world_with Unparseable)
    = (Returns (Activated "ADVANCED" "N/A"), w')
    /\ fst (checkLicense toy_host EntitlementFacts.unreachable 2000 0 w')
       = Returns {| LicenseInfo.tier := advanced; LicenseInfo.valid := true;
                    LicenseInfo.licenseKey := Some "lk_0123456789";
                    LicenseInfo.expiresAt := None |}.
Proof.
  destruct (activation_is_honoured_while_fresh toy_host shop 1000
              "  lk_0123456789 " (world_with Unparseable)
              (Some "Mobile Dev Advanced") None toy_host_hex_digests)
    as [w' [Hs [_ Hc]]].
  - vm_compute. split; discriminate.
  - reflexivity.
  - exists w'. split; [exact Hs |].
    now rewrite (Hc EntitlementFacts.unreachable 2000 0 eq_refl).
Defined.

(** X14. A key that is empty, blank, or whose trimmed form is shorter than
    10 or longer than 100 units is turned away without asking the
    validator and without touching the cache; a key the validator does
    not accept (no answer, a timeout, an oversized or malformed body, or
    valid false) is reported as rejected and nothing is written either. *)
Theorem setLicenseKey_rejections_change_nothing
        (host : Host) (remote : string -> response) (received : Z)
        (raw : string) (w : World) :
  (trim raw = EmptyString ->
   setLicenseKey host remote received raw w = (Returns KeyRequired, w))
  /\ (trim raw <> EmptyString ->
      len (trim raw) < 10 \/ 100 < len (trim raw) ->
      setLicenseKey host remote received raw w = (Returns InvalidKeyFormat, w))
  /\ (10 <= len (trim raw) <= 100 ->
      match remote (trim raw) with
      | Body true _ _ | Fault => True
      | _ => setLicenseKey host remote received raw w = (Returns KeyRejected, w)
      end).
Proof.
  unfold setLicenseKey. split; [| split].
  - intros ->. now rewrite String.eqb_refl, orb_true_r.
  - intros Hne Hlen.
    assert (Hraw : raw <> EmptyString) by (intros ->; now apply Hne).
    apply String.eqb_neq in Hne, Hraw. rewrite Hne, Hraw. cbn [orb].
    destruct Hlen as [H | H].
    + apply Z.ltb_lt in H. now rewrite H.
    + apply Z.ltb_lt in H. now rewrite H, orb_true_r.
  - intros Hlen.
    assert (Hne : trim raw <> EmptyString).
    { intros E. rewrite E in Hlen. unfold len in Hlen. simpl in Hlen. lia. }
    assert (Hraw : raw <> EmptyString) by (intros ->; now apply Hne).
    apply String.eqb_neq in Hne, Hraw. rewrite Hne, Hraw. cbn [orb].
    destruct (len (trim raw) <? 10) eqn:E1; [apply Z.ltb_lt in E1; lia |].
    destruct (100 <? len (trim raw)) eqn:E2; [apply Z.ltb_lt in E2; lia |].
    cbn [orb]. unfold bind. rewrite validate_spec.
    destruct (remote (trim raw)) as [| | | | [|] product expires |];
      try exact I; reflexivity.
Qed.

Lemma setLicenseKey_rejections_change_nothing_witness :
  setLicenseKey toy_host shop 0 "   " (world_with Unparseable)
  = (Returns KeyRequired, world_with Unparseable)
  /\ setLicenseKey toy_host shop 0 " short " (world_with Unparseable)
     = (Returns InvalidKeyFormat, world_with Unparseable).
Proof.
  split.
  - exact (proj1 (setLicenseKey_rejections_change_nothing toy_host shop 0
                    "   " (world_with Unparseable)) eq_refl).
  - refine (proj1 (proj2 (setLicenseKey_rejections_change_nothing toy_host shop 0
                    " short " (world_with Unparseable))) _ _).
    + discriminate.
    + left. vm_compute. reflexivity.
Defined.

End LicenseToolFacts.

(** ** The screen tools *)

Module ScreenFacts.
Import JS JSFacts Utils Index Screen FindFacts.
Local Open Scope list_scope.

Lemma parsed_within_ceiling (dump : string) (els : list UiElement) :
  parseUiTree dump = Returns els ->
  Z.of_nat (List.length els) <= MAX_ELEMENTS.
Proof.
  intros Hp.
  destruct (Z.le_gt_cases (len dump) MAX_XML_SIZE) as [Hle | Hgt].
  - pose proof (ParseFacts.parseUiTree_returns dump Hle) as Hr.
    assert (He : els = map element_of_node
                         (firstn ParseFacts.ceiling (ParseFacts.node_declarations dump)))
      by congruence.
    rewrite He, length_map, length_firstn.
    unfold ParseFacts.ceiling, MAX_ELEMENTS. lia.
  - unfold parseUiTree in Hp. apply Z.ltb_lt in Hgt.
    rewrite Hgt in Hp. discriminate.
Qed.

Lemma labelled_label (el : UiElement) :
  labelled el = true -> label el <> EmptyString.
Proof.
  unfold labelled, label, or_else, nonempty.
  destruct (text el); destruct (contentDescription el); simpl;
    discriminate.
Qed.

(** *** First occurrences *)

Lemma indexOf_app_in (pre post : list string) (x : string) :
  In x pre -> indexOf (pre ++ post) x = indexOf pre x.
Proof.
  induction pre as [| a pre IH]; simpl; [contradiction |].
  intros H. destruct (String.eqb a x) eqn:E; [reflexivity |].
  destruct H as [-> | H]; [rewrite String.eqb_refl in E; discriminate |].
  now rewrite IH.
Qed.

Lemma indexOf_range (arr : list string) (x : string) :
  In x arr -> 0 <= indexOf arr x < Z.of_nat (List.length arr).
Proof.
  induction arr as [| a arr IH]; [contradiction |].
  intros H. cbn [indexOf List.length]. rewrite Nat2Z.inj_succ.
  destruct (String.eqb a x) eqn:E; [lia |].
  destruct H as [-> | H]; [rewrite String.eqb_refl in E; discriminate |].
  specialize (IH H).
  destruct (indexOf arr x <? 0) eqn:El; [apply Z.ltb_lt in El; lia | lia].
Qed.

Lemma indexOf_first (pre post : list string) (x : string) :
  ~ In x pre -> indexOf (pre ++ x :: post) x = Z.of_nat (List.length pre).
Proof.
  induction pre as [| a pre IH]; intros Hn.
  - simpl. now rewrite String.eqb_refl.
  - cbn [app indexOf List.length]. rewrite Nat2Z.inj_succ.
    destruct (String.eqb a x) eqn:E.
    + apply String.eqb_eq in E. subst. elim Hn. now left.
    + rewrite IH by (intros H; apply Hn; now right).
      destruct (Z.of_nat (List.length pre) <? 0) eqn:El;
        [apply Z.ltb_lt in El; lia | lia].
Qed.

(** The entries of [l] that are neither in [seen] nor earlier in [l]. *)
Fixpoint fresh (seen l : list string) : list string :=
  match l with
  | [] => []
  | t :: rest =>
      if list_includes seen t then fresh (seen ++ [t]) rest
      else t :: fresh (seen ++ [t]) rest
  end.

Lemma first_occurrences_fresh (l pre : list string) :
  first_occurrences (pre ++ l) (Z.of_nat (List.length pre)) l = fresh pre l.
Proof.
  revert pre. induction l as [| t rest IH]; intros pre; [reflexivity |].
  cbn [first_occurrences fresh].
  assert (Hnext : first_occurrences (pre ++ t :: rest)
                    (Z.of_nat (List.length pre) + 1) rest
                  = fresh (pre ++ [t]) rest).
  { rewrite <- (IH (pre ++ [t])), <- app_assoc, length_app.
    cbn [app List.length]. rewrite Nat2Z.inj_add. reflexivity. }
  rewrite Hnext.
  destruct (list_includes pre t) eqn:Ein.
  - apply AccessFacts.list_includes_In in Ein.
    rewrite indexOf_app_in by assumption.
    pose proof (indexOf_range pre t Ein) as Hr.
    destruct (indexOf pre t =? Z.of_nat (List.length pre)) eqn:E;
      [apply Z.eqb_eq in E; lia | reflexivity].
  - rewrite indexOf_first, Z.eqb_refl; [reflexivity |].
    intros H. apply AccessFacts.list_includes_In in H. congruence.
Qed.

Lemma fresh_In (l seen : list string) (t : string) :
  In t (fresh seen l) <-> In t l /\ ~ In t seen.
Proof.
  revert seen. induction l as [| x rest IH]; intros seen; cbn [fresh].
  - simpl. tauto.
  - destruct (list_includes seen x) eqn:Ein.
    + apply AccessFacts.list_includes_In in Ein.
      rewrite IH, in_app_iff. simpl. split.
      * intros [Hr Hn]. split; [now right | tauto].
      * intros [[-> | Hr] Hn]; [contradiction |]. split; [assumption |].
        intros [H | [-> | []]]; contradiction.
    + assert (Hx : ~ In x seen).
      { intros H. apply AccessFacts.list_includes_In in H. congruence. }
      simpl. rewrite IH, in_app_iff. simpl. split.
      * intros [-> | [Hr Hn]]; [split; [now left | assumption] |].
        split; [now right | tauto].
      * intros [[-> | Hr] Hn]; [now left |].
        destruct (String.eqb_spec x t) as [-> | Hne]; [now left |].
        right. split; [assumption |]. intros [H | [H | []]]; contradiction.
Qed.

Lemma fresh_NoDup (l seen : list string) : NoDup (fresh seen l).
Proof.
  revert seen. induction l as [| x rest IH]; intros seen; cbn [fresh].
  - constructor.
  - destruct (list_includes seen x); [apply IH |].
    constructor; [| apply IH].
    rewrite fresh_In, in_app_iff. simpl. tauto.
Qed.

Lemma fresh_length (l seen : list string) :
  (List.length (fresh seen l) <= List.length l)%nat.
Proof.
  revert seen. induction l as [| x rest IH]; intros seen; cbn [fresh];
    [apply le_n |].
  specialize (IH (seen ++ [x])).
  destruct (list_includes seen x); simpl; lia.
Qed.

Lemma fresh_split (l seen a b : list string) (t : string) :
  fresh seen l = a ++ t :: b ->
  exists p r,
    l = p ++ t :: r /\ ~ In t (seen ++ p)
    /\ b = fresh (seen ++ p ++ [t]) r.
Proof.
  revert seen a. induction l as [| x rest IH]; intros seen a; cbn [fresh].
  - destruct a; discriminate.
  - destruct (list_includes seen x) eqn:Ein.
    + intros H. destruct (IH _ _ H) as [p [r [-> [Hn ->]]]].
      exists (x :: p), r. split; [reflexivity |].
      rewrite <- app_assoc in Hn. split; [exact Hn |].
      now rewrite <- !app_assoc.
    + assert (Hx : ~ In x seen).
      { intros H. apply AccessFacts.list_includes_In in H. congruence. }
      destruct a as [| y a]; cbn [app]; intros [= -> H].
      * exists [], rest. rewrite app_nil_r. split; [reflexivity |].
        split; [exact Hx | now subst].
      * destruct (IH _ _ H) as [p [r [-> [Hn ->]]]].
        exists (y :: p), r. split; [reflexivity |].
        rewrite <- app_assoc in Hn. split; [exact Hn |].
        now rewrite <- !app_assoc.
Qed.

(** X15. The texts of a screen are distinct, non-empty and in screen
    order. On a dump that parses, get_screen_text answers a list without
    repetitions whose members are exactly the labels (text, or else
    accessibility label) of the elements that have one; no entry is
    empty; the count it reports is the length of the list and at most
    50000; and the entries stand in the order in which each label first
    appears on the screen. *)
Theorem get_screen_text_distinct_labels (out : string) (elements : list UiElement) :
  parseUiTree out = Returns elements ->
  let labels := map label (filter labelled elements) in
  exists texts,
    get_screen_text (Returns out)
    = ScreenText (Z.of_nat (List.length texts)) texts
    /\ NoDup texts
    /\ (forall t, In t texts <->
                  exists el, In el elements /\ labelled el = true /\ label el = t)
    /\ (forall t, In t texts -> t <> EmptyString)
    /\ Z.of_nat (List.length texts) <= 50000
    /\ (forall a t1 b t2 c,
          texts = a ++ t1 :: b ++ t2 :: c ->
          exists p q r,
            labels = p ++ t1 :: q ++ t2 :: r
            /\ ~ In t1 p /\ ~ In t2 (p ++ t1 :: q)).
Proof.
  intros Hp labels.
  assert (Hmem : forall t, In t (fresh [] labels) <->
                 exists el, In el elements /\ labelled el = true /\ label el = t).
  { intros t. rewrite fresh_In. unfold labels. rewrite in_map_iff. split.
    - intros [[el [Hl Hin]] _]. apply filter_In in Hin. exists el. tauto.
    - intros [el [Hin [Hlab Hl]]]. split; [| intros []].
      exists el. split; [exact Hl |]. apply filter_In. tauto. }
  exists (fresh [] labels).
  split; [| split; [| split; [| split; [| split]]]].
  - pose proof (first_occurrences_fresh labels []) as Hfo.
    cbn [app List.length Z.of_nat] in Hfo.
    unfold get_screen_text. rewrite Hp. cbv zeta. unfold labels in *.
    now rewrite Hfo.
  - apply fresh_NoDup.
  - exact Hmem.
  - intros t Ht. apply Hmem in Ht as [el [_ [Hlab <-]]].
    now apply labelled_label.
  - pose proof (fresh_length labels []) as Hl.
    pose proof (parsed_within_ceiling out elements Hp) as Hc.
    pose proof (filter_length_le labelled elements) as Hf.
    unfold labels in *. rewrite length_map in Hl.
    unfold MAX_ELEMENTS in Hc. lia.
  - intros a t1 b t2 c Ht.
    destruct (fresh_split labels [] a (b ++ t2 :: c) t1 Ht) as [p [r [Hl [Hn1 Hb]]]].
    destruct (fresh_split r _ b c t2 (eq_sym Hb)) as [q [r' [-> [Hn2 _]]]].
    exists p, q, r'. split; [exact Hl |]. split; [exact Hn1 |].
    cbn [app] in Hn2. intros H. apply Hn2.
    rewrite !in_app_iff in *. simpl in *. tauto.
Qed.

Definition two_buttons_dump : string :=
  "<node text=" ++ ExtractionFacts.q ++ "OK" ++ ExtractionFacts.q ++ " >"
  ++ "<node text=" ++ ExtractionFacts.q ++ "OK" ++ ExtractionFacts.q ++ " >".

Lemma get_screen_text_distinct_labels_witness :
  exists texts,
    get_screen_text (Returns two_buttons_dump)
    = ScreenText (Z.of_nat (List.length texts)) texts
    /\ NoDup texts.
Proof.
  destruct (get_screen_text_distinct_labels two_buttons_dump
              (map element_of_node
                 (ParseFacts.node_declarations two_buttons_dump)))
    as [texts [Hr [Hn _]]].
  - vm_compute. reflexivity.
  - now exists texts.
Defined.

(** *** analyze_screen *)

Lemma in_firstn (A : Type) (n : nat) (l : list A) (x : A) :
  In x (firstn n l) -> In x l.
Proof.
  intros H. rewrite <- (firstn_skipn n l). apply in_or_app. now left.
Qed.

Lemma count_range (p : UiElement -> bool) (els : list UiElement) :
  0 <= count p els <= Z.of_nat (List.length els).
Proof.
  unfold count. pose proof (filter_length_le p els). lia.
Qed.

Lemma count_weaken (p r : UiElement -> bool) (els : list UiElement) :
  (forall el, p el = true -> r el = true) ->
  count p els <= count r els.
Proof.
  intros Hpr. unfold count.
  induction els as [| el rest IH]; simpl; [lia |].
  destruct (p el) eqn:Ep.
  - rewrite (Hpr el Ep). cbn [List.length]. lia.
  - destruct (r el); cbn [List.length]; lia.
Qed.

(** X16. The summary of a screen is consistent with the dump. On a dump
    that parses, analyze_screen reports a total of at most 50000
    elements and four counts between 0 and that total; the visible texts
    are at most 20, their number is the smaller of 20 and the count of
    text elements, and none is empty; the interactive elements are at
    most 15 and no more than the clickable count, and each one carries
    the non-empty label and the bounds of a clickable element of the
    dump. *)
Theorem analyze_screen_consistent (out : string) (elements : list UiElement) :
  parseUiTree out = Returns elements ->
  exists a,
    analyze_screen (Returns out) = ScreenAnalysis a
    /\ Analysis.totalElements a = Z.of_nat (List.length elements)
    /\ Analysis.totalElements a <= 50000
    /\ 0 <= Analysis.clickableElements a <= Analysis.totalElements a
    /\ 0 <= Analysis.textElements a <= Analysis.totalElements a
    /\ 0 <= Analysis.inputFields a <= Analysis.totalElements a
    /\ 0 <= Analysis.buttons a <= Analysis.totalElements a
    /\ Z.of_nat (List.length (Analysis.visibleText a))
       = Z.min 20 (Analysis.textElements a)
    /\ (forall t, In t (Analysis.visibleText a) -> t <> EmptyString)
    /\ Z.of_nat (List.length (Analysis.interactiveElements a))
       <= Z.min 15 (Analysis.clickableElements a)
    /\ (forall t ty b,
          In (t, ty, b) (Analysis.interactiveElements a) ->
          t <> EmptyString
          /\ exists el, In el elements /\ clickable el = true
                        /\ t = label el /\ ty = last_segment (className el)
                        /\ b = bounds el).
Proof.
  intros Hp. exists (analyze elements).
  pose proof (parsed_within_ceiling out elements Hp) as Hc.
  unfold MAX_ELEMENTS in Hc.
  split; [unfold analyze_screen; now rewrite Hp |].
  unfold analyze;
    cbn [Analysis.totalElements Analysis.clickableElements Analysis.textElements
         Analysis.inputFields Analysis.buttons Analysis.visibleText
         Analysis.interactiveElements].
  split; [reflexivity |]. split; [exact Hc |].
  split; [apply count_range |]. split; [apply count_range |].
  split; [apply count_range |]. split; [apply count_range |].
  split; [| split; [| split]].
  - rewrite length_firstn, length_map. unfold count. lia.
  - intros t Ht. apply in_firstn in Ht.
    apply in_map_iff in Ht as [el [<- Hin]].
    apply filter_In in Hin as [_ Hne].
    destruct (text el); [discriminate Hne | discriminate].
  - rewrite length_firstn, length_map.
    pose proof (count_weaken (fun el => clickable el && labelled el) clickable
                  elements) as Hw.
    unfold count in *.
    assert (Hle : Z.of_nat (List.length
                     (filter (fun el => clickable el && labelled el) elements))
                  <= Z.of_nat (List.length (filter clickable elements))).
    { apply Hw. intros el H. now apply andb_true_iff in H. }
    lia.
  - intros t ty b Hin. apply in_firstn in Hin.
    apply in_map_iff in Hin as [el [[= <- <- <-] Hin]].
    apply filter_In in Hin as [Hin Hcl].
    apply andb_true_iff in Hcl as [Hcl Hlab].
    split; [now apply labelled_label |].
    exists el. auto.
Qed.

Lemma analyze_screen_consistent_witness :
  exists a,
    analyze_screen (Returns two_buttons_dump) = ScreenAnalysis a
    /\ Analysis.totalElements a = 2.
Proof.
  destruct (analyze_screen_consistent two_buttons_dump
              (map element_of_node
                 (ParseFacts.node_declarations two_buttons_dump)))
    as [a [Hr [Ht _]]].
  - vm_compute. reflexivity.
  - exists a. split; [exact Hr |]. rewrite Ht. reflexivity.
Defined.

(** *** suggest_action *)

(** The word of the goal that a rule looks for. *)
Definition keyword (r : reasoning) : option string :=
  match r with
  | InitiatesLogin => Some "login"
  | SearchInput => Some "search"
  | NavigatesToSettings => Some "settings"
  | GoesBack => Some "back"
  | NoDirectMatch _ => None
  end.

(** A suggestion drawn from the element [el] for the goal [goalLower]. *)
Definition drawn_from (goalLower : string) (el : UiElement) (s : suggestion) : Prop :=
  target s = label el
  /\ (action s = "tap"
      \/ (action s = "input" /\ includes (className el) "EditText" = true))
  /\ exists kw, keyword (reason s) = Some kw /\ includes goalLower kw = true.

Lemma or_else_label (el : UiElement) (d : string) :
  labelled el = true -> or_else (label el) d = label el.
Proof.
  intros H. apply labelled_label in H.
  unfold or_else. destruct (label el); [now elim H | reflexivity].
Qed.

Lemma suggestions_for_drawn (goalLower : string) (el : UiElement) (s : suggestion) :
  labelled el = true ->
  In s (suggestions_for goalLower el) -> drawn_from goalLower el s.
Proof.
  intros Hl Hin. unfold suggestions_for in Hin.
  rewrite (or_else_label el "search field" Hl) in Hin.
  rewrite !in_app_iff in Hin. unfold drawn_from.
  destruct Hin as [H | [H | [H | H]]].
  - destruct (includes goalLower "login") eqn:Eg; cbn [andb] in H;
      [| contradiction].
    destruct (_ || _) in H; [| contradiction].
    destruct H as [<- | []]. cbn [target action reason keyword].
    split; [reflexivity |]. split; [now left |]. now exists "login".
  - destruct (includes goalLower "search") eqn:Eg; cbn [andb] in H;
      [| contradiction].
    destruct (_ || _) in H; [| contradiction].
    destruct H as [<- | []]. cbn [target action reason keyword].
    split; [reflexivity |]. split; [| now exists "search"].
    destruct (includes (className el) "EditText"); [right | left]; auto.
  - destruct (includes goalLower "settings") eqn:Eg; cbn [andb] in H;
      [| contradiction].
    destruct (includes _ "setting") in H; [| contradiction].
    destruct H as [<- | []]. cbn [target action reason keyword].
    split; [reflexivity |]. split; [now left |]. now exists "settings".
  - destruct (includes goalLower "back") eqn:Eg; cbn [andb] in H;
      [| contradiction].
    destruct (includes _ "back") in H; [| contradiction].
    destruct H as [<- | []]. cbn [target action reason keyword].
    split; [reflexivity |]. split; [now left |]. now exists "back".
Qed.

(** X17. What suggest_action may suggest. For a non-empty goal of at most
    1000 units and a dump that parses, the answer echoes the goal and
    counts the clickable elements that carry a label; the list of
    suggestions is empty exactly when that count is zero; and every
    suggestion is either the lone fallback that points to analyze_screen,
    or a tap or an input whose target is the non-empty label of a
    clickable element of the dump, made because the goal, in lower case,
    contains the keyword of its rule; an input is suggested only for an
    EditText. *)
Theorem suggest_action_targets (goal out : string) (elements : list UiElement) :
  goal <> EmptyString -> len goal <= MAX_GOAL_LEN ->
  parseUiTree out = Returns elements ->
  exists suggestions count,
    suggest_action (Some goal) (Returns out) = Suggestions goal suggestions count
    /\ count = Z.of_nat (List.length
                           (filter (fun el => clickable el && labelled el) elements))
    /\ 0 <= count <= 50000
    /\ (suggestions = [] <-> count = 0)
    /\ (forall s, In s suggestions ->
          (suggestions = [s] /\ action s = "analyze" /\ target s = "screen"
           /\ reason s = NoDirectMatch count)
          \/ exists el, In el elements /\ clickable el = true
                        /\ target s <> EmptyString
                        /\ drawn_from (toLowerCase goal) el s).
Proof.
  intros Hgoal Hlen Hp.
  pose proof (parsed_within_ceiling out elements Hp) as Hc.
  unfold MAX_ELEMENTS in Hc.
  pose proof (filter_length_le (fun el => clickable el && labelled el) elements)
    as Hf.
  unfold suggest_action.
  destruct goal as [| c g]; [now elim Hgoal |].
  destruct (MAX_GOAL_LEN <? len (String c g)) eqn:E;
    [apply Z.ltb_lt in E; lia |].
  rewrite Hp. cbv zeta.
  set (actionable := filter (fun el => clickable el && labelled el) elements) in *.
  set (found := flat_map (suggestions_for (toLowerCase (String c g))) actionable).
  assert (Hdrawn : forall s, In s found ->
            exists el, In el elements /\ clickable el = true
                       /\ target s <> EmptyString
                       /\ drawn_from (toLowerCase (String c g)) el s).
  { intros s Hin. apply in_flat_map in Hin as [el [Hel Hs]].
    apply filter_In in Hel as [Hel Hcl].
    apply andb_true_iff in Hcl as [Hcl Hlab].
    pose proof (suggestions_for_drawn _ el s Hlab Hs) as Hd.
    exists el. split; [exact Hel |]. split; [exact Hcl |].
    split; [| exact Hd].
    destruct Hd as [-> _]. now apply labelled_label. }
  destruct found as [| s0 rest] eqn:Efound.
  - cbn [List.length Z.of_nat Z.eqb andb app].
    destruct (0 <? Z.of_nat (List.length actionable)) eqn:Epos.
    + apply Z.ltb_lt in Epos. eexists _, _. split; [reflexivity |].
      split; [reflexivity |]. split; [lia |]. split.
      * split; [discriminate | lia].
      * intros s [<- | []]. left. auto.
    + apply Z.ltb_ge in Epos. eexists _, _. split; [reflexivity |].
      split; [reflexivity |]. split; [lia |]. split.
      * split; [lia | reflexivity].
      * intros s [].
  - assert (Hne : actionable <> []).
    { intros Hnil. unfold found in Efound. rewrite Hnil in Efound.
      discriminate Efound. }
    assert (E0 : (Z.of_nat (List.length (s0 :: rest)) =? 0) = false).
    { apply Z.eqb_neq. cbn [List.length]. lia. }
    rewrite E0. cbn [andb].
    eexists _, _. split; [reflexivity |]. split; [reflexivity |].
    split; [lia |]. split.
    + split; [discriminate |]. intros Hz.
      destruct actionable; [now elim Hne | cbn [List.length] in Hz; lia].
    + intros s Hin. right. now apply Hdrawn.
Qed.

Lemma suggest_action_targets_witness :
  exists suggestions count,
    suggest_action (Some "press back") (Returns two_buttons_dump)
    = Suggestions "press back" suggestions count
    /\ count = 0.
Proof.
  destruct (suggest_action_targets "press back" two_buttons_dump
              (map element_of_node
                 (ParseFacts.node_declarations two_buttons_dump)))
    as [suggestions [count [Hr [Hcount _]]]].
  - discriminate.
  - vm_compute. discriminate.
  - vm_compute. reflexivity.
  - exists suggestions, count. split; [exact Hr |]. rewrite Hcount.
    vm_compute. reflexivity.
Defined.

(** *** assert_element and find_element *)

(** [args.shouldExist !== false] *)
Definition expected (shouldExist : option bool) : bool :=
  match shouldExist with Some false => false | _ => true end.

(** [!!found] *)
Definition present (found : option UiElement) : bool :=
  match found with Some _ => true | None => false end.

(** X18. The verdict of assert_element. A dump that could not be taken,
    or one over the size ceiling, fails the assertion whichever way it
    was put: an assertion of absence does not pass on a screen that could
    not be read. On a dump within the ceiling the tool looks up the first
    element, in document order, that some present and non-empty criterion
    matches, just as find_element does for criteria of accepted length;
    the reported existence does not depend on the expectation, the
    verdict is their agreement, and asserting absence passes exactly when
    asserting presence fails. *)
Theorem assert_element_verdict
        (text resourceId contentDescription : option string) (out : string) :
  let c := search_criteria text resourceId contentDescription in
  (forall shouldExist msg,
     assert_element text resourceId contentDescription shouldExist (Throws msg)
     = AssertFailed ("Failed: " ++ msg))
  /\ (MAX_XML_SIZE < len out ->
      forall shouldExist,
        assert_element text resourceId contentDescription shouldExist (Returns out)
        = AssertFailed ("Failed: " ++ size_error))
  /\ (len out <= MAX_XML_SIZE ->
      exists elements found,
        parseUiTree out = Returns elements
        /\ first_match (matches_any supplied_nonempty c) elements found
        /\ (forall shouldExist,
              assert_element text resourceId contentDescription shouldExist
                (Returns out)
              = Asserted (Bool.eqb (expected shouldExist) (present found))
                         (present found)
                         (expected shouldExist)
                         (option_map (fun el => (Utils.text el, enabled el)) found))
        /\ ((too_long text || too_long resourceId || too_long contentDescription)
            = false ->
            find_element text resourceId contentDescription (Returns out)
            = match found with
              | Some el => ElementFound el
              | None => ElementNotFound
              end)).
Proof.
  intros c. split; [reflexivity |]. split.
  - intros Hbig shouldExist. unfold assert_element, parseUiTree.
    apply Z.ltb_lt in Hbig. now rewrite Hbig.
  - intros Hsmall.
    pose proof (ParseFacts.parseUiTree_returns out Hsmall) as Hp.
    eexists _, (findElementInTree _ c). split; [exact Hp |]. split.
    + rewrite findElementInTree_find. apply find_first_match.
      intros x. apply matchesb_spec.
    + split.
      * intros shouldExist. unfold assert_element. rewrite Hp. cbv zeta.
        fold c. unfold expected, present.
        destruct (findElementInTree _ c); destruct shouldExist as [[|] |];
          reflexivity.
      * intros Hok. unfold find_element. rewrite Hok, Hp. fold c.
        reflexivity.
Qed.

Lemma assert_element_verdict_witness :
  exists elements found,
    parseUiTree two_buttons_dump = Returns elements
    /\ first_match
         (matches_any supplied_nonempty (search_criteria (Some "ok") None None))
         elements found.
Proof.
  destruct (proj2 (proj2 (assert_element_verdict (Some "ok") None None
                            two_buttons_dump)))
    as [elements [found [Hp [Hf _]]]].
  - vm_compute. discriminate.
  - now exists elements, found.
Defined.

End ScreenFacts.

(** ** Polling in wait_for_element *)

Module PollingFacts.
Import JS Utils Index WaitFacts.
Local Open Scope list_scope.

Local Notation Zq := QArith_base.inject_Z.
Local Notation Qle := QArith_base.Qle.
Local Notation Qlt := QArith_base.Qlt.

(** The timeout is NaN exactly when the request is. *)
Lemma effective_timeout_nan (t : Args.number_arg) :
  effective_timeout t = Args.NaN <-> requestedTimeout t = Args.NaN.
Proof.
  split.
  - intros He. destruct (requestedTimeout t) eqn:Er; try reflexivity;
      (assert (Hn : requestedTimeout t <> Args.NaN) by (rewrite Er; discriminate));
      destruct (effective_timeout_range t Hn) as [q' [Hq _]]; congruence.
  - intros Hr. unfold effective_timeout. now rewrite Hr.
Qed.

(** The target is in the very first dump. *)
Lemma first_dump_hit (dev : Device) (args : wait_args) (startTime : Z)
      (q : QArith_base.Q) (found : UiElement) :
  params_ok args ->
  effective_timeout (arg_timeout args) = Args.Finite q ->
  Qle (Zq 1000) q ->
  poll_once args (exec_dump dev O) = Some found ->
  wait_for_element dev args startTime
  = Some (Found (exec_time dev O) (text found) (centerX found, centerY found),
          {| clock := startTime + exec_time dev O; trace := [DumpRequested] |}).
Proof.
  intros [Ht [Hr Hd]] Hq Hlo Hfirst.
  unfold wait_for_element. rewrite Ht, Hr, Hd, Hq. cbn [orb wait_loop clock trace].
  assert (Htest : Args.lt (Args.integer (startTime - startTime)) (Args.Finite q) = true).
  { apply lt_integer. rewrite Z.sub_diag.
    apply QArith_base.Qlt_le_trans with (y := Zq 1000); [| exact Hlo].
    rewrite <- QArith_base.Zlt_Qlt. lia. }
  rewrite Htest, Hfirst. cbn [app].
  replace (startTime + exec_time dev O - startTime) with (exec_time dev O) by lia.
  reflexivity.
Qed.


(** A device that shows the button from its third dump on. *)
Definition slow_device : Device :=
  {| exec_dump := fun k => if Nat.ltb k 2 then Returns EmptyString
                           else Returns ScreenFacts.two_buttons_dump;
     exec_time := fun _ => 120;
     sleep_time := fun _ ms => ms + 3 |}.

Definition ok_request : wait_args :=
  {| arg_text := Some "ok"; arg_resourceId := None;
     arg_contentDescription := None; arg_timeout := Args.Falsy |}.


(** The run above, computed: two fruitless rounds, then the match. *)
Example ok_request_found_on_third_dump :
  option_map (fun p => (fst p, trace (snd p)))
    (wait_for_element slow_device ok_request 0)
  = Some (Found 1366 "OK" (None, None),
          [DumpRequested; Slept 500; DumpRequested; Slept 500; DumpRequested]).
Proof. vm_compute. reflexivity. Qed.

End PollingFacts.

(** ** The license status *)

Module StatusFacts.
Import JS Types License LicenseTools CacheFacts.
Local Open Scope list_scope.

(** Resolution always answers, with a license marked valid; its tier is
    one of the declared two unless it was copied from a fresh cache record
    that loading accepted. *)
Lemma checkLicense_answers (host : Host) (remote : string -> response)
      (now received : Z) (w : World) :
  exists info w',
    checkLicense host remote now received w = (Returns info, w')
    /\ LicenseInfo.valid info = true
    /\ ((exists t : MobileDevTier, LicenseInfo.tier info = t)
        \/ (exists d,
              loadCachedLicense host w = (Returns (Some d), w)
              /\ LicenseInfo.tier info = CachedLicense.tier d
              /\ now - lastCheck d < CACHE_TTL_MS /\ w' = w)).
Proof.
  destruct (load_returns host w) as [r [w1 Hl]].
  destruct r as [d |].
  - destruct (load_trusts_only_verified host w w1 d Hl) as [-> _].
    unfold checkLicense, try_catch.
    rewrite (LicenseToolFacts.check_with_record host remote now received w d Hl).
    destruct (CachedLicense.licenseKey d) as [[| c key] |];
      try (eexists _, _; split; [reflexivity |]; split; [reflexivity |];
           left; now exists free).
    destruct (now - lastCheck d <? CACHE_TTL_MS) eqn:Efresh.
    + apply Z.ltb_lt in Efresh.
      eexists _, _. split; [reflexivity |]. split; [reflexivity |].
      right. exists d. auto.
    + rewrite LicenseToolFacts.validate_spec.
      destruct (remote (String c key)) as [| | | | [|] product expires |];
        eexists _, _; (split; [reflexivity |]); (split; [reflexivity |]); left;
        try (now exists free).
      now exists (mapProductToTier (or_text product EmptyString)).
  - rewrite (LicenseToolFacts.check_without_record host remote now received w w1 Hl).
    eexists _, _. split; [reflexivity |]. split; [reflexivity |].
    left. now exists free.
Qed.

(** X20. The license status reports what is enforced, whenever it
    comes. checkLicense always answers, with a license marked valid. When
    the tier of that license is a string, getLicenseStatus returns the
    status: the tier in upper case, marked valid, with the line and device
    limits that the log and device tools enforce for that tier. For free
    these are 50 lines, 1 device and 8 tools, with the upgrade offer and
    the attribution requirement; for advanced 200 lines, 3 devices and 21
    tools, with neither; for any other string the free limits and 8 tools,
    but neither the upgrade offer nor the attribution requirement. When
    the tier is no string, getLicenseStatus throws. A tier other than
    free and advanced can only come from a fresh cache record that loading
    accepted. *)
Theorem getLicenseStatus_reports_enforced_limits
        (host : Host) (remote : string -> response)
        (now received : Z) (w : World) :
  exists license w',
    checkLicense host remote now received w = (Returns license, w')
    /\ LicenseInfo.valid license = true
    /\ match LicenseInfo.tier license with
       | TierText s =>
           exists status,
             getLicenseStatus host remote now received w = (Returns status, w')
             /\ Status.tier status = Returns (toUpperCase s)
             /\ Status.valid status = true
             /\ Status.maxLogLines status = getMaxLogLines s
             /\ Status.maxDevices status = getMaxDevices s
             /\ ((s = "free"
                  /\ Status.tier status = Returns (units "FREE")
                  /\ Status.maxLogLines status = 50
                  /\ Status.maxDevices status = 1
                  /\ Status.tools status = 8
                  /\ Status.upgrade status = true
                  /\ Status.attribution_required status = true)
                 \/ (s = "advanced"
                     /\ Status.tier status = Returns (units "ADVANCED")
                     /\ Status.maxLogLines status = 200
                     /\ Status.maxDevices status = 3
                     /\ Status.tools status = 21
                     /\ Status.upgrade status = false
                     /\ Status.attribution_required status = false)
                 \/ (s <> "free" /\ s <> "advanced"
                     /\ Status.maxLogLines status = 50
                     /\ Status.maxDevices status = 1
                     /\ Status.tools status = 8
                     /\ Status.upgrade status = false
                     /\ Status.attribution_required status = false))
       | TierOther _ =>
           exists msg,
             getLicenseStatus host remote now received w = (Throws msg, w')
       end
    /\ (LicenseInfo.tier license <> free ->
        LicenseInfo.tier license <> advanced ->
        exists d,
          loadCachedLicense host w = (Returns (Some d), w)
          /\ LicenseInfo.tier license = CachedLicense.tier d
          /\ now - lastCheck d < CACHE_TTL_MS /\ w' = w).
Proof.
  destruct (checkLicense_answers host remote now received w)
    as [info [w' [Hc [Hv Hfrom]]]].
  exists info, w'. split; [exact Hc |]. split; [exact Hv |]. split.
  - unfold getLicenseStatus, bind. rewrite Hc.
    unfold status_of. cbn [Status.tier].
    destruct (LicenseInfo.tier info) as [s | key];
      cbn [toUpperCase_tier property_key tier_is]; [| now exists "TypeError"].
    eexists. split; [reflexivity |].
    cbn [Status.tier Status.valid Status.maxLogLines Status.maxDevices
         Status.tools Status.upgrade Status.attribution_required].
    split; [reflexivity |]. split; [exact Hv |].
    split; [reflexivity |]. split; [reflexivity |].
    destruct (String.eqb_spec s "free") as [-> | Hf].
    + left. repeat split.
    + destruct (String.eqb_spec s "advanced") as [-> | Ha].
      * right. left. repeat split.
      * right. right. split; [exact Hf |]. split; [exact Ha |].
        unfold limits_of_key.
        apply String.eqb_neq in Hf, Ha. rewrite Hf, Ha. repeat split.
  - intros Hnf Hna. destruct Hfrom as [[t Ht] | Hd]; [| exact Hd].
    destruct t; [now elim Hnf | now elim Hna].
Qed.

(** A record that names a tier of its own, under this machine's signature. *)
Definition gold : CachedLicense.Data :=
  {| CachedLicense.tier := TierText "gold";
     CachedLicense.licenseKey := Some "lk_0123456789";
     CachedLicense.expiresAt := None;
     CachedLicense.lastValidated := Some 1736850000000 |}.

(** The same without any tier. *)
Definition tierless : CachedLicense.Data :=
  {| CachedLicense.tier := TierOther "undefined";
     CachedLicense.licenseKey := Some "lk_0123456789";
     CachedLicense.expiresAt := None;
     CachedLicense.lastValidated := Some 1736850000000 |}.

Lemma getLicenseStatus_reports_enforced_limits_witness :
  exists license w',
    checkLicense toy_host EntitlementFacts.unreachable (1736850000000 + 1000) 0
      (world_with (envelope gold (signCacheData toy_host gold)))
    = (Returns license, w')
    /\ LicenseInfo.valid license = true.
Proof.
  destruct (getLicenseStatus_reports_enforced_limits toy_host
              EntitlementFacts.unreachable (1736850000000 + 1000) 0
              (world_with (envelope gold (signCacheData toy_host gold))))
    as [license [w' [Hc [Hv _]]]].
  now exists license, w'.
Defined.

(** The two runs, computed: a status for GOLD with the free limits and
    neither offer nor attribution, and a TypeError without a tier. *)
Example gold_status :
  option_map (fun st => (Status.tier st, Status.maxLogLines st, Status.tools st,
                         Status.upgrade st, Status.attribution_required st))
    (match fst (getLicenseStatus toy_host EntitlementFacts.unreachable
                  (1736850000000 + 1000) 0
                  (world_with (envelope gold (signCacheData toy_host gold)))) with
     | Returns st => Some st
     | Throws _ => None
     end)
  = Some (Returns (units "GOLD"), 50, 8, false, false).
Proof. vm_compute. reflexivity. Qed.

Example tierless_status_throws :
  fst (getLicenseStatus toy_host EntitlementFacts.unreachable
         (1736850000000 + 1000) 0
         (world_with (envelope tierless (signCacheData toy_host tierless))))
  = Throws "TypeError".
Proof. vm_compute. reflexivity. Qed.

End StatusFacts.
